(** * Feature engineering for crypto price and news tables

    A shallow embedding of the table transformations of
    [a1_load_crypto_prices.py], [a2_load_crypto_news.py] and
    [a3_data_engineering.py], and the properties of the feature
    specification checked against them.

    Tables are lists of rows in index order.  Numeric cells are values of
    [fl]: rationals extended with the two infinities and NaN.  Arithmetic
    on them is exact, so rounding and signed zeros are outside the model;
    what is kept is how NaN and the infinities arise and propagate, which
    is what the pandas operations used by the code depend on. *)

From Stdlib Require Import ZArith QArith Qabs Qround Qcanon Lia Lqa List Ascii Sorted.
From stdpp Require Import base option list gmap strings pretty.

Local Open Scope Z_scope.

(** ** Numeric cells *)

Module Float.

Inductive fl : Type :=
  | Fin (q : Q)
  | PInf
  | NInf
  | NaN.

Global Instance Q_eq_dec : EqDecision Q.
Proof. solve_decision. Defined.

Global Instance fl_eq_dec : EqDecision fl.
Proof. solve_decision. Defined.

Definition fin (q : Q) : fl := Fin (Qred q).
Definition of_Z (z : Z) : fl := Fin (inject_Z z).
Definition of_nat (n : nat) : fl := of_Z (Z.of_nat n).

Definition isnan (x : fl) : bool :=
  match x with NaN => true | _ => false end.
Definition notnan (x : fl) : bool := negb (isnan x).
Definition is_fin (x : fl) : bool :=
  match x with Fin _ => true | _ => false end.

(** Sign of a rational as -1, 0 or 1. *)
Definition Qsgn (q : Q) : Z := Z.sgn (Qnum q).

Definition fneg (x : fl) : fl :=
  match x with
  | Fin q => fin (- q)
  | PInf => NInf
  | NInf => PInf
  | NaN => NaN
  end.

Definition fadd (x y : fl) : fl :=
  match x, y with
  | NaN, _ | _, NaN => NaN
  | Fin p, Fin q => fin (p + q)
  | PInf, NInf | NInf, PInf => NaN
  | PInf, _ | _, PInf => PInf
  | NInf, _ | _, NInf => NInf
  end.

Definition fsub (x y : fl) : fl := fadd x (fneg y).

(** An infinity of the sign of [s]; the product with zero is NaN. *)
Definition inf_of_sign (s : Z) : fl :=
  match s with
  | Z0 => NaN
  | Zpos _ => PInf
  | Zneg _ => NInf
  end.

Definition fmul (x y : fl) : fl :=
  match x, y with
  | NaN, _ | _, NaN => NaN
  | Fin p, Fin q => fin (p * q)
  | Fin p, PInf | PInf, Fin p => inf_of_sign (Qsgn p)
  | Fin p, NInf | NInf, Fin p => inf_of_sign (- Qsgn p)
  | PInf, PInf | NInf, NInf => PInf
  | PInf, NInf | NInf, PInf => NInf
  end.

(** Division as numpy does it on float64: a zero divisor gives an
    infinity of the sign of the dividend, or NaN for 0/0; nothing is
    raised. *)
Definition fdiv (x y : fl) : fl :=
  match x, y with
  | NaN, _ | _, NaN => NaN
  | Fin p, Fin q =>
      if Qeq_bool q 0 then inf_of_sign (Qsgn p) else fin (p / q)
  | Fin _, (PInf | NInf) => Fin 0
  | (PInf | NInf), (PInf | NInf) => NaN
  | PInf, Fin q => if Z.ltb (Qsgn q) 0 then NInf else PInf
  | NInf, Fin q => if Z.ltb (Qsgn q) 0 then PInf else NInf
  end.

Definition fabs (x : fl) : fl :=
  match x with
  | Fin q => fin (Qabs q)
  | PInf | NInf => PInf
  | NaN => NaN
  end.

(** [x == y] and [x <= y]: false as soon as one side is NaN. *)
Definition feqb (x y : fl) : bool :=
  match x, y with
  | Fin p, Fin q => Qeq_bool p q
  | PInf, PInf | NInf, NInf => true
  | _, _ => false
  end.

Definition fleb (x y : fl) : bool :=
  match x, y with
  | NaN, _ | _, NaN => false
  | NInf, _ | _, PInf => true
  | Fin p, Fin q => Qle_bool p q
  | _, _ => false
  end.

(** Square root of a rational, rounded down to a multiple of 2^-52.
    Only [fsqrt 0 = 0] and finiteness on non-negative arguments are
    used below. *)
Definition Qsqrt (q : Q) : Q :=
  Z.sqrt (Qfloor (q * inject_Z (2 ^ 104))) # (2 ^ 52).

Definition fsqrt (x : fl) : fl :=
  match x with
  | Fin q => if Qle_bool 0 q then fin (Qsqrt q) else NaN
  | PInf => PInf
  | NInf | NaN => NaN
  end.

(** Reductions that skip NaN, as pandas does by default. *)
Definition dropna (l : list fl) : list fl := filter (fun x => notnan x = true) l.

Definition fsum (l : list fl) : fl := foldr fadd (Fin 0) l.

(** [Series.sum()]: NaN entries are skipped and the empty sum is 0. *)
Definition nansum (l : list fl) : fl := fsum (dropna l).

Definition fmax2 (x y : fl) : fl := if fleb x y then y else x.
Definition fmin2 (x y : fl) : fl := if fleb x y then x else y.

Definition fmax_list (l : list fl) : fl :=
  match l with
  | [] => NaN
  | x :: l' => foldl fmax2 x l'
  end.

Definition fmin_list (l : list fl) : fl :=
  match l with
  | [] => NaN
  | x :: l' => foldl fmin2 x l'
  end.

(** [Series.mean()]: mean of the entries that are not NaN, NaN if there
    are none. *)
Definition nanmean (l : list fl) : fl :=
  match dropna l with
  | [] => NaN
  | v => fdiv (fsum v) (of_nat (length v))
  end.

End Float.

(** ** Series operations of pandas used by the code *)

Module Series.
Import Float.

(** Cell [i] of a series; reading outside the series gives NaN. *)
Definition cell (l : list fl) (i : nat) : fl := default NaN (l !! i).

Definition clip (n : nat) (z : Z) : nat := Z.to_nat (Z.min (Z.max z 0) (Z.of_nat n)).

(** The rows a fixed window of [w] periods covers at row [i] of a series
    of [n] rows, as a half-open interval clipped to the series.  A
    centered window is shifted forward by [(w - 1) // 2] rows. *)
Definition window_offset (center : bool) (w : nat) : Z :=
  if center || Nat.eqb w 0 then (Z.of_nat w - 1) / 2 else 0.

Definition window_stop (center : bool) (w n i : nat) : nat :=
  clip n (Z.of_nat i + 1 + window_offset center w).

Definition window_start (center : bool) (w n i : nat) : nat :=
  clip n (Z.of_nat i + 1 + window_offset center w - Z.of_nat w).

Definition window (center : bool) (w : nat) (l : list fl) (i : nat) : list fl :=
  let a := window_start center w (length l) i in
  let b := window_stop center w (length l) i in
  take (b - a) (drop a l).

(** A rolling aggregation first turns the infinities of the series into
    NaN; what it then counts and aggregates are the cells left that are
    not NaN. *)
Definition inf_to_nan (x : fl) : fl :=
  match x with
  | PInf | NInf => NaN
  | _ => x
  end.

Definition observations (l : list fl) : list fl := dropna (map inf_to_nan l).

(** [Series.rolling(window=w, min_periods=minp, center=center).agg()]:
    at each row the aggregate of the observations of the window, or NaN
    when there are fewer than [minp] of them. *)
Definition rolling (center : bool) (w minp : nat) (agg : list fl -> fl)
    (l : list fl) : list fl :=
  map (fun i =>
         let v := observations (window center w l i) in
         if Nat.ltb (length v) minp then NaN else agg v)
      (seq 0 (length l)).

Definition mean (v : list fl) : fl := fdiv (fsum v) (of_nat (length v)).

(** Sample variance and standard deviation (one degree of freedom
    removed); NaN on fewer than two observations. *)
Definition var (v : list fl) : fl :=
  if Nat.leb (length v) 1 then NaN
  else
    let m := mean v in
    fdiv (fsum (map (fun x => fmul (fsub x m) (fsub x m)) v))
         (of_nat (length v - 1)).

Definition std (v : list fl) : fl := fsqrt (var v).

Definition rolling_sum center w minp := rolling center w minp fsum.
Definition rolling_max center w minp := rolling center w minp fmax_list.
Definition rolling_min center w minp := rolling center w minp fmin_list.
Definition rolling_mean center w minp := rolling center w minp mean.
Definition rolling_std center w minp := rolling center w minp std.

(** [Series.shift(k)]: row [i] receives the value of row [i - k]; rows
    whose source falls outside the series receive NaN. *)
Definition shift (k : Z) (l : list fl) : list fl :=
  map (fun i =>
         let j := Z.of_nat i - k in
         if (0 <=? j) && (j <? Z.of_nat (length l)) then cell l (Z.to_nat j)
         else NaN)
      (seq 0 (length l)).

(** Forward fill: a NaN takes the last value seen before it. *)
Fixpoint ffill_from (last : fl) (l : list fl) : list fl :=
  match l with
  | [] => []
  | x :: l' =>
      let y := if isnan x then last else x in
      y :: ffill_from y l'
  end.

Definition ffill (l : list fl) : list fl := ffill_from NaN l.

(** [Series.pct_change(periods=k)], with [fill_method] either the
    default (forward fill first) or [None]. *)
Definition pct_change (k : Z) (fill : bool) (l : list fl) : list fl :=
  let d := if fill then ffill l else l in
  zip_with (fun a b => fsub (fdiv a b) (Fin 1)) d (shift k d).

Definition scale (c : fl) (l : list fl) : list fl := map (fun x => fmul x c) l.

End Series.

(** ** Stable sorting by a key *)

Module Sorting.

Section Sort.
Context {A : Type} (leb : A -> A -> bool).

Fixpoint insert_sorted (x : A) (l : list A) : list A :=
  match l with
  | [] => [x]
  | y :: l' => if leb x y then x :: l else y :: insert_sorted x l'
  end.

(** Insertion from the right keeps equal keys in their input order. *)
Definition sort (l : list A) : list A := foldr insert_sorted [] l.
End Sort.

Fixpoint list_Z_leb (a b : list Z) : bool :=
  match a, b with
  | [], _ => true
  | _ :: _, [] => false
  | x :: a', y :: b' => (x <? y) || ((x =? y) && list_Z_leb a' b')
  end.

End Sorting.

(** ** Price loading: [a1_load_crypto_prices.py] *)

Module Prices.
Import Float Series.

(** One fetched candle: [[timestamp, open, high, low, close, volume]],
    the timestamp in milliseconds since the epoch. *)
Record candle : Type := Candle {
  timestamp : Z;
  open : fl;
  high : fl;
  low : fl;
  close : fl;
  volume : fl
}.

(** The columns a frame can be grouped by.  The coin column holds the
    same [coin_name] in every row of one call, so it contributes a
    constant to the group key. *)
Inductive keycol : Type := KCoin | KTimestamp | KWeekday | KDay | KHour.

Global Instance keycol_eq_dec : EqDecision keycol.
Proof. solve_decision. Defined.

Definition day_of (ts : Z) : Z := ts / 86400000.
Definition hour_of (ts : Z) : Z := (ts / 3600000) mod 24.
(** Monday is 0; the epoch fell on a Thursday. *)
Definition weekday_of (ts : Z) : Z := (day_of ts + 3) mod 7.

Definition keyval (k : keycol) (c : candle) : Z :=
  match k with
  | KCoin => 0
  | KTimestamp => timestamp c
  | KWeekday => weekday_of (timestamp c)
  | KDay => day_of (timestamp c)
  | KHour => hour_of (timestamp c)
  end.

Definition key_of (agg_level : list keycol) (c : candle) : list Z :=
  map (fun k => keyval k c) agg_level.

(** The distinct keys in ascending order: the rows of a sorted groupby. *)
Fixpoint add_key (k : list Z) (ks : list (list Z)) : list (list Z) :=
  match ks with
  | [] => [k]
  | k' :: ks' =>
      if decide (k = k') then ks
      else if Sorting.list_Z_leb k k' then k :: ks
      else k' :: add_key k ks'
  end.

Definition group_keys (agg_level : list keycol) (df : list candle) : list (list Z) :=
  foldr (fun c ks => add_key (key_of agg_level c) ks) [] df.

Definition group_of (agg_level : list keycol) (df : list candle) (k : list Z) : list candle :=
  filter (fun c => key_of agg_level c = k) df.

(** One row of the aggregated frame: [groupby(agg_level, as_index=False)]
    returns the grouping columns and the five summed ones, so the frame
    has a coin column only when it was grouped by the coin ([None]
    otherwise). *)
Record bar : Type := Bar {
  coin : option string;
  bkey : list Z;
  b_open : fl;
  b_high : fl;
  b_low : fl;
  b_close : fl;
  b_volume : fl;
  price : fl;
  volume_usd : fl
}.

(** [basic_prep_ohlcv_df]: weight the four prices by volume, sum every
    column within a group (NaN skipped), divide the four sums by the
    summed volume, take the mean of open and close as the price. *)
Definition weight (c : candle) : candle :=
  {| timestamp := timestamp c;
     open := fmul (open c) (volume c);
     high := fmul (high c) (volume c);
     low := fmul (low c) (volume c);
     close := fmul (close c) (volume c);
     volume := volume c |}.

Definition coin_column (coin_name : string) (agg_level : list keycol) : option string :=
  if bool_decide (KCoin ∈ agg_level) then Some coin_name else None.

Definition agg_bar (coin_col : option string) (k : list Z) (g : list candle) : bar :=
  let vol := nansum (map volume g) in
  let o := fdiv (nansum (map open g)) vol in
  let h := fdiv (nansum (map high g)) vol in
  let l := fdiv (nansum (map low g)) vol in
  let c := fdiv (nansum (map close g)) vol in
  let p := nanmean [o; c] in
  {| coin := coin_col; bkey := k;
     b_open := o; b_high := h; b_low := l; b_close := c;
     b_volume := vol; price := p; volume_usd := fmul vol p |}.

Definition basic_prep_ohlcv_df (fetched_ohlcv : list candle) (coin_name : string)
    (agg_level : list keycol) : list bar :=
  let df := map weight fetched_ohlcv in
  map (fun k => agg_bar (coin_column coin_name agg_level) k (group_of agg_level df k))
      (group_keys agg_level df).

(** The prepared frame: the aggregated rows and the derived column
    families, each column stored under its number of hours. *)
Record prepared : Type := Prepared {
  rows : list bar;
  avg_volume_level : list (nat * list fl);
  avg_volume : list (nat * list fl);
  volatility_volume : list (nat * list fl);
  change : list (nat * list fl);
  future_change : list (nat * list fl)
}.

Definition change_hours : list nat := [1; 3; 6; 12; 18; 24; 48; 72; 168]%nat.
Definition future_hours : list nat := [3; 6; 12; 24; 48; 72; 168]%nat.
Definition volume_hours : list nat := [6; 12; 24; 48; 72; 168; 336]%nat.

Definition change_col (hours : nat) (p : list fl) : list fl :=
  scale (Fin 100) (pct_change (Z.of_nat hours) true p).

Definition future_change_col (hours : nat) (p : list fl) : list fl :=
  scale (Fin 100)
    (pct_change (Z.of_nat hours) false (shift (- Z.of_nat hours) p)).

Definition avg_volume_col (hours : nat) (v : list fl) : list fl :=
  rolling_mean false hours hours v.

Definition volatility_volume_col (hours : nat) (v : list fl) : list fl :=
  zip_with fdiv (rolling_std false hours hours v) (avg_volume_col hours v).

Fixpoint column (hours : nat) (cols : list (nat * list fl)) : option (list fl) :=
  match cols with
  | [] => None
  | (h, c) :: cols' => if Nat.eqb h hours then Some c else column hours cols'
  end.

(** The columns selected at the end; a frame grouped without one of them
    has no such column and the selection raises. *)
Definition selected : list keycol := [KCoin; KTimestamp; KWeekday; KDay; KHour].

Definition prep_ohlcv_df (fetched_ohlcv : list candle) (coin_name : string)
    (agg_level : list keycol) : option prepared :=
  let df := basic_prep_ohlcv_df fetched_ohlcv coin_name agg_level in
  let p := map price df in
  let v := map b_volume df in
  let avg := map (fun h => (h, avg_volume_col h v)) volume_hours in
  let level (h : nat) :=
    (h, zip_with fdiv (default [] (column h avg)) (default [] (column 336%nat avg))) in
  if forallb (fun k => bool_decide (k ∈ agg_level)) selected then
    Some {| rows := df;
            avg_volume_level := map level [6; 12; 24]%nat;
            avg_volume := avg;
            volatility_volume := map (fun h => (h, volatility_volume_col h v)) volume_hours;
            change := map (fun h => (h, change_col h p)) change_hours;
            future_change := map (fun h => (h, future_change_col h p)) future_hours |}
  else None.

(** [fetch_all_ohlcv]: page through the exchange from the first retrieval
    date until now.  [fetch_ohlcv since] stands for the call to the
    exchange for the symbol; an empty page moves [since] on by [limit]
    hours, a page that is not empty moves it just past its last candle.
    The loop has no bound of its own: [fuel] counts its iterations, and
    [None] means they ran out. *)
Definition last_timestamp (ohlcv : list candle) : Z :=
  default 0 (timestamp <$> last ohlcv).

Fixpoint fetch_loop (fuel : nat) (fetch_ohlcv : Z -> list candle) (limit now since : Z)
    (all_ohlcv : list candle) : option (list candle) :=
  match fuel with
  | O => None
  | S fuel' =>
      if since <? now then
        match fetch_ohlcv since with
        | [] => fetch_loop fuel' fetch_ohlcv limit now
                  (since + limit * 60 * 60 * 1000) all_ohlcv
        | ohlcv => fetch_loop fuel' fetch_ohlcv limit now
                     (last_timestamp ohlcv + 1) (all_ohlcv ++ ohlcv)
        end
      else Some all_ohlcv
  end.

Definition fetch_all_ohlcv (fuel : nat) (fetch_ohlcv : Z -> list candle)
    (limit now first_retrieval_date : Z) : option (list candle) :=
  fetch_loop fuel fetch_ohlcv limit now first_retrieval_date [].

(** [pd.concat] of two prepared frames: rows and columns are appended. *)
Definition concat_columns (a b : list (nat * list fl)) : list (nat * list fl) :=
  zip_with (fun x y => (fst x, snd x ++ snd y)) a b.

Definition concat_prepared (a b : prepared) : prepared :=
  {| rows := rows a ++ rows b;
     avg_volume_level := concat_columns (avg_volume_level a) (avg_volume_level b);
     avg_volume := concat_columns (avg_volume a) (avg_volume b);
     volatility_volume := concat_columns (volatility_volume a) (volatility_volume b);
     change := concat_columns (change a) (change b);
     future_change := concat_columns (future_change a) (future_change b) |}.

(** The frame built so far by [fetch_prepare_crypto_prices]: prepared
    frames or aggregated bars, by the [prepare] flag. *)
Inductive price_frame : Type :=
  | Prep (df : prepared)
  | Basic (df : list bar).

Definition concat_frame (a b : price_frame) : price_frame :=
  match a, b with
  | Prep x, Prep y => Prep (concat_prepared x y)
  | Basic x, Basic y => Basic (x ++ y)
  | _, _ => b
  end.

(** One symbol: fetch, prepare, concatenate; any exception is caught and
    the frame stays as it was.  [fetch sym] is the outcome of
    [fetch_all_ohlcv] for the symbol, [None] when it raised.  The frame
    starts as [pd.DataFrame()], without columns, here [None]. *)
Definition add_symbol (fetch : string -> option (list candle)) (agg_level : list keycol)
    (prepare : bool) (df_prep : option price_frame) (sym : string) : option price_frame :=
  match fetch sym with
  | None => df_prep
  | Some ohlcv_sym =>
      let df_sym :=
        if prepare then Prep <$> prep_ohlcv_df ohlcv_sym sym agg_level
        else Some (Basic (basic_prep_ohlcv_df ohlcv_sym sym agg_level)) in
      match df_sym, df_prep with
      | None, _ => df_prep
      | Some d, None => Some d
      | Some d, Some acc => Some (concat_frame acc d)
      end
  end.

(** [fetch_prepare_crypto_prices]: after the loop the day column is
    converted, which raises when the frame has no such column. *)
Definition fetch_prepare_crypto_prices (fetch : string -> option (list candle))
    (symbols : list string) (agg_level : list keycol) (prepare : bool)
    : option price_frame :=
  df_prep ← foldl (add_symbol fetch agg_level prepare) None symbols;
  if bool_decide (KDay ∈ agg_level) then Some df_prep else None.

End Prices.

(** ** Grouped transforms *)

Module Grouped.
Import Float Series.

Section Transform.
Context {A : Type} (same : A -> A -> bool).

(** The rows of the group of [r], in frame order. *)
Definition members (r : A) (df : list A) : list A :=
  filter (fun x => same r x = true) df.

(** The position of row [j] of the frame within its own group. *)
Definition position (j : nat) (r : A) (df : list A) : nat :=
  length (members r (take j df)).

(** [df.groupby(g)[col].transform(f)]: [f] is applied to the column
    restricted to each group, and every row receives the result at its
    position in its group. *)
Definition transform (col : A -> fl) (f : list fl -> list fl) (df : list A) : list fl :=
  imap (fun j r => cell (f (map col (members r df))) (position j r df)) df.
End Transform.

(** [drop_duplicates]: the first of several equal rows is kept. *)
Fixpoint drop_duplicates {A} `{EqDecision A} (l : list A) : list A :=
  match l with
  | [] => []
  | x :: l' => x :: filter (fun y => y ≠ x) (drop_duplicates l')
  end.

(** [unique()]: the distinct values in order of first appearance. *)
Definition unique {A} `{EqDecision A} (l : list A) : list A := drop_duplicates l.

End Grouped.

(** ** News loading: [a2_load_crypto_news.py] *)

Module News.
Import Float Series.

(** A scraped article.  Days are day numbers (the ISO date strings of the
    code, which order and enumerate the same way); an unparseable date is
    reported with hour -1. *)
Record article : Type := Article {
  a_coin : string;
  a_day : Z;
  a_hour : Z;
  title : string;
  abstract : string
}.

Import Grouped.

Global Instance article_eq_dec : EqDecision article.
Proof. solve_decision. Defined.

(** A row of the hourly frame: the key, the two aggregates and the
    rolling columns added so far, by name. *)
Record news_row : Type := NewsRow {
  coin : string;
  published_day : Z;
  published_hour : Z;
  news_count : fl;
  news_sentiment : fl;
  rolled : gmap string fl
}.

Definition key : Type := string * Z * Z.

Definition article_key (a : article) : key := (a_coin a, a_day a, a_hour a).
Definition row_key (r : news_row) : key := (coin r, published_day r, published_hour r).

Definition key_leb (a b : key) : bool :=
  let '(c1, d1, h1) := a in
  let '(c2, d2, h2) := b in
  match String.compare c1 c2 with
  | Lt => true
  | Gt => false
  | Eq => (d1 <? d2) || ((d1 =? d2) && (h1 <=? h2))
  end.

Definition fillna0 (x : fl) : fl := if isnan x then Fin 0 else x.

Section Scored.
(** The polarity the external text model gives to a cleaned abstract. *)
Variable polarity : string -> fl.

(** Sorted groupby on (coin, day, hour) with count and sum of the
    abstract sentiment, then the two [fillna(0)]. *)
Definition aggregate (df : list article) : list news_row :=
  map (fun k =>
         let s := map (fun a => polarity (abstract a))
                      (filter (fun a => article_key a = k) df) in
         {| coin := k.1.1; published_day := k.1.2; published_hour := k.2;
            news_count := fillna0 (of_nat (length (dropna s)));
            news_sentiment := fillna0 (nansum s);
            rolled := ∅ |})
      (Sorting.sort key_leb (unique (map article_key df))).

Definition Zmin_list (d : Z) (l : list Z) : Z := foldr Z.min d l.
Definition Zmax_list (d : Z) (l : list Z) : Z := foldr Z.max d l.

(** [pd.date_range(start, end, freq='D')]: every day from [a] to [b]. *)
Definition date_range (a b : Z) : list Z :=
  map (fun i => a + Z.of_nat i) (seq 0 (Z.to_nat (b - a + 1))).

Definition hours : list Z := map Z.of_nat (seq 0 24).

(** The left merge of one grid cell: the rows of [df] with its key, or
    one row of nulls when there is none. *)
Definition merge_cell (df : list news_row) (k : key) : list news_row :=
  match filter (fun r => row_key r = k) df with
  | [] => [ {| coin := k.1.1; published_day := k.1.2; published_hour := k.2;
               news_count := NaN; news_sentiment := NaN; rolled := ∅ |} ]
  | ms => ms
  end.

(** [enlarge_dataframe]: the full grid coin x day x hour, left-merged
    with the frame.  On an empty frame the date range has no bounds and
    the call raises. *)
Definition enlarge_dataframe (df : list news_row) : option (list news_row) :=
  match map published_day df with
  | [] => None
  | d :: ds =>
      let min_date := Zmin_list d ds in
      let max_date := Zmax_list d ds in
      let grid :=
        c ← unique (map coin df);
        d ← date_range min_date max_date;
        h ← hours;
        [(c, d, h)] in
      Some (grid ≫= merge_cell df)
  end.

Definition same_coin (r1 r2 : news_row) : bool := bool_decide (coin r1 = coin r2).

Definition add_rolled (name : string) (col : list fl) (df : list news_row) : list news_row :=
  zip_with (fun r v =>
              {| coin := coin r; published_day := published_day r;
                 published_hour := published_hour r;
                 news_count := news_count r; news_sentiment := news_sentiment r;
                 rolled := <[name := v]> (rolled r) |}) df col.

(** [rolling_count_sum]: sort by (coin, day, hour), then per coin the
    backward rolling sums of count and sentiment, one observation being
    enough. *)
Definition rolling_count_sum (df : list news_row) (window_range : nat) : list news_row :=
  let df := Sorting.sort (fun a b => key_leb (row_key a) (row_key b)) df in
  let name_count := "news_count_" +:+ pretty window_range in
  let name_sent := "news_sentiment_" +:+ pretty window_range in
  let df := add_rolled name_count
              (Grouped.transform same_coin news_count
                 (rolling_sum false window_range 1) df) df in
  add_rolled name_sent
    (Grouped.transform same_coin news_sentiment
       (rolling_sum false window_range 1) df) df.

(** [prepare_crypto_news], from the fetched articles on. *)
Definition prepare_crypto_news (all_news : list article) : option (list news_row) :=
  let df := filter (fun a => -1 < a_hour a) all_news in
  let df := drop_duplicates df in
  let df_all_news_sent := aggregate df in
  df_grid_news ← enlarge_dataframe df_all_news_sent;
  let df_grid_news := rolling_count_sum df_grid_news 3 in
  let df_grid_news := rolling_count_sum df_grid_news 6 in
  let df_grid_news := rolling_count_sum df_grid_news 12 in
  let df_grid_news := rolling_count_sum df_grid_news 24 in
  Some df_grid_news.
End Scored.

(** [print_news]: four fields of every article are printed, one per line
    and then an empty line; a field the article does not have raises.
    An article is the dictionary [fetch_news] builds, shown with the text
    of each value. *)
Definition printed_fields : list (string * string) :=
  [("Title: ", "title"); ("Link: ", "link"); ("Abstract: ", "abstract");
   ("Published Day: ", "published_day"); ("Published Hour: ", "published_hour")].

Definition fetched_keys : list string :=
  ["coin"; "published_day"; "published_hour"; "title"; "abstract"].

(** The lines printed so far and, when a key was missing, that key. *)
Fixpoint print_fields (article : gmap string string) (fields : list (string * string))
    : list string * option string :=
  match fields with
  | [] => ([String "010"%char EmptyString], None)
  | (label, k) :: fields' =>
      match article !! k with
      | None => ([], Some k)
      | Some v =>
          let '(out, err) := print_fields article fields' in
          ((label +:+ v) :: out, err)
      end
  end.

Fixpoint print_news (news : list (gmap string string)) : list string * option string :=
  match news with
  | [] => ([], None)
  | article :: news' =>
      match print_fields article printed_fields with
      | (out, Some k) => (out, Some k)
      | (out, None) =>
          let '(out', err) := print_news news' in
          (out ++ out', err)
      end
  end.

End News.

(** ** Feature engineering: [a3_data_engineering.py] *)

Module Engineering.
Import Float Series.

(** A row of the feature table: the grouping and ordering columns, and
    the numeric columns by name.  [col_group] and [col_sort] are taken at
    their defaults, the coin and the timestamp. *)
Record row : Type := Row {
  coin : string;
  timestamp : Z;
  day : Z;
  cells : gmap string fl
}.

Global Instance row_eq_dec : EqDecision row.
Proof. solve_decision. Defined.

Definition with_cells (f : gmap string fl -> gmap string fl) (r : row) : row :=
  {| coin := coin r; timestamp := timestamp r; day := day r; cells := f (cells r) |}.

Definition get (c : string) (r : row) : fl := default NaN (cells r !! c).

(** [df[c]]: the column, or a KeyError (here [None]) when a row lacks it. *)
Definition column (c : string) (df : list row) : option (list fl) :=
  mapM (fun r => cells r !! c) df.

(** [df[c] = values] and [df.drop(columns=cs)]. *)
Definition set_col (c : string) (values : list fl) (df : list row) : list row :=
  zip_with (fun r v => with_cells (insert c v) r) df values.

Definition drop_cols (cs : list string) (df : list row) : list row :=
  map (with_cells (fun m => foldr delete m cs)) df.

Definition sort_values (df : list row) : list row :=
  Sorting.sort (fun a b => timestamp a <=? timestamp b) df.

Definition same_coin (r1 r2 : row) : bool := bool_decide (coin r1 = coin r2).

(** [df.groupby('coin')[c].transform(lambda d: f(d))]. *)
Definition grouped (c : string) (f : list fl -> list fl) (df : list row) : option (list fl) :=
  _ ← column c df;
  Some (Grouped.transform same_coin (get c) f df).

(** [weighted_average]: the volume-weighted rolling mean of a price
    column, through three scratch columns that are dropped at the end.
    A window of no period is refused by [rolling] since one observation
    is asked for. *)
Definition scratch : list string := ["weighted_price"; "nominator"; "denominator"].

Definition weighted_average (df : list row) (col_price colname_new : string)
    (window_length : nat) : option (list row) :=
  p ← column col_price df;
  v ← column "volume" df;
  let df := set_col "weighted_price" (zip_with fmul p v) df in
  let colname_new := colname_new +:+ pretty window_length in
  let df := sort_values df in
  _ ← guard (1 <= window_length)%nat;
  nom ← grouped "weighted_price" (rolling_sum false window_length 1) df;
  let df := set_col "nominator" nom df in
  den ← grouped "volume" (rolling_sum false window_length 1) df;
  let df := set_col "denominator" den df in
  a ← column "nominator" df;
  b ← column "denominator" df;
  let df := set_col colname_new (zip_with fdiv a b) df in
  Some (drop_cols scratch df).

(** [1 * (x[0] == x[1])] *)
Definition flag (x0 x1 : fl) : fl := if feqb x0 x1 then Fin 1 else Fin 0.

(** [define_local_min_max]: the maximum is taken over [col_price], the
    minimum over the column named avg_price_5, and both are compared with
    [col_price]. *)
Definition define_local_min_max (df : list row) (col_price : string)
    (period_window_min_max : nat) (suffix : string) : option (list row) :=
  let w := period_window_min_max in
  let col_max := "local_max" +:+ suffix in
  let col_min := "local_min" +:+ suffix in
  let df := sort_values df in
  m ← grouped col_price (rolling_max true w w) df;
  let df := set_col col_max m df in
  x0 ← column col_price df;
  x1 ← column col_max df;
  let df := set_col col_max (zip_with flag x0 x1) df in
  m ← grouped "avg_price_5" (rolling_min true w w) df;
  let df := set_col col_min m df in
  x0 ← column col_price df;
  x1 ← column col_min df;
  Some (set_col col_min (zip_with flag x0 x1) df).

(** [define_local_min_max2]: the maximum over the high column, the
    minimum over the low column. *)
Definition define_local_min_max2 (df : list row) (col_price_min col_price_max : string)
    (period_window_min_max : nat) (suffix : string) : option (list row) :=
  let w := period_window_min_max in
  let col_max := "local_max" +:+ suffix in
  let col_min := "local_min" +:+ suffix in
  let df := sort_values df in
  m ← grouped col_price_max (rolling_max true w w) df;
  let df := set_col col_max m df in
  x0 ← column col_price_max df;
  x1 ← column col_max df;
  let df := set_col col_max (zip_with flag x0 x1) df in
  m ← grouped col_price_min (rolling_min true w w) df;
  let df := set_col col_min m df in
  x0 ← column col_price_min df;
  x1 ← column col_min df;
  Some (set_col col_min (zip_with flag x0 x1) df).

(** One row of [df_cluster]. *)
Record cluster_row : Type := ClusterRow {
  c_day : Z;
  c_coin : string;
  level : nat;
  price_level : fl;
  counter_level : nat
}.

Global Instance cluster_row_eq_dec : EqDecision cluster_row.
Proof. solve_decision. Defined.

(** Ascending order of [sort_values] on a float column: NaN goes last. *)
Definition price_leb (a b : fl) : bool :=
  if isnan b then true else if isnan a then false else fleb a b.

(** The scan over adjacent rows of the price-sorted extrema: row [i + 1]
    takes the cluster of row [i] when the relative gap is within the
    threshold.  The updates are made in place, so a merge made at [i]
    is seen at [i + 1]. *)
Definition close_enough (thres v_i v_i2 : fl) : bool :=
  fleb (fdiv (fabs (fsub v_i v_i2)) v_i) thres.

Definition scan_step (thres : fl) (prices : list fl) (lv : list nat) (i : nat) : list nat :=
  if close_enough thres (cell prices i) (cell prices (S i))
  then <[S i := default 0%nat (lv !! i)]> lv
  else lv.

Definition cluster_ids (thres : fl) (prices : list fl) : list nat :=
  foldl (scan_step thres prices) (seq 1 (length prices)) (seq 0 (length prices - 1)).

(** [Series.median()] and [Series.count()] on the observations that are
    not NaN. *)
Definition median (v : list fl) : fl :=
  let s := Sorting.sort price_leb (dropna v) in
  let n := length s in
  if Nat.eqb n 0 then NaN
  else if Nat.odd n then cell s (n / 2)
  else fdiv (fadd (cell s (n / 2 - 1)) (cell s (n / 2))) (Fin 2).

Definition count (v : list fl) : nat := length (dropna v).

Definition cluster_group (col_price : string) (thres : fl) (df_locals : list row)
    (g : string) : list cluster_row :=
  let df_g := Sorting.sort (fun a b => price_leb (get col_price a) (get col_price b))
                (filter (fun r => coin r = g) df_locals) in
  let prices := map (get col_price) df_g in
  let ids := cluster_ids thres prices in
  let of_cluster (id : nat) : list fl :=
    omap (fun x => if Nat.eqb (fst x) id then Some (snd x) else None) (zip ids prices) in
  zip_with (fun r id =>
              {| c_day := day r; c_coin := coin r; level := id;
                 price_level := median (of_cluster id);
                 counter_level := count (of_cluster id) |}) df_g ids.

(** The left merge on (day, coin): one output row per matching cluster
    row, or the row alone when nothing matches. *)
Definition merge_row (df_cluster : list cluster_row) (r : row) : list (row * option cluster_row) :=
  match filter (fun c => c_day c = day r ∧ c_coin c = coin r) df_cluster with
  | [] => [(r, None)]
  | ms => map (fun c => (r, Some c)) ms
  end.

(** [aggregate_support_levels].  With no flagged row at all the cluster
    frame stays without columns and the merge raises. *)
Definition aggregate_support_levels (df : list row) (col_min col_max col_price : string)
    (thres : fl) : option (list (row * option cluster_row)) :=
  _ ← column col_min df;
  _ ← column col_max df;
  _ ← column col_price df;
  let df_locals :=
    filter (fun r => feqb (get col_min r) (Fin 1) || feqb (get col_max r) (Fin 1) = true) df in
  let df_cluster := Grouped.unique (map coin df_locals) ≫= cluster_group col_price thres df_locals in
  _ ← guard (df_locals ≠ []);
  Some (df ≫= merge_row df_cluster).

(** [calculate_momentum]: three fractional changes in scratch columns,
    their row-wise sum (NaN skipped), scratch columns dropped. *)
Definition frac (x0 x1 : fl) : fl := fdiv (fsub x0 x1) x1.

Definition cols_momentum : list string := ["momentum_1_2"; "momentum_2_3"; "momentum_3_4"].

Definition pairwise (c0 c1 : string) (df : list row) : option (list fl) :=
  x0 ← column c0 df;
  x1 ← column c1 df;
  Some (zip_with frac x0 x1).

Definition row_sum (cs : list string) (r : row) : option fl :=
  nansum <$> mapM (fun c => cells r !! c) cs.

Definition calculate_momentum (df : list row)
    (col_new col_price1 col_price2 col_price3 col_price4 : string) : option (list row) :=
  m ← pairwise col_price1 col_price2 df;
  let df := set_col "momentum_1_2" m df in
  m ← pairwise col_price2 col_price3 df;
  let df := set_col "momentum_2_3" m df in
  m ← pairwise col_price3 col_price4 df;
  let df := set_col "momentum_3_4" m df in
  s ← mapM (row_sum cols_momentum) df;
  let df := set_col col_new s df in
  Some (drop_cols cols_momentum df).

(** [calculate_relative_price_to_btc]: the prices of the rows of the coin
    BTC/USD, by day, are left-merged on the day; the relative price is the
    quotient of the two prices.  A frame has a column when its rows have
    it: without the price column the selection raises, and with a
    price_btc column already there the merge renames both and the
    division finds no price_btc. *)
Definition merge_btc (df_price_btc : list (Z * fl)) (r : row) : list row :=
  match filter (fun d => fst d = day r) df_price_btc with
  | [] => [with_cells (insert "price_btc" NaN) r]
  | ms => map (fun d => with_cells (insert "price_btc" (snd d)) r) ms
  end.

Definition calculate_relative_price_to_btc (df : list row) : option (list row) :=
  _ ← column "price" df;
  let df_price_btc :=
    map (fun r => (day r, get "price" r)) (filter (fun r => coin r = "BTC/USD") df) in
  _ ← guard (Forall (fun r => cells r !! "price_btc" = None) df);
  let df := df ≫= merge_btc df_price_btc in
  p ← column "price" df;
  b ← column "price_btc" df;
  Some (set_col "price_relative_to_btc" (zip_with fdiv p b) df).

(** [find_level]: among the levels of the coin of the row that are below
    (or above) its price, the first value of the last [n] (or of the first
    [n]) in the order of the level frame.  Whatever fails inside the [try]
    (a missing column, no level left) is caught and the row's own value
    is returned; that lookup is outside the [try] and can raise.  Another
    direction falls through and returns None. *)
Inductive level_result : Type :=
  | Found (x : fl)
  | ReturnsNone
  | RaisesKeyError.

Definition tail (n : nat) (l : list row) : list row := drop (length l - n) l.

Definition select_level (keep : fl -> fl -> bool) (pick : list row -> list row)
    (r : row) (df_levels : list row) (col_find : string) : option fl :=
  _ ← column "price_level" df_levels;
  price ← cells r !! "price";
  let sel :=
    filter (fun l => keep (get "price_level" l) price && bool_decide (coin l = coin r) = true)
      df_levels in
  values ← column col_find (pick sel);
  head values.

Definition row_value (r : row) (col_find : string) : level_result :=
  match cells r !! col_find with
  | Some x => Found x
  | None => RaisesKeyError
  end.

Definition find_level (r : row) (df_levels : list row) (direction : string) (n : nat)
    (col_find : string) : level_result :=
  if decide (direction = "below") then
    match select_level fleb (tail n) r df_levels col_find with
    | Some x => Found x
    | None => row_value r col_find
    end
  else if decide (direction = "above") then
    match select_level (fun l p => fleb p l) (take n) r df_levels col_find with
    | Some x => Found x
    | None => row_value r col_find
    end
  else ReturnsNone.

End Engineering.

(** * Specification-side definitions and sample inputs *)

(** ** Numeric cells *)

Module FloatSpec.
Import Float.

(** A finite cell in lowest terms; every result of an operation is. *)
Definition canonical (x : fl) : Prop :=
  match x with
  | Fin q => Qred q = q
  | _ => True
  end.

(** NaN treated as 0. *)
Definition nan0 (x : fl) : fl := if isnan x then Fin 0 else x.

(** The sum of a list of rationals. *)
Definition Qsum (l : list Q) : Q := foldr Qplus 0%Q l.

End FloatSpec.

(** ** Sample frames for the feature functions *)

Module MomentumSpec.
Import Float Series Engineering FloatSpec.

Definition momentum_frame : list row :=
  [ Row "BTC/USD" 0 0
      (<["p1" := Fin 100]> (<["p2" := Fin 90]> (<["p3" := Fin 95]> (<["p4" := Fin 100]> ∅))));
    Row "BTC/USD" 1 0
      (<["p1" := Fin 100]> (<["p2" := Fin 0]> (<["p3" := Fin 0]> (<["p4" := NaN]> ∅)))) ].

End MomentumSpec.

Module ExtremaSpec.
Import Float Series Engineering FloatSpec.

(** An hourly row of one coin with a price and the smoothed column
    avg_price_5. *)
Definition priced (t : Z) (p a : Q) : row :=
  Row "BTC/USD" t 0 (<["price" := Fin p]> (<["avg_price_5" := Fin a]> ∅)).

(** A dip of the price in the middle row. *)
Definition dip : list row := [priced 0 2 7; priced 1 1 7; priced 2 3 7].

End ExtremaSpec.

Module LevelSpec.
Import Float Series Engineering FloatSpec.

Definition thres : fl := Fin (25 # 1000).

(** A daily row of one coin with its price and its two extremum flags. *)
Definition daily (d : Z) (p : Q) (is_min is_max : Q) : row :=
  Row "BTC/USD" (d * 86400000) d
    (<["price" := Fin p]> (<["local_min" := Fin is_min]> (<["local_max" := Fin is_max]> ∅))).

(** Extrema at 150, 100 and 101, and one row that is no extremum. *)
Definition far_apart : list row :=
  [daily 1 150 0 1; daily 2 120 0 0; daily 3 100 1 0; daily 4 101 1 0].

(** Extrema at 104, 100 and 102. *)
Definition chain : list row :=
  [daily 1 104 0 1; daily 2 100 1 0; daily 3 102 0 1].

Definition levels (out : option (list (row * option cluster_row)))
  : option (list (Z * option nat)) :=
  option_map (map (fun x : row * option cluster_row =>
                     (day (fst x), option_map level (snd x)))) out.

End LevelSpec.

(** ** The left merge of the cluster frame *)

Module JoinSpec.
Import Float Series Engineering FloatSpec.

Definition row_key (r : row) : Z * string := (day r, coin r).
Definition cluster_key (c : cluster_row) : Z * string := (c_day c, c_coin c).

Definition flagged (col_min col_max : string) (r : row) : Prop :=
  feqb (get col_min r) (Fin 1) || feqb (get col_max r) (Fin 1) = true.

Global Instance flagged_dec col_min col_max r : Decision (flagged col_min col_max r).
Proof. unfold flagged. apply _. Defined.

(** The number of flagged rows of the frame on the day and coin of [r]. *)
Definition matches (col_min col_max : string) (df : list row) (r : row) : nat :=
  length (filter (fun x => flagged col_min col_max x /\ row_key x = row_key r) df).

Definition joined : Type := row * option cluster_row.

(** What the left merge makes of one input row that has [k] matches. *)
Definition copies (r : row) (k : nat) (part : list joined) : Prop :=
  Forall (fun x => fst x = r) part /\
  length part = Nat.max 1 k /\
  (k = 0%nat -> part = [(r, None)]) /\
  ((0 < k)%nat -> Forall (fun x => is_Some (snd x)) part).

(** An hourly row of one coin with its price and its two extremum flags. *)
Definition hourly (d h : Z) (p : Q) (is_min is_max : Q) : row :=
  Row "BTC/USD" (d * 86400000 + h * 3600000) d
    (<["price" := Fin p]> (<["local_min" := Fin is_min]> (<["local_max" := Fin is_max]> ∅))).

(** Two extrema of one coin on day 1, and a day 2 without extremum. *)
Definition two_on_a_day : list row :=
  [hourly 1 0 100 1 0; hourly 1 5 110 0 1; hourly 2 0 105 0 0].

Definition occurrences (r : row) (out : list joined) : nat :=
  length (filter (fun x => fst x = r) out).

(** Two days of one coin on which no extremum was flagged. *)
Definition quiet_days : list row := [hourly 1 0 100 0 0; hourly 2 0 105 0 0].

End JoinSpec.

Module EdgeSpec.
Import Float Series Engineering FloatSpec.

Definition candle_row (t : Z) (lo hi : Q) : row :=
  Row "ETH/USD" (t * 3600000) 0 (<["low" := Fin lo]> (<["high" := Fin hi]> ∅)).

Definition five_hours : list row :=
  [candle_row 0 9 10; candle_row 1 8 12; candle_row 2 7 11;
   candle_row 3 8 13; candle_row 4 6 14].

End EdgeSpec.

(** ** Column names *)

Module NameSpec.
Fixpoint last_char (s : string) : option ascii :=
  match s with
  | EmptyString => None
  | String c EmptyString => Some c
  | String _ s' => last_char s'
  end.

Definition is_digit (c : ascii) : bool :=
  bool_decide (c ∈ ["0"; "1"; "2"; "3"; "4"; "5"; "6"; "7"; "8"; "9"]%char).

Definition ends_with_digit (s : string) : Prop :=
  exists c, last_char s = Some c /\ is_digit c = true.

End NameSpec.

(** ** What [weighted_average] keeps *)

Module WeightedSpec.
Import Float Series Engineering FloatSpec EdgeSpec NameSpec.

(** [r'] is [r] except possibly on the columns named in [cs]. *)
Definition same_but (cs : list string) (r r' : row) : Prop :=
  coin r' = coin r /\ timestamp r' = timestamp r /\ day r' = day r /\
  forall c, c ∉ cs -> cells r' !! c = cells r !! c.

(** What [weighted_average] promises about one input row [r] and the
    output row [r'] made from it. *)
Definition row_kept (col_price colname : string) (r r' : row) : Prop :=
  coin r' = coin r /\ timestamp r' = timestamp r /\ day r' = day r /\
  cells r' !! col_price = cells r !! col_price /\
  cells r' !! "volume" = cells r !! "volume" /\
  (forall s, s ∈ scratch -> cells r' !! s = None) /\
  is_Some (cells r' !! colname) /\
  (forall c, is_Some (cells r' !! c) -> c = colname \/ is_Some (cells r !! c)).

(** The output rows are the input rows in timestamp order, each kept. *)
Definition frame_kept (df : list row) (col_price colname : string) (out : list row) : Prop :=
  Forall2 (row_kept col_price colname) (sort_values df) out.

Definition traded (t : Z) (c : string) (p v : Q) : row :=
  Row "BTC/USD" (t * 3600000) 0 (<[c := Fin p]> (<["volume" := Fin v]> ∅)).

(** The price column carries the name the output column is given, or
    the name of a scratch column. *)
Definition overwritten : list row := [traded 0 "price5" 10 1; traded 1 "price5" 20 1].

Definition dropped : list row := [traded 0 "nominator" 10 1; traded 1 "nominator" 20 1].

Definition two_hours : list row := [traded 1 "price" 20 3; traded 0 "price" 10 1].

End WeightedSpec.

(** ** Sample candles *)

Module ChangeSpec.
Import Float Series Prices FloatSpec.

(** Hourly candles of one coin, flat within the hour, one unit traded. *)
Definition hourly_candle (t : Z) (p : Q) : candle :=
  Candle (t * 3600000) (Fin p) (Fin p) (Fin p) (Fin p) (Fin 1).

Definition eight_hours : list candle :=
  [hourly_candle 0 100; hourly_candle 1 101; hourly_candle 2 102; hourly_candle 3 110;
   hourly_candle 4 104; hourly_candle 5 105; hourly_candle 6 121; hourly_candle 7 107].

Definition by_hour : list keycol := [KCoin; KTimestamp; KWeekday; KDay; KHour].

End ChangeSpec.

(** ** Volume-weighted averages of raw candles *)

Module BarSpec.
Import Float Series Prices FloatSpec ChangeSpec.

(** The rational a finite cell holds. *)
Definition qv (x : fl) : Q := match x with Fin q => q | _ => 0%Q end.

Definition finite_candle (c : candle) : Prop :=
  is_fin (open c) && is_fin (high c) && is_fin (low c) && is_fin (close c)
  && is_fin (volume c) = true.

(** Volume-weighted average of a price field over raw candles. *)
Definition total_volume (g : list candle) : Q := Qsum (map (fun c => qv (volume c)) g).

Definition weighted_total (f : candle -> fl) (g : list candle) : Q :=
  Qsum (map (fun c => qv (f c) * qv (volume c))%Q g).

Definition vwap (f : candle -> fl) (g : list candle) : Q :=
  (weighted_total f g / total_volume g)%Q.

(** The raw candles of a bar: those whose grouping columns carry the
    values of the bar's key, column by column. *)
Definition in_bucket (agg_level : list keycol) (k : list Z) (c : candle) : Prop :=
  Forall2 (fun col v => keyval col c = v) agg_level k.

Global Instance in_bucket_dec agg_level k c : Decision (in_bucket agg_level k c).
Proof. unfold in_bucket. apply _. Defined.

Definition bucket (agg_level : list keycol) (fetched : list candle) (k : list Z)
    : list candle :=
  filter (in_bucket agg_level k) fetched.

(** The volume-weighted average of a price field as plain arithmetic has
    it, a missing value making it undefined; and the same over the
    candles that have the field. *)
Definition weighted_mean (f : candle -> fl) (g : list candle) : fl :=
  fdiv (fsum (map (fun c => fmul (f c) (volume c)) g)) (fsum (map volume g)).

Definition having (f : candle -> fl) (g : list candle) : list candle :=
  filter (fun c => isnan (f c) = false) g.

Definition mean2 (x y : fl) : fl := fdiv (fadd x y) (Fin 2).

(** Two candles of day 0 and one of day 1. *)
Definition two_buckets : list candle :=
  [Candle 3600000 (Fin 10) (Fin 13) (Fin 9) (Fin 12) (Fin 1);
   Candle 7200000 (Fin 20) (Fin 23) (Fin 19) (Fin 22) (Fin 3);
   Candle 90000000 (Fin 30) (Fin 31) (Fin 29) (Fin 30) (Fin 2)].

(** Two candles of one day, the first without an open. *)
Definition missing_open : list candle :=
  [Candle 3600000 NaN (Fin 10) (Fin 10) (Fin 10) (Fin 1);
   Candle 7200000 (Fin 20) (Fin 20) (Fin 20) (Fin 20) (Fin 1)].

(** Two candles of the same day. *)
Definition one_day : list candle :=
  [Candle 3600000 (Fin 10) (Fin 13) (Fin 9) (Fin 12) (Fin 1);
   Candle 7200000 (Fin 20) (Fin 23) (Fin 19) (Fin 22) (Fin 3)].

Definition by_day : list keycol := [KCoin; KWeekday; KDay].

End BarSpec.

Module VolumeSpec.
Import Float Series Prices FloatSpec ChangeSpec BarSpec.

(** A finite cell that is not negative. *)
Definition nonneg (x : fl) : Prop := exists q, x = Fin q /\ (0 <= q)%Q.

Definition idle_candle (t : Z) : candle :=
  Candle (t * 3600000) (Fin 100) (Fin 100) (Fin 100) (Fin 100) (Fin 0).

(** Six hours in which nothing was traded. *)
Definition idle_hours : list candle :=
  [idle_candle 0; idle_candle 1; idle_candle 2; idle_candle 3; idle_candle 4; idle_candle 5].

Definition busy_candle (t : Z) (v : Q) : candle :=
  Candle (t * 3600000) (Fin 100) (Fin 100) (Fin 100) (Fin 100) (Fin v).

Definition busy_hours : list candle :=
  [busy_candle 0 1; busy_candle 1 2; busy_candle 2 3; busy_candle 3 4;
   busy_candle 4 5; busy_candle 5 6; busy_candle 6 7].

End VolumeSpec.

(** ** The news grid *)

Module NewsSpec.
Import Float Series News Grouped FloatSpec EdgeSpec.

(** The articles that reach the aggregation. *)
Definition parseable (all_news : list article) : list article :=
  drop_duplicates (filter (fun a => -1 < a_hour a) all_news).

(** The full grid over a list of coins and a range of days. *)
Definition grid (coins : list string) (lo hi : Z) : list key :=
  c ← coins; d ← date_range lo hi; h ← hours; [(c, d, h)].

(** What of a row the rolling sums leave alone. *)
Definition core (r : news_row) : key * fl * fl :=
  (row_key r, news_count r, news_sentiment r).

Definition null_row (k : key) : news_row :=
  {| coin := k.1.1; published_day := k.1.2; published_hour := k.2;
     news_count := NaN; news_sentiment := NaN; rolled := ∅ |}.

Definition first_day (df : list article) (lo : Z) : Prop :=
  (exists a, a ∈ df /\ a_day a = lo) /\ forall a, a ∈ df -> lo <= a_day a.

Definition last_day (df : list article) (hi : Z) : Prop :=
  (exists a, a ∈ df /\ a_day a = hi) /\ forall a, a ∈ df -> a_day a <= hi.

(** Two coins, articles on day 10 and day 12, and one article without
    a parseable date. *)
Definition three_days : list article :=
  [Article "Bitcoin" 10 0 "Bitcoin rallies" "Bitcoin rose again.";
   Article "Ether" 12 5 "Ether upgrade" "The upgrade went live.";
   Article "Ether" (-1) (-1) "No date" "No abstract"].

Definition neutral (text : string) : fl := Fin 0.

Definition three_days_grid : list news_row :=
  default [] (prepare_crypto_news neutral three_days).

(** The cell of hour 1, where no article was published. *)
Definition hour_one : news_row :=
  default (null_row ("", 0, 0)) (three_days_grid !! 1%nat).

End NewsSpec.

(** ** Group keys of the aggregated bars *)

Module KeySpec.
Import Sorting.

(** Strictly below, in the order of the group keys. *)
Definition key_lt (a b : list Z) : Prop := list_Z_leb a b = true /\ a <> b.

End KeySpec.

(** ** Fetching from the exchange *)

Module FetchSpec.
Import Float Series Prices ChangeSpec BarSpec.

(** The bars of a symbol, none when its fetch raised. *)
Definition bars_of (fetch : string -> option (list candle)) (agg_level : list keycol)
    (sym : string) : list bar :=
  match fetch sym with
  | Some ohlcv => basic_prep_ohlcv_df ohlcv sym agg_level
  | None => []
  end.

(** The time of the request that follows the request at [since]: past
    the last candle of its page, or [limit] hours on after an empty page. *)
Definition next_since (fetch_ohlcv : Z -> list candle) (limit since : Z) : Z :=
  match fetch_ohlcv since with
  | [] => since + limit * 60 * 60 * 1000
  | ohlcv => last_timestamp ohlcv + 1
  end.

(** The times of the requests made from [since] on: one at [since] as
    long as it lies before [now], then on from the following time. *)
Inductive requests (fetch_ohlcv : Z -> list candle) (limit now : Z) : Z -> list Z -> Prop :=
  | requests_done since :
      now <= since -> requests fetch_ohlcv limit now since []
  | requests_next since rest :
      since < now ->
      requests fetch_ohlcv limit now (next_since fetch_ohlcv limit since) rest ->
      requests fetch_ohlcv limit now since (since :: rest).

(** An exchange that answers every request with one candle stamped with
    the requested time. *)
Definition tick (since : Z) : list candle :=
  [Candle since (Fin 1) (Fin 1) (Fin 1) (Fin 1) (Fin 1)].

(** An exchange that answers every request with the same old candle. *)
Definition stale (since : Z) : list candle := [hourly_candle 0 100].

(** Fetches that all succeed, all raise, or succeed for BTC/USD only. *)
Definition all_fetched (sym : string) : option (list candle) := Some eight_hours.

Definition none_fetched (sym : string) : option (list candle) := None.

Definition only_btc (sym : string) : option (list candle) :=
  if decide (sym = "BTC/USD") then Some one_day else None.

End FetchSpec.

(** ** The scan over the price-sorted extrema *)

Module ScanSpec.
Import Float Series Engineering.

(** The cluster column after the first [k] steps of the scan. *)
Definition scanned (thres : fl) (prices : list fl) (k : nat) : list nat :=
  foldl (scan_step thres prices) (seq 1 (length prices)) (seq 0 k).

End ScanSpec.

(** ** Local extrema *)

Module PeakSpec.
Import Float Series Engineering.

(** The aggregate of a non-empty window by a binary choice, as
    [fmax_list] and [fmin_list] are written. *)
Definition extremum (sel : fl -> fl -> fl) (l : list fl) : fl :=
  match l with
  | [] => NaN
  | x :: l' => foldl sel x l'
  end.

(** The centered window of [w] rows around row [j] of a frame, within
    the coin of the row, on the column [c]. *)
Definition coin_window (c : string) (w : nat) (df : list row) (j : nat) (r : row) : list fl :=
  window true w (map (get c) (Grouped.members same_coin r df))
    (Grouped.position same_coin j r df).

(** The window is complete, all its cells are finite, and it holds
    nothing above (below) [x]. *)
Definition is_peak (w : nat) (x : fl) (win : list fl) : Prop :=
  (1 <= w)%nat /\ length win = w /\
  Forall (fun y => is_fin y = true) win /\ Forall (fun y => fleb y x = true) win.

Definition is_trough (w : nat) (x : fl) (win : list fl) : Prop :=
  (1 <= w)%nat /\ length win = w /\
  Forall (fun y => is_fin y = true) win /\ Forall (fun y => fleb x y = true) win.

(** Three hours whose middle high is infinite. *)
Definition infinite_high : list row :=
  [Row "ETH/USD" 0 0 (<["low" := Fin 1]> (<["high" := Fin 1]> ∅));
   Row "ETH/USD" 3600000 0 (<["low" := Fin 1]> (<["high" := PInf]> ∅));
   Row "ETH/USD" 7200000 0 (<["low" := Fin 1]> (<["high" := Fin 2]> ∅))].

Definition is_flag (x : option fl) (P : Prop) : Prop :=
  (x = Some (Fin 1) \/ x = Some (Fin 0)) /\ (x = Some (Fin 1) <-> P).

End PeakSpec.

(** ** Prices relative to BTC *)

Module RelativeSpec.
Import Float Series Engineering.

(** The prices of the BTC/USD rows of day [d], in frame order. *)
Definition btc_prices (df : list row) (d : Z) : list fl :=
  map (get "price") (filter (fun r => coin r = "BTC/USD" /\ day r = d) df).

(** What a left merge pairs a row of day [d] with. *)
Definition btc_partners (df : list row) (d : Z) : list fl :=
  match btc_prices df d with
  | [] => [NaN]
  | l => l
  end.

Definition with_btc (r : row) (b : fl) : row :=
  with_cells (insert "price_relative_to_btc" (fdiv (get "price" r) b))
    (with_cells (insert "price_btc" b) r).

Definition quoted (c : string) (d : Z) (p : Q) : row :=
  Row c (d * 86400000) d (<["price" := Fin p]> ∅).

Definition two_days : list row :=
  [quoted "BTC/USD" 1 100; quoted "ETH/USD" 1 5; quoted "ETH/USD" 2 6].

(** An hourly frame: two BTC/USD rows and one ETH/USD row on day 1. *)
Definition hourly_btc : list row :=
  [Row "BTC/USD" 86400000 1 (<["price" := Fin 100]> ∅);
   Row "BTC/USD" 90000000 1 (<["price" := Fin 110]> ∅);
   Row "ETH/USD" 86400000 1 (<["price" := Fin 5]> ∅)].

End RelativeSpec.

(** ** Looking up the next level *)

Module SearchSpec.
Import Float Series Engineering.

(** The side of the price a level is asked on. *)
Definition on_side (direction : string) (level price : fl) : bool :=
  if decide (direction = "below") then fleb level price else fleb price level.

(** A level row that [find_level] may answer with. *)
Definition candidate (r : row) (df_levels : list row) (direction col_find : string)
    (y : fl) : Prop :=
  exists l p, l ∈ df_levels /\ coin l = coin r /\ cells l !! col_find = Some y /\
    cells r !! "price" = Some p /\ on_side direction (get "price_level" l) p = true.

(** The level frame has the column in every row or in none. *)
Definition uniform (c : string) (df : list row) : Prop :=
  Forall (fun l => is_Some (cells l !! c)) df \/ Forall (fun l => cells l !! c = None) df.

Definition level_row (p : Q) : row :=
  Row "BTC/USD" 0 0 (<["price_level" := Fin p]> ∅).

Definition three_levels : list row := [level_row 90; level_row 110; level_row 120].

Definition priced_row (p : Q) : row :=
  Row "BTC/USD" 0 0 (<["price" := Fin p]> (<["price_level" := Fin 0]> ∅)).

End SearchSpec.

(** ** The frame of the momentum score *)

Module ScoreSpec.
Import Float Series Engineering WeightedSpec.

(** What [calculate_momentum] makes of one input row. *)
Definition scored (col_new : string) (r r' : row) : Prop :=
  same_but (col_new :: cols_momentum) r r' /\
  (forall s, s ∈ cols_momentum -> cells r' !! s = None) /\
  (col_new ∉ cols_momentum -> is_Some (cells r' !! col_new)).

Definition has_columns (cs : list string) (r : row) : Prop :=
  Forall (fun c => is_Some (cells r !! c)) cs.

End ScoreSpec.

(** ** Bounds of the weighted average *)

Module AverageSpec.
Import Float Series Engineering.

(** A row with a finite price between [lo] and [hi] and a finite,
    positive volume. *)
Definition quoted_within (col_price : string) (lo hi : Q) (r : row) : Prop :=
  exists p v, cells r !! col_price = Some (Fin p) /\ cells r !! "volume" = Some (Fin v) /\
    (lo <= p)%Q /\ (p <= hi)%Q /\ (0 < v)%Q.

(** The rows a fixed window covers at row [i]. *)
Definition window_rows {A} (center : bool) (w : nat) (l : list A) (i : nat) : list A :=
  take (window_stop center w (length l) i - window_start center w (length l) i)
    (drop (window_start center w (length l) i) l).

Definition has_price_and_volume (col_price : string) (r : row) : Prop :=
  is_Some (cells r !! col_price) /\ is_Some (cells r !! "volume").

End AverageSpec.

(** ** What the feature functions need *)

Module GuardSpec.
Import Float Series Engineering News.

(** The eight rolling columns of the news frame. *)
Definition rolled_names : list string :=
  ["news_count_3"; "news_sentiment_3"; "news_count_6"; "news_sentiment_6";
   "news_count_12"; "news_sentiment_12"; "news_count_24"; "news_sentiment_24"].

Definition has_rolled (names : list string) (r : news_row) : Prop :=
  forall c, is_Some (rolled r !! c) <-> c ∈ names.

(** An article as [fetch_news] builds it. *)
Definition fetched (a : gmap string string) : Prop :=
  forall k, is_Some (a !! k) <-> k ∈ fetched_keys.

Definition fetched_article : gmap string string :=
  <["coin" := "Bitcoin"]> (<["published_day" := "2024-05-01"]>
    (<["published_hour" := "14"]> (<["title" := "Bitcoin rallies"]>
      (<["abstract" := "Bitcoin rose again."]> ∅)))).

End GuardSpec.

(** ** Inputs of the specification's examples *)

Module SampleSpec.
Import Float Series.

(** Five hourly rows with a single spike in the middle. *)
Definition spike : list Engineering.row :=
  map (fun x : Z * Q =>
         Engineering.Row "BTC/USD" (x.1 * 3600000) 0
           (<["high" := Fin x.2]> (<["low" := Fin x.2]> ∅)))
      [(0, 1%Q); (1, 2%Q); (2, 5%Q); (3, 2%Q); (4, 1%Q)].

(** One article in each of the 24 hours of a day. *)
Definition every_hour : list News.article :=
  map (fun h => News.Article "Bitcoin" 10 (Z.of_nat h) (pretty h) "text") (seq 0 24).

End SampleSpec.

(** * Properties *)

(** ** Facts about numeric cells *)

Module FloatFacts.
Import Float FloatSpec.

Lemma fin_canonical q : canonical (fin q).
Proof. apply Qred_involutive. Qed.

Lemma fin_eq p q : (p == q)%Q -> fin p = fin q.
Proof. intros H. unfold fin. f_equal. by apply Qred_complete. Qed.

Lemma fin_Qred q : fin (Qred q) = fin q.
Proof. apply fin_eq, Qred_correct. Qed.

Lemma inf_of_sign_canonical s : canonical (inf_of_sign s).
Proof. by destruct s. Qed.

Lemma fadd_canonical x y : canonical (fadd x y).
Proof. destruct x, y; simpl; auto using Qred_involutive. Qed.

Lemma fneg_canonical x : canonical (fneg x).
Proof. destruct x; simpl; auto using Qred_involutive. Qed.

Lemma fsub_canonical x y : canonical (fsub x y).
Proof. apply fadd_canonical. Qed.

Lemma fmul_canonical x y : canonical (fmul x y).
Proof.
  destruct x, y; simpl; auto using Qred_involutive, inf_of_sign_canonical.
Qed.

Lemma fdiv_canonical x y : canonical (fdiv x y).
Proof.
  destruct x, y; unfold fdiv; repeat case_match;
    first [apply fin_canonical | apply inf_of_sign_canonical | done].
Qed.

Lemma fadd_0_l x : canonical x -> fadd (Fin 0) x = x.
Proof.
  destruct x as [q| | |]; simpl; try done.
  intros Hq. unfold fin. f_equal. rewrite <- Hq at 2.
  apply Qred_complete. ring.
Qed.

Lemma fadd_0_r x : canonical x -> fadd x (Fin 0) = x.
Proof.
  destruct x as [q| | |]; simpl; try done.
  intros Hq. unfold fin. f_equal. rewrite <- Hq at 2.
  apply Qred_complete. ring.
Qed.

Lemma fsum_canonical l : canonical (fsum l).
Proof. destruct l; simpl; [done | apply fadd_canonical]. Qed.

Lemma dropna_cons x l :
  dropna (x :: l) = if isnan x then dropna l else x :: dropna l.
Proof.
  unfold dropna. rewrite filter_cons. by destruct x.
Qed.

Lemma dropna_notnan l : Forall (fun x => isnan x = false) l -> dropna l = l.
Proof.
  induction 1 as [|x l Hx _ IH]; [done|].
  rewrite dropna_cons, Hx. by f_equal.
Qed.

Lemma dropna_length l : (length (dropna l) <= length l)%nat.
Proof. apply length_filter. Qed.

(** Skipping the NaN entries of a sum is the same as counting them as 0. *)
Lemma nansum_nan0 l : nansum l = fsum (map nan0 l).
Proof.
  unfold nansum. induction l as [|x l IH]; [done|].
  rewrite dropna_cons. destruct x; simpl in *; rewrite <- ?IH; try done.
  symmetry. apply fadd_0_l, fsum_canonical.
Qed.

Lemma nansum_all_nan l : Forall (fun x => isnan x = true) l -> nansum l = Fin 0.
Proof.
  unfold nansum. induction 1 as [|x l Hx _ IH]; [done|].
  by rewrite dropna_cons, Hx.
Qed.

Lemma fsum_Fin (l : list Q) : fsum (map Fin l) = fin (Qsum l).
Proof.
  induction l as [|q l IH]; [done|].
  simpl. rewrite IH. simpl. apply fin_eq.
  rewrite (Qred_correct (Qsum l)). reflexivity.
Qed.

Lemma feqb_refl_fin q : feqb (Fin q) (Fin q) = true.
Proof. simpl. apply Qeq_bool_iff. reflexivity. Qed.

End FloatFacts.

(** ** Sorting and grouping *)

Module SortFacts.
Import Sorting.

Section Sort.
Context {A : Type} (leb : A -> A -> bool).

Lemma insert_sorted_perm x l : insert_sorted leb x l ≡ₚ x :: l.
Proof.
  induction l as [|y l IH]; simpl; [done|].
  destruct (leb x y); [done|]. rewrite IH. apply Permutation_swap.
Qed.

Lemma sort_perm l : sort leb l ≡ₚ l.
Proof.
  induction l as [|x l IH]; simpl; [done|].
  rewrite insert_sorted_perm. by constructor.
Qed.

Lemma sort_length l : length (sort leb l) = length l.
Proof. by rewrite sort_perm. Qed.
End Sort.

End SortFacts.

Module GroupFacts.
Import Grouped.

Section Unique.
Context {A : Type} `{EqDecision A}.

Lemma elem_of_drop_duplicates (x : A) l : x ∈ drop_duplicates l <-> x ∈ l.
Proof.
  induction l as [|y l IH]; simpl; [done|].
  rewrite !elem_of_cons, list_elem_of_filter, IH.
  destruct (decide (x = y)); tauto.
Qed.

Lemma NoDup_drop_duplicates (l : list A) : NoDup (drop_duplicates l).
Proof.
  induction l as [|y l IH]; simpl; [constructor|].
  constructor.
  - rewrite list_elem_of_filter. by intros [? _].
  - by apply NoDup_filter.
Qed.

Lemma elem_of_unique (x : A) l : x ∈ unique l <-> x ∈ l.
Proof. apply elem_of_drop_duplicates. Qed.

Lemma NoDup_unique (l : list A) : NoDup (unique l).
Proof. apply NoDup_drop_duplicates. Qed.
End Unique.

(** Splitting a list by a key and concatenating the parts over the
    distinct keys gives the list back, up to order. *)
Section Partition.
Context {A K : Type} `{EqDecision K} (key : A -> K).

Lemma bind_filter_other (ks : list K) (k : K) (l : list A) :
  k ∉ ks ->
  ks ≫= (fun g => filter (fun x => key x = g) (filter (fun x => key x <> k) l))
  = ks ≫= (fun g => filter (fun x => key x = g) l).
Proof.
  induction ks as [|g ks IH]; intros Hk; [done|].
  apply not_elem_of_cons in Hk as [Hg Hk]. rewrite !bind_cons. f_equal; [|by apply IH].
  rewrite list_filter_filter. apply list_filter_iff.
  intros x. split; [by intros [? _]|]. intros ->. split; [done|]. congruence.
Qed.

Lemma partition_perm (ks : list K) (l : list A) :
  NoDup ks -> (forall x, x ∈ l -> key x ∈ ks) ->
  ks ≫= (fun k => filter (fun x => key x = k) l) ≡ₚ l.
Proof.
  revert l. induction ks as [|k ks IH]; intros l Hnd Hin.
  - destruct l as [|x l]; [done|].
    exfalso. eapply not_elem_of_nil, (Hin x). by left.
  - apply NoDup_cons in Hnd as [Hk Hnd]. rewrite bind_cons.
    etrans; [|apply (filter_app_complement (fun x => key x = k) l)].
    apply Permutation_app; [done|].
    rewrite <- (bind_filter_other ks k l Hk).
    apply IH; [done|].
    intros x. rewrite list_elem_of_filter. intros [Hne Hx].
    specialize (Hin x Hx). apply elem_of_cons in Hin as [?|?]; done.
Qed.
End Partition.

Lemma bind_perm_ext {A B} (f g : A -> list B) (l : list A) :
  (forall x, f x ≡ₚ g x) -> l ≫= f ≡ₚ l ≫= g.
Proof.
  intros H. induction l as [|x l IH]; [done|].
  rewrite !bind_cons. by apply Permutation_app.
Qed.

Lemma fmap_bind_list {A B C} (h : B -> C) (f : A -> list B) (l : list A) :
  h <$> (l ≫= f) = l ≫= (fun x => h <$> f x).
Proof.
  induction l as [|x l IH]; [done|].
  by rewrite !bind_cons, fmap_app, IH.
Qed.

Lemma fmap_zip_with_l {A B C D} (h : C -> D) (f : A -> B -> C) (g : A -> D)
    (l : list A) (k : list B) :
  (forall a b, h (f a b) = g a) -> length l = length k ->
  h <$> zip_with f l k = g <$> l.
Proof.
  intros Hf. revert k. induction l as [|a l IH]; intros [|b k] Hlen; simplify_eq/=; [done|].
  f_equal; auto.
Qed.

Lemma filter_fmap_length {A B} (h : A -> B) (P : B -> Prop) `{forall b, Decision (P b)}
    (l : list A) :
  length (filter P (h <$> l)) = length (filter (fun a => P (h a)) l).
Proof.
  induction l as [|a l IH]; [done|].
  rewrite fmap_cons, !filter_cons. case_decide; simpl; by rewrite IH.
Qed.

Lemma bind_concat {A B} (f : A -> list B) (l : list A) : l ≫= f = concat (f <$> l).
Proof.
  induction l as [|x l IH]; [done|].
  by rewrite bind_cons, fmap_cons, concat_cons, IH.
Qed.

End GroupFacts.

(** ** Rolling windows *)

Module RollingFacts.
Import Float Series FloatFacts FloatSpec.

Lemma cell_lookup (l : list fl) i x : l !! i = Some x -> cell l i = x.
Proof. unfold cell. by intros ->. Qed.

Lemma cell_outside (l : list fl) i : (length l <= i)%nat -> cell l i = NaN.
Proof. intros H. unfold cell. by rewrite lookup_ge_None_2. Qed.

Lemma cell_fmap {A} (f : A -> fl) (l : list A) i x :
  l !! i = Some x -> cell (f <$> l) i = f x.
Proof. intros H. unfold cell. by rewrite list_lookup_fmap, H. Qed.

Lemma rolling_length center w minp agg l :
  length (rolling center w minp agg l) = length l.
Proof. unfold rolling. by rewrite length_map, length_seq. Qed.

Lemma observations_length l : (length (observations l) <= length l)%nat.
Proof.
  unfold observations. pose proof (dropna_length (map inf_to_nan l)) as H.
  by rewrite length_map in H.
Qed.

Lemma observations_finite l :
  Forall (fun x => is_fin x = true) l -> observations l = l.
Proof.
  intros H. unfold observations.
  assert (map inf_to_nan l = l) as ->.
  { induction H as [|x l Hx _ IH]; [done|]. simpl. rewrite IH. by destruct x. }
  apply dropna_notnan. eapply Forall_impl; [exact H|]. by intros [].
Qed.

(** Where every cell of the window is an observation, every cell is
    finite. *)
Lemma observations_full l :
  length (observations l) = length l -> Forall (fun x => is_fin x = true) l.
Proof.
  unfold observations. induction l as [|x l IH]; [constructor|].
  simpl. rewrite dropna_cons. pose proof (dropna_length (map inf_to_nan l)) as Hl.
  rewrite length_map in Hl.
  destruct x; simpl; intros H; try lia; constructor; try done; apply IH; lia.
Qed.

Lemma rolling_cell center w minp agg l i :
  (i < length l)%nat ->
  cell (rolling center w minp agg l) i =
    let v := observations (window center w l i) in
    if Nat.ltb (length v) minp then NaN else agg v.
Proof.
  intros Hi. unfold rolling.
  change (map ?f ?l) with (f <$> l).
  erewrite cell_fmap; [done|]. by apply lookup_seq_lt.
Qed.

Lemma window_stop_le center w n i : (window_stop center w n i <= n)%nat.
Proof. unfold window_stop, clip. lia. Qed.

Lemma window_length center w l i :
  length (window center w l i) =
    (window_stop center w (length l) i - window_start center w (length l) i)%nat.
Proof.
  unfold window. rewrite length_take, length_drop.
  pose proof (window_stop_le center w (length l) i). lia.
Qed.

Lemma centered_offset w : (1 <= w)%nat ->
  window_offset true w = Z.of_nat ((w - 1) / 2).
Proof.
  intros Hw. unfold window_offset. cbn [orb].
  rewrite Nat2Z.inj_div, Nat2Z.inj_sub by done. done.
Qed.

(** A centered window is short of periods before row [(w - 1) / 2] and in
    the last [(w - 1) / 2] rows. *)
Lemma centered_window_short w (l : list fl) i :
  (i < length l)%nat ->
  (i < (w - 1) / 2 \/ length l - (w - 1) / 2 <= i)%nat ->
  (length (window true w l i) < w)%nat.
Proof.
  intros Hi Hedge. rewrite window_length.
  assert (1 <= w)%nat as Hw.
  { destruct w; [|lia]. simpl in Hedge. lia. }
  unfold window_start, window_stop, clip. rewrite centered_offset by done.
  set (o := ((w - 1) / 2)%nat) in *.
  assert (2 * o <= w - 1)%nat by (subst o; apply Nat.Div0.mul_div_le).
  lia.
Qed.

Lemma centered_edge_nan w agg (l : list fl) i :
  (i < (w - 1) / 2 \/ length l - (w - 1) / 2 <= i)%nat ->
  cell (rolling true w w agg l) i = NaN.
Proof.
  intros Hedge. destruct (decide (i < length l)%nat) as [Hi|Hi].
  - rewrite rolling_cell by done. simpl.
    pose proof (centered_window_short w l i Hi Hedge).
    pose proof (observations_length (window true w l i)).
    destruct (Nat.ltb_spec (length (observations (window true w l i))) w); [done|lia].
  - apply cell_outside. rewrite rolling_length. lia.
Qed.

End RollingFacts.

(** ** Facts about frames *)

Module FrameFacts.
Import Float Series Engineering FloatFacts FloatSpec.

Lemma column_length c df l : column c df = Some l -> length l = length df.
Proof. intros H. symmetry. by eapply length_mapM. Qed.

Lemma column_lookup c df l i r :
  column c df = Some l -> df !! i = Some r ->
  cells r !! c = Some (get c r) /\ l !! i = Some (get c r).
Proof.
  unfold column. rewrite mapM_Some. intros HF Hr.
  destruct (Forall2_lookup_l _ _ _ _ _ HF Hr) as (x & Hx & Hc).
  unfold get. rewrite Hc. done.
Qed.

Lemma column_is_Some c df :
  Forall (fun r => is_Some (cells r !! c)) df -> column c df = Some (map (get c) df).
Proof.
  intros H. unfold column. apply mapM_Some.
  induction H as [|r df [x Hx] _ IH]; constructor; [|done].
  unfold get. by rewrite Hx.
Qed.

Lemma set_col_length c v df : length v = length df -> length (set_col c v df) = length df.
Proof. intros H. unfold set_col. rewrite length_zip_with. lia. Qed.

Lemma set_col_lookup c v df i r x :
  df !! i = Some r -> v !! i = Some x ->
  set_col c v df !! i = Some (with_cells (insert c x) r).
Proof.
  intros Hr Hx. unfold set_col. rewrite lookup_zip_with, Hr. simpl. by rewrite Hx.
Qed.

Lemma drop_cols_lookup cs df i r :
  df !! i = Some r ->
  drop_cols cs df !! i = Some (with_cells (fun m => foldr delete m cs) r).
Proof. intros Hr. unfold drop_cols. by rewrite list_lookup_fmap, Hr. Qed.

Lemma pairwise_length c0 c1 df m : pairwise c0 c1 df = Some m -> length m = length df.
Proof.
  unfold pairwise. intros H. simplify_option_eq.
  rewrite length_zip_with.
  repeat match goal with H : column _ _ = Some _ |- _ => apply column_length in H end. lia.
Qed.

Lemma pairwise_lookup c0 c1 df m i r :
  pairwise c0 c1 df = Some m -> df !! i = Some r ->
  m !! i = Some (frac (get c0 r) (get c1 r)).
Proof.
  unfold pairwise. intros H Hr. simplify_option_eq.
  rewrite lookup_zip_with.
  match goal with H : column c0 _ = Some _ |- _ =>
    destruct (column_lookup _ _ _ _ _ H Hr) as [_ ->] end.
  match goal with H : column c1 _ = Some _ |- _ =>
    destruct (column_lookup _ _ _ _ _ H Hr) as [_ ->] end.
  done.
Qed.

Lemma get_insert_ne c c' x r : c <> c' -> get c' (with_cells (insert c x) r) = get c' r.
Proof. intros H. unfold get, with_cells. simpl. by rewrite lookup_insert_ne. Qed.

Ltac len := first [lia | rewrite set_col_length by len; len].

End FrameFacts.

(** ** The momentum score *)

Module MomentumFacts.
Import Float Series Engineering FloatFacts FrameFacts FloatSpec MomentumSpec.

Lemma nan0_canonical x : canonical x -> canonical (nan0 x).
Proof. unfold nan0. by destruct x. Qed.

Lemma frac_canonical a b : canonical (frac a b).
Proof. apply fdiv_canonical. Qed.

(** C10: in [calculate_momentum] a NaN fractional change does not reach
    the score: the score of every row is the sum of its three changes with
    each NaN counted as 0, and it is 0 when all three are NaN.  The column
    names are assumed not to collide with the three scratch columns. *)
Theorem momentum_skips_nan (df : list row) (col_new c1 c2 c3 c4 : string) (out : list row) :
  col_new ∉ cols_momentum -> c2 ∉ cols_momentum ->
  c3 ∉ cols_momentum -> c4 ∉ cols_momentum ->
  calculate_momentum df col_new c1 c2 c3 c4 = Some out ->
  length out = length df /\
  forall i r, df !! i = Some r ->
    let t1 := frac (get c1 r) (get c2 r) in
    let t2 := frac (get c2 r) (get c3 r) in
    let t3 := frac (get c3 r) (get c4 r) in
    exists r', out !! i = Some r' /\
      cells r' !! col_new = Some (fadd (nan0 t1) (fadd (nan0 t2) (nan0 t3))) /\
      (isnan t1 = true -> isnan t2 = true -> isnan t3 = true ->
       cells r' !! col_new = Some (Fin 0)).
Proof.
  intros Hnew H2 H3 H4. unfold cols_momentum in *.
  rewrite !not_elem_of_cons in Hnew, H2, H3, H4.
  destruct Hnew as (Hn1 & Hn2 & Hn3 & _), H2 as (H21 & H22 & H23 & _),
    H3 as (H31 & H32 & H33 & _), H4 as (H41 & H42 & H43 & _).
  unfold calculate_momentum. intros H.
  destruct (pairwise c1 c2 df) as [m1|] eqn:E1; [|done]. simpl in H.
  destruct (pairwise c2 c3 _) as [m2|] eqn:E2; [|done]. simpl in H.
  destruct (pairwise c3 c4 _) as [m3|] eqn:E3; [|done]. simpl in H.
  destruct (mapM _ _) as [s|] eqn:E4; [|done]. simpl in H. injection H as <-.
  pose proof (pairwise_length _ _ _ _ E1) as L1.
  pose proof (pairwise_length _ _ _ _ E2) as L2.
  pose proof (pairwise_length _ _ _ _ E3) as L3.
  pose proof (length_mapM _ _ _ E4) as L4.
  rewrite set_col_length in L2 by len.
  rewrite !set_col_length in L3 by len.
  rewrite !set_col_length in L4 by len.
  split.
  { unfold drop_cols. rewrite length_fmap. len. }
  intros i r Hr. cbv zeta.
  set (t1 := frac (get c1 r) (get c2 r)).
  set (t2 := frac (get c2 r) (get c3 r)).
  set (t3 := frac (get c3 r) (get c4 r)).
  pose proof (pairwise_lookup _ _ _ _ _ _ E1 Hr) as Hm1.
  pose proof (set_col_lookup "momentum_1_2" _ _ _ _ _ Hr Hm1) as Hr1.
  pose proof (pairwise_lookup _ _ _ _ _ _ E2 Hr1) as Hm2.
  rewrite !get_insert_ne in Hm2 by done.
  pose proof (set_col_lookup "momentum_2_3" _ _ _ _ _ Hr1 Hm2) as Hr2.
  pose proof (pairwise_lookup _ _ _ _ _ _ E3 Hr2) as Hm3.
  rewrite !get_insert_ne in Hm3 by done.
  pose proof (set_col_lookup "momentum_3_4" _ _ _ _ _ Hr2 Hm3) as Hr3.
  fold t1 in Hr1, Hr2, Hr3. fold t2 in Hr2, Hr3. fold t3 in Hr3.
  rewrite mapM_Some in E4.
  destruct (Forall2_lookup_l _ _ _ _ _ E4 Hr3) as (sc & Hsc & Hsum).
  pose proof (set_col_lookup col_new _ _ _ _ _ Hr3 Hsc) as Hr4.
  eexists. split; [by apply drop_cols_lookup|].
  assert (sc = fadd (nan0 t1) (fadd (nan0 t2) (nan0 t3))) as ->.
  { unfold row_sum in Hsum. simpl in Hsum.
    set (M := <["momentum_3_4":=t3]> _) in Hsum.
    assert (M !! "momentum_1_2" = Some t1) as E12 by (by subst M; simplify_map_eq).
    assert (M !! "momentum_2_3" = Some t2) as E23 by (by subst M; simplify_map_eq).
    assert (M !! "momentum_3_4" = Some t3) as E34 by (by subst M; simplify_map_eq).
    rewrite E12, E23, E34 in Hsum. simpl in Hsum. injection Hsum as <-.
    rewrite nansum_nan0. simpl. f_equal. f_equal.
    apply fadd_0_r, nan0_canonical, frac_canonical. }
  simpl. split.
  - rewrite !lookup_delete_ne by done. by rewrite lookup_insert_eq.
  - intros N1 N2 N3. rewrite !lookup_delete_ne by done. rewrite lookup_insert_eq.
    unfold nan0. by rewrite N1, N2, N3.
Qed.

Lemma momentum_skips_nan_witness :
  exists out,
    calculate_momentum momentum_frame "momentum" "p1" "p2" "p3" "p4" = Some out /\
    exists r', out !! 1%nat = Some r' /\
      cells r' !! "momentum" = Some PInf.
Proof.
  eexists. split; [vm_compute; reflexivity|].
  edestruct (momentum_skips_nan momentum_frame "momentum" "p1" "p2" "p3" "p4")
    as [_ H]; [by apply (bool_decide_unpack _)..| |].
  - vm_compute. reflexivity.
  - destruct (H 1%nat _ eq_refl) as (r' & Hr' & Hs & _).
    exists r'. split; [exact Hr'|]. exact Hs.
Defined.

End MomentumFacts.


(** ** Extrema of a single price column *)

Module ExtremaFacts.
Import Float Series Engineering FloatFacts FrameFacts FloatSpec ExtremaSpec.

(** C1: on the frame [dip] with window 3, the middle row has a full
    centered window and its price equals the centered rolling minimum of
    the price column, yet [define_local_min_max] called on the price
    column leaves local_min at 0 in every row: the minimum is taken over
    avg_price_5, not over the given column. *)
Theorem local_min_reads_avg_price_5 :
  rolling_min true 3 3 (map (get "price") dip) = [NaN; Fin 1; NaN] /\
  map (get "price") dip = [Fin 2; Fin 1; Fin 3] /\
  rolling_min true 3 3 (map (get "avg_price_5") dip) = [NaN; Fin 7; NaN] /\
  (map (get "local_min") <$> define_local_min_max dip "price" 3 "")
    = Some [Fin 0; Fin 0; Fin 0] /\
  (map (get "local_min") <$> define_local_min_max2 dip "price" "price" 3 "")
    = Some [Fin 0; Fin 1; Fin 0].
Proof. repeat split; vm_compute; reflexivity. Qed.

End ExtremaFacts.

(** ** Support and resistance levels *)

Module LevelFacts.
Import Float Series Engineering FloatFacts FrameFacts FloatSpec LevelSpec.

(** C4: with threshold 0.025 the extrema prices 100, 101, 150 fall into
    the clusters 1, 1, 3, and the prices 100, 102, 104 all fall into
    cluster 1 although the gap from 100 to 104 is above the threshold. *)
Theorem level_clustering_examples :
  cluster_ids thres [Fin 100; Fin 101; Fin 150] = [1; 1; 3]%nat /\
  cluster_ids thres [Fin 100; Fin 102; Fin 104] = [1; 1; 1]%nat /\
  close_enough thres (Fin 100) (Fin 104) = false /\
  levels (aggregate_support_levels far_apart "local_min" "local_max" "price" thres)
    = Some [(1, Some 3%nat); (2, None); (3, Some 1%nat); (4, Some 1%nat)] /\
  levels (aggregate_support_levels chain "local_min" "local_max" "price" thres)
    = Some [(1, Some 1%nat); (2, Some 1%nat); (3, Some 1%nat)].
Proof. repeat split; vm_compute; reflexivity. Qed.

End LevelFacts.

(** ** The join of the cluster frame *)

Module JoinFacts.
Import Float Series Engineering FloatFacts FrameFacts SortFacts GroupFacts
  FloatSpec JoinSpec.

Lemma scan_length thres prices idx lv :
  length (foldl (scan_step thres prices) lv idx) = length lv.
Proof.
  revert lv. induction idx as [|i idx IH]; intros lv; [done|].
  simpl. rewrite IH. unfold scan_step. case_match; [apply length_insert|done].
Qed.

Lemma cluster_ids_length thres prices :
  length (cluster_ids thres prices) = length prices.
Proof. unfold cluster_ids. by rewrite scan_length, length_seq. Qed.

Lemma cluster_group_keys col_price thres df_locals g :
  cluster_key <$> cluster_group col_price thres df_locals g
  ≡ₚ row_key <$> filter (fun r => coin r = g) df_locals.
Proof.
  unfold cluster_group.
  rewrite (fmap_zip_with_l _ _ row_key); [|done|].
  - by rewrite sort_perm.
  - by rewrite cluster_ids_length, length_fmap.
Qed.

(** The cluster frame has one row per flagged row, with the same day and
    coin. *)
Lemma cluster_frame_keys col_price thres (df_locals : list row) :
  cluster_key <$> (Grouped.unique (coin <$> df_locals)
                     ≫= cluster_group col_price thres df_locals)
  ≡ₚ row_key <$> df_locals.
Proof.
  rewrite fmap_bind_list.
  rewrite (bind_perm_ext _ (fun g => row_key <$> filter (fun r => coin r = g) df_locals))
    by apply cluster_group_keys.
  rewrite <- fmap_bind_list. apply fmap_Permutation.
  apply partition_perm; [apply NoDup_unique|].
  intros x Hx. apply elem_of_unique. by apply list_elem_of_fmap_2.
Qed.

Lemma merge_row_matches col_min col_max col_price thres df r :
  let df_locals := filter (flagged col_min col_max) df in
  let df_cluster := Grouped.unique (coin <$> df_locals)
                      ≫= cluster_group col_price thres df_locals in
  length (filter (fun c => c_day c = day r /\ c_coin c = coin r) df_cluster)
  = matches col_min col_max df r.
Proof.
  intros df_locals df_cluster. unfold matches.
  trans (length (filter (fun k => k = row_key r) (cluster_key <$> df_cluster))).
  { rewrite filter_fmap_length. f_equal. apply list_filter_iff.
    intros c. unfold cluster_key, row_key. split; [by intros [-> ->]|by intros [= -> ->]]. }
  trans (length (filter (fun k => k = row_key r) (row_key <$> df_locals))).
  { unfold df_cluster. by rewrite cluster_frame_keys. }
  rewrite filter_fmap_length. unfold df_locals. rewrite list_filter_filter.
  f_equal. apply list_filter_iff. intros x. tauto.
Qed.

Lemma merge_row_copies df_cluster r :
  copies r (length (filter (fun c => c_day c = day r /\ c_coin c = coin r) df_cluster))
    (merge_row df_cluster r).
Proof.
  unfold merge_row, copies.
  destruct (filter _ df_cluster) as [|c ms] eqn:E.
  - repeat split; [by repeat constructor|simpl; lia].
  - repeat split.
    + apply Forall_fmap, Forall_true. done.
    + rewrite length_fmap. simpl. lia.
    + done.
    + intros _. apply Forall_fmap, Forall_true. simpl. eauto.
Qed.

Lemma aggregate_support_levels_parts df col_min col_max col_price thres out :
  aggregate_support_levels df col_min col_max col_price thres = Some out ->
  exists parts : list (list joined),
    out = concat parts /\
    Forall2 (fun r part => copies r (matches col_min col_max df r) part) df parts.
Proof.
  unfold aggregate_support_levels. intros H. simplify_option_eq.
  eexists. split; [apply bind_concat|].
  apply Forall2_fmap_r, Forall_Forall2_diag, Forall_forall. intros r _.
  rewrite <- (merge_row_matches col_min col_max col_price thres df r).
  apply merge_row_copies.
Qed.

(** C9: on a frame without any flagged row [aggregate_support_levels]
    returns nothing at all: the loop over the coins is not entered, the
    cluster frame stays the empty frame without columns it was created as,
    and the merge on day and coin raises.  The claim has every row of such
    a frame come back once, with null level columns. *)
Theorem aggregate_support_levels_no_extremum df col_min col_max col_price thres :
  Forall (fun r => ~ flagged col_min col_max r) df ->
  aggregate_support_levels df col_min col_max col_price thres = None.
Proof.
  intros H. unfold aggregate_support_levels.
  assert (filter (flagged col_min col_max) df = []) as E.
  { induction H as [|r df Hr _ IH]; [done|]. by rewrite filter_cons_False. }
  change (filter _ df) with (filter (flagged col_min col_max) df). rewrite E.
  destruct (column col_min df); [|done]. destruct (column col_max df); [|done].
  by destruct (column col_price df).
Qed.

Lemma aggregate_support_levels_no_extremum_witness :
  is_Some (column "local_min" quiet_days) /\
  is_Some (column "local_max" quiet_days) /\
  is_Some (column "price" quiet_days) /\
  aggregate_support_levels quiet_days "local_min" "local_max" "price" (Fin (25 # 1000))
  = None.
Proof.
  split; [by eexists|]. split; [by eexists|]. split; [by eexists|].
  apply (aggregate_support_levels_no_extremum quiet_days).
  repeat constructor; vm_compute; discriminate.
Defined.

(** What the call does when it returns, that is on a frame with at least
    one flagged row: [aggregate_support_levels] keeps every input row, in
    order, but not the row count.  The output is the concatenation of one part per
    input row; the part of a row whose day and coin carry [k] flagged
    extrema has [max 1 k] copies of the row, each with a cluster row when
    [k > 0], and is the row alone with null level columns when [k = 0].
    On the frame [two_on_a_day] the first row has two matches and occurs
    twice, the last has none and occurs once without level. *)
Theorem left_join_row_count :
  (forall (df : list row) (col_min col_max col_price : string) (thres : fl)
          (out : list joined),
     aggregate_support_levels df col_min col_max col_price thres = Some out ->
     exists parts : list (list joined),
       out = concat parts /\
       Forall2 (fun r part => copies r (matches col_min col_max df r) part) df parts) /\
  (exists out,
     aggregate_support_levels two_on_a_day "local_min" "local_max" "price" (Fin (25 # 1000))
       = Some out /\
     length two_on_a_day = 3%nat /\ length out = 5%nat /\
     matches "local_min" "local_max" two_on_a_day (hourly 1 0 100 1 0) = 2%nat /\
     occurrences (hourly 1 0 100 1 0) out = 2%nat /\
     matches "local_min" "local_max" two_on_a_day (hourly 2 0 105 0 0) = 0%nat /\
     filter (fun x => fst x = hourly 2 0 105 0 0) out = [(hourly 2 0 105 0 0, None)]).
Proof.
  split; [apply aggregate_support_levels_parts|].
  eexists. split; [vm_compute; reflexivity|].
  repeat split; vm_compute; reflexivity.
Qed.

Lemma left_join_row_count_witness :
  exists out parts,
    aggregate_support_levels two_on_a_day "local_min" "local_max" "price" (Fin (25 # 1000))
      = Some out /\
    out = concat parts /\
    Forall2 (fun r part => copies r (matches "local_min" "local_max" two_on_a_day r) part)
      two_on_a_day parts.
Proof.
  destruct left_join_row_count as [H _].
  eexists. 
  edestruct (H two_on_a_day "local_min" "local_max" "price" (Fin (25 # 1000)))
    as (parts & Hout & Hparts); [vm_compute; reflexivity|].
  exists parts. split; [reflexivity|]. split; [exact Hout|exact Hparts].
Defined.

End JoinFacts.

(** ** Rows without a full centered window *)

Module EdgeFacts.
Import Float Series Engineering FloatFacts FrameFacts SortFacts GroupFacts
  RollingFacts FloatSpec EdgeSpec.

Lemma transform_length {A} (same : A -> A -> bool) col f (df : list A) :
  length (Grouped.transform same col f df) = length df.
Proof. unfold Grouped.transform. apply length_imap. Qed.

Lemma transform_lookup {A} (same : A -> A -> bool) col f (df : list A) j r :
  df !! j = Some r ->
  Grouped.transform same col f df !! j
  = Some (cell (f (map col (Grouped.members same r df))) (Grouped.position same j r df)).
Proof. intros H. unfold Grouped.transform. by rewrite list_lookup_imap, H. Qed.

Lemma grouped_Some c f df m :
  grouped c f df = Some m -> m = Grouped.transform same_coin (get c) f df.
Proof. unfold grouped. intros H. by simplify_option_eq. Qed.

(** Group sizes and positions depend on the coin column only. *)
Lemma members_length_fmap r (df : list row) :
  length (Grouped.members same_coin r df)
  = length (filter (fun c => c = coin r) (coin <$> df)).
Proof.
  unfold Grouped.members, same_coin.
  induction df as [|x df IH]; [done|].
  rewrite fmap_cons, !filter_cons.
  destruct (decide (coin x = coin r)) as [E|E].
  - rewrite bool_decide_eq_true_2 by done. simpl. by rewrite IH.
  - rewrite bool_decide_eq_false_2 by done. simpl. by rewrite IH.
Qed.

Lemma members_length_coins r r' (df df' : list row) :
  coin r = coin r' -> coin <$> df = coin <$> df' ->
  length (Grouped.members same_coin r df) = length (Grouped.members same_coin r' df').
Proof. intros Hr Hdf. by rewrite !members_length_fmap, Hr, Hdf. Qed.

Lemma position_coins j r r' (df df' : list row) :
  coin r = coin r' -> coin <$> df = coin <$> df' ->
  Grouped.position same_coin j r df = Grouped.position same_coin j r' df'.
Proof.
  intros Hr Hdf. unfold Grouped.position. apply members_length_coins; [done|].
  by rewrite !fmap_take, Hdf.
Qed.

Lemma set_col_coins c v (df : list row) :
  length v = length df -> coin <$> set_col c v df = coin <$> df.
Proof.
  unfold set_col. intros H. by apply fmap_zip_with_l.
Qed.

Lemma flag_nan x : flag x NaN = Fin 0.
Proof. by destruct x. Qed.

Lemma local_names_ne suffix : "local_max" +:+ suffix <> "local_min" +:+ suffix.
Proof. intros [=]. Qed.

Lemma column_cell c df l i r :
  column c df = Some l -> df !! i = Some r -> l !! i = Some (get c r).
Proof. intros H Hr. by destruct (column_lookup _ _ _ _ _ H Hr). Qed.

Lemma get_insert_eq c x r : get c (with_cells (insert c x) r) = x.
Proof. unfold get, with_cells. simpl. by rewrite lookup_insert_eq. Qed.

(** C7: in [define_local_min_max2] a row among the first or the last
    [(w - 1) / 2] rows of its coin, for the window length [w], has
    local_max = 0 and local_min = 0: its centered window is short of
    periods, the rolling aggregate is NaN, and the comparison with NaN is
    false. *)
Theorem edges_not_flagged (df : list row) (col_price_min col_price_max : string)
    (w : nat) (suffix : string) (out : list row) :
  define_local_min_max2 df col_price_min col_price_max w suffix = Some out ->
  length out = length df /\
  forall j r, out !! j = Some r ->
    let k := Grouped.position same_coin j r out in
    let n := length (Grouped.members same_coin r out) in
    (k < (w - 1) / 2 \/ n - (w - 1) / 2 <= k)%nat ->
    cells r !! ("local_max" +:+ suffix) = Some (Fin 0) /\
    cells r !! ("local_min" +:+ suffix) = Some (Fin 0).
Proof.
  unfold define_local_min_max2.
  set (col_max := "local_max" +:+ suffix). set (col_min := "local_min" +:+ suffix).
  assert (col_max <> col_min) as Hne by apply local_names_ne.
  set (df0 := sort_values df). intros H.
  destruct (grouped col_price_max _ df0) as [m1|] eqn:E1; [|done]. simpl in H.
  set (df1 := set_col col_max m1 df0) in *.
  destruct (column col_price_max df1) as [x0|] eqn:Ex0; [|done]. simpl in H.
  destruct (column col_max df1) as [x1|] eqn:Ex1; [|done]. simpl in H.
  set (df2 := set_col col_max (zip_with flag x0 x1) df1) in *.
  destruct (grouped col_price_min _ df2) as [m2|] eqn:E2; [|done]. simpl in H.
  set (df3 := set_col col_min m2 df2) in *.
  destruct (column col_price_min df3) as [y0|] eqn:Ey0; [|done]. simpl in H.
  destruct (column col_min df3) as [y1|] eqn:Ey1; [|done]. simpl in H.
  injection H as <-.
  apply grouped_Some in E1, E2.
  assert (length df0 = length df) as L0 by apply sort_length.
  assert (length m1 = length df0) as Lm1 by (subst m1; apply transform_length).
  assert (length df1 = length df0) as L1 by (by apply set_col_length).
  pose proof (column_length _ _ _ Ex0) as Lx0.
  pose proof (column_length _ _ _ Ex1) as Lx1.
  assert (length (zip_with flag x0 x1) = length df1) as Lf1
    by (rewrite length_zip_with; lia).
  assert (length df2 = length df1) as L2 by (by apply set_col_length).
  assert (length m2 = length df2) as Lm2 by (subst m2; apply transform_length).
  assert (length df3 = length df2) as L3 by (by apply set_col_length).
  pose proof (column_length _ _ _ Ey0) as Ly0.
  pose proof (column_length _ _ _ Ey1) as Ly1.
  assert (length (zip_with flag y0 y1) = length df3) as Lf3
    by (rewrite length_zip_with; lia).
  set (out := set_col col_min (zip_with flag y0 y1) df3).
  assert (length out = length df3) as L4 by (by apply set_col_length).
  assert (coin <$> df1 = coin <$> df0) as C1 by (by apply set_col_coins).
  assert (coin <$> df2 = coin <$> df0) as C2 by (by rewrite <- C1; apply set_col_coins).
  assert (coin <$> df3 = coin <$> df0) as C3 by (by rewrite <- C2; apply set_col_coins).
  assert (coin <$> out = coin <$> df0) as C4 by (by rewrite <- C3; apply set_col_coins).
  split; [lia|].
  intros j r Hr. cbv zeta. intros Hedge.
  destruct (lookup_lt_is_Some_2 df0 j) as [r0 Hr0].
  { apply lookup_lt_Some in Hr. lia. }
  (* the maximum *)
  pose proof (transform_lookup same_coin (get col_price_max)
                (rolling_max true w w) df0 j r0 Hr0) as Hm1.
  rewrite <- E1 in Hm1.
  pose proof (set_col_lookup col_max _ _ _ _ _ Hr0 Hm1) as Hr1. fold df1 in Hr1.
  pose proof (column_cell _ _ _ _ _ Ex0 Hr1) as Hx0.
  pose proof (column_cell _ _ _ _ _ Ex1 Hr1) as Hx1.
  rewrite get_insert_eq in Hx1.
  assert (zip_with flag x0 x1 !! j = Some (Fin 0)) as Hf1.
  { rewrite lookup_zip_with, Hx0. simpl. rewrite Hx1. simpl. f_equal.
    unfold rolling_max. rewrite centered_edge_nan; [apply flag_nan|].
    rewrite length_map.
    rewrite (members_length_coins r0 r df0 out), (position_coins j r0 r df0 out);
      try done.
    all: apply (f_equal (fun l => l !! j)) in C4;
      rewrite !list_lookup_fmap, Hr, Hr0 in C4; by simplify_eq/=. }
  pose proof (set_col_lookup col_max _ _ _ _ _ Hr1 Hf1) as Hr2. fold df2 in Hr2.
  set (r2 := with_cells _ (with_cells _ r0)) in Hr2.
  (* the minimum *)
  pose proof (transform_lookup same_coin (get col_price_min)
                (rolling_min true w w) df2 j r2 Hr2) as Hm2.
  rewrite <- E2 in Hm2.
  pose proof (set_col_lookup col_min _ _ _ _ _ Hr2 Hm2) as Hr3. fold df3 in Hr3.
  pose proof (column_cell _ _ _ _ _ Ey0 Hr3) as Hy0.
  pose proof (column_cell _ _ _ _ _ Ey1 Hr3) as Hy1.
  rewrite get_insert_eq in Hy1.
  assert (zip_with flag y0 y1 !! j = Some (Fin 0)) as Hf3.
  { rewrite lookup_zip_with, Hy0. simpl. rewrite Hy1. simpl. f_equal.
    unfold rolling_min. rewrite centered_edge_nan; [apply flag_nan|].
    rewrite length_map.
    rewrite (members_length_coins r2 r df2 out), (position_coins j r2 r df2 out);
      try done; try congruence.
    all: apply (f_equal (fun l => l !! j)) in C4;
      rewrite !list_lookup_fmap, Hr, Hr0 in C4; by simplify_eq/=. }
  pose proof (set_col_lookup col_min _ _ _ _ _ Hr3 Hf3) as Hr4. fold out in Hr4.
  rewrite Hr in Hr4. injection Hr4 as ->. simpl. split.
  - rewrite !lookup_insert_ne by done. by rewrite lookup_insert_eq.
  - by rewrite lookup_insert_eq.
Qed.

Lemma edges_not_flagged_witness :
  exists out r,
    define_local_min_max2 five_hours "low" "high" 3 "" = Some out /\
    out !! 4%nat = Some r /\
    cells r !! "local_max" = Some (Fin 0) /\
    cells r !! "local_min" = Some (Fin 0).
Proof.
  eexists. eexists. split; [vm_compute; reflexivity|].
  split; [reflexivity|].
  edestruct (edges_not_flagged five_hours "low" "high" 3 "") as [_ H];
    [vm_compute; reflexivity|].
  apply (H 4%nat _ eq_refl). right. vm_compute. lia.
Defined.

End EdgeFacts.

(** ** Column names ending in a number *)

Module NameFacts.
Import NameSpec.

Lemma last_char_cons c s : s <> EmptyString -> last_char (String c s) = last_char s.
Proof. by destruct s. Qed.

Lemma last_char_app s t : t <> EmptyString -> last_char (s +:+ t) = last_char t.
Proof.
  intros Ht. induction s as [|c s IH]; [done|].
  change (String c s +:+ t) with (String c (s +:+ t)).
  rewrite last_char_cons; [done|]. destruct s; [done|discriminate].
Qed.

Lemma pretty_N_char_digit x : is_digit (pretty_N_char x) = true.
Proof.
  unfold pretty_N_char. repeat case_match; by vm_compute.
Qed.

Lemma pretty_N_go_last x s :
  s <> EmptyString ->
  pretty_N_go x s <> EmptyString /\ last_char (pretty_N_go x s) = last_char s.
Proof.
  revert s. induction (N.lt_wf_0 x) as [x _ IH]; intros s Hs.
  destruct (decide (x = 0)%N) as [->|Hx]; [by rewrite pretty_N_go_0|].
  rewrite pretty_N_go_step by lia.
  destruct (IH (x `div` 10)%N) with (s := String (pretty_N_char (x `mod` 10)) s)
    as [H1 H2]; [apply N.div_lt; lia|done|].
  split; [done|]. rewrite H2. by apply last_char_cons.
Qed.

Lemma pretty_N_ends_with_digit (x : N) : ends_with_digit (pretty x).
Proof.
  unfold pretty, pretty_N. case_decide as Hx; [by exists "0"%char|].
  rewrite pretty_N_go_step by lia.
  destruct (pretty_N_go_last (x `div` 10)%N (String (pretty_N_char (x `mod` 10)) ""))
    as [_ H]; [done|].
  eexists. split; [exact H|]. apply pretty_N_char_digit.
Qed.

Lemma pretty_nat_ends_with_digit (n : nat) : ends_with_digit (pretty n).
Proof. apply pretty_N_ends_with_digit. Qed.

(** A column name built as [prefix + str(n)] ends with a digit. *)
Lemma numbered_ends_with_digit (prefix : string) (n : nat) :
  ends_with_digit (prefix +:+ pretty n).
Proof.
  destruct (pretty_nat_ends_with_digit n) as (c & Hc & Hd).
  exists c. split; [|done]. rewrite last_char_app; [done|].
  intros E. by rewrite E in Hc.
Qed.

Lemma numbered_ne (prefix : string) (n : nat) (s : string) :
  (forall c, last_char s = Some c -> is_digit c = false) ->
  prefix +:+ pretty n <> s.
Proof.
  intros Hs E. destruct (numbered_ends_with_digit prefix n) as (c & Hc & Hd).
  rewrite E in Hc. specialize (Hs c Hc). congruence.
Qed.

End NameFacts.

(** ** The frame of [weighted_average] *)

Module WeightedFacts.
Import Float Series Engineering FloatFacts FrameFacts SortFacts GroupFacts
  RollingFacts EdgeFacts NameFacts FloatSpec EdgeSpec NameSpec WeightedSpec.

Lemma same_but_trans cs1 cs2 r1 r2 r3 :
  same_but cs1 r1 r2 -> same_but cs2 r2 r3 -> same_but (cs1 ++ cs2) r1 r3.
Proof.
  intros (?&?&?&Ha) (?&?&?&Hb). repeat split; try congruence.
  intros c Hc. rewrite not_elem_of_app in Hc. destruct Hc.
  rewrite Hb, Ha; done.
Qed.

Lemma Forall2_same_but_trans cs1 cs2 (l1 l2 l3 : list row) :
  Forall2 (same_but cs1) l1 l2 -> Forall2 (same_but cs2) l2 l3 ->
  Forall2 (same_but (cs1 ++ cs2)) l1 l3.
Proof.
  intros H12 H23. eapply Forall2_trans; [|done..].
  intros ???. apply same_but_trans.
Qed.

Lemma set_col_same_but c v df :
  length v = length df -> Forall2 (same_but [c]) df (set_col c v df).
Proof.
  revert v. induction df as [|r df IH]; intros [|x v] Hlen; simplify_eq/=;
    constructor; [|by apply IH].
  repeat split. intros c' Hc'. simpl. apply lookup_insert_ne.
  intros ->. apply Hc'. by left.
Qed.

Lemma set_col_present c v df :
  Forall (fun r => is_Some (cells r !! c)) (set_col c v df).
Proof.
  unfold set_col. revert v. induction df as [|r df IH]; intros [|x v]; simpl;
    constructor; [|apply IH].
  simpl. rewrite lookup_insert_eq. eauto.
Qed.

Lemma drop_cols_same_but cs df : Forall2 (same_but cs) df (drop_cols cs df).
Proof.
  unfold drop_cols. apply Forall2_fmap_r, Forall_Forall2_diag, Forall_forall.
  intros r _. repeat split. intros c Hc. simpl.
  induction cs as [|d cs IH]; [done|]. simpl.
  apply not_elem_of_cons in Hc as [? ?]. rewrite lookup_delete_ne by done. auto.
Qed.

Lemma drop_cols_absent cs df :
  Forall (fun r => forall s, s ∈ cs -> cells r !! s = None) (drop_cols cs df).
Proof.
  unfold drop_cols. apply Forall_fmap, Forall_true. intros r s Hs. simpl.
  induction cs as [|d cs IH]; [by apply elem_of_nil in Hs|]. simpl.
  destruct (decide (d = s)) as [->|Hne]; [apply lookup_delete_eq|].
  rewrite lookup_delete_ne by done. apply elem_of_cons in Hs as [?|?]; [congruence|auto].
Qed.

(** Sorting two frames whose rows agree on the timestamps moves the rows
    the same way. *)
Section Sort2.
Context (R : row -> row -> Prop) (Hts : forall r r', R r r' -> timestamp r' = timestamp r).
Let leb := fun a b : row => timestamp a <=? timestamp b.

Lemma insert_sorted_Forall2 x x' l l' :
  R x x' -> Forall2 R l l' ->
  Forall2 R (Sorting.insert_sorted leb x l) (Sorting.insert_sorted leb x' l').
Proof.
  intros Hx H. induction H as [|y y' l l' Hy H IH]; simpl; [by repeat constructor|].
  unfold leb at 1 3. rewrite (Hts _ _ Hx), (Hts _ _ Hy).
  destruct (_ <=? _); by repeat constructor.
Qed.

Lemma sort_values_Forall2 l l' :
  Forall2 R l l' -> Forall2 R (sort_values l) (sort_values l').
Proof.
  induction 1; simpl; [constructor|]. by apply insert_sorted_Forall2.
Qed.
End Sort2.

Lemma Forall2_and_r {A B} (P : A -> B -> Prop) (Q : B -> Prop) l k :
  Forall2 P l k -> Forall Q k -> Forall2 (fun x y => P x y /\ Q y) l k.
Proof.
  induction 1; intros HQ; [constructor|].
  apply Forall_cons in HQ as [? ?]. constructor; auto.
Qed.

Lemma numbered_fresh (prefix : string) (n : nat) :
  prefix +:+ pretty n ∉ "volume" :: scratch.
Proof.
  unfold scratch. rewrite !not_elem_of_cons.
  repeat split; try apply not_elem_of_nil; apply numbered_ne; by intros c [= <-].
Qed.

(** C8, amended: when the price column is none of the scratch columns
    and is not the output column [colname_new + str(window_length)],
    [weighted_average] returns the input rows in timestamp order with
    the price and the volume cells unchanged, none of the scratch
    columns left, and the output column as the only column added. *)
Theorem weighted_average_frame (df : list row) (col_price colname_new : string)
    (window_length : nat) (out : list row) :
  col_price ∉ scratch ->
  col_price <> colname_new +:+ pretty window_length ->
  weighted_average df col_price colname_new window_length = Some out ->
  frame_kept df col_price (colname_new +:+ pretty window_length) out.
Proof.
  intros Hscr Hnew. unfold weighted_average, frame_kept.
  set (colname := colname_new +:+ pretty window_length) in *.
  pose proof (numbered_fresh colname_new window_length) as Hfresh. fold colname in Hfresh.
  intros H.
  destruct (column col_price df) as [p|] eqn:Ep; [|done]. simpl in H.
  destruct (column "volume" df) as [v|] eqn:Ev; [|done]. simpl in H.
  set (dfa := set_col "weighted_price" (zip_with fmul p v) df) in *.
  set (dfb := sort_values dfa) in *.
  case_guard; [|done]. simpl in H.
  destruct (grouped "weighted_price" _ dfb) as [nom|] eqn:En; [|done]. simpl in H.
  set (dfc := set_col "nominator" nom dfb) in *.
  destruct (grouped "volume" _ dfc) as [den|] eqn:Ed; [|done]. simpl in H.
  set (dfd := set_col "denominator" den dfc) in *.
  destruct (column "nominator" dfd) as [a|] eqn:Ea; [|done]. simpl in H.
  destruct (column "denominator" dfd) as [b|] eqn:Eb; [|done]. simpl in H.
  set (dfe := set_col colname (zip_with fdiv a b) dfd) in *.
  injection H as <-.
  apply grouped_Some in En, Ed.
  pose proof (column_length _ _ _ Ep) as Lp.
  pose proof (column_length _ _ _ Ev) as Lv.
  assert (Forall2 (same_but ["weighted_price"]) df dfa) as Ra.
  { apply set_col_same_but. rewrite length_zip_with. lia. }
  assert (Forall2 (same_but ["weighted_price"]) (sort_values df) dfb) as Rb.
  { apply sort_values_Forall2; [|done]. by intros r r' (_&?&_). }
  assert (Forall2 (same_but ["nominator"]) dfb dfc) as Rc.
  { apply set_col_same_but. subst nom. apply transform_length. }
  assert (Forall2 (same_but ["denominator"]) dfc dfd) as Rd.
  { apply set_col_same_but. subst den. apply transform_length. }
  pose proof (column_length _ _ _ Ea) as La.
  pose proof (column_length _ _ _ Eb) as Lb.
  assert (Forall2 (same_but [colname]) dfd dfe) as Re.
  { apply set_col_same_but. rewrite length_zip_with. lia. }
  pose proof (Forall2_and_r _ _ _ _ Re (set_col_present colname _ dfd)) as Re'.
  pose proof (Forall2_and_r _ _ _ _ (drop_cols_same_but scratch dfe)
                (drop_cols_absent scratch dfe)) as Rf.
  pose proof (Forall2_same_but_trans _ _ _ _ _ Rb Rc) as R1.
  pose proof (Forall2_same_but_trans _ _ _ _ _ R1 Rd) as R2.
  assert (Forall2 (fun x z => exists y,
            (same_but [colname] x y /\ is_Some (cells y !! colname)) /\
            (same_but scratch y z /\ forall s, s ∈ scratch -> cells z !! s = None))
            dfd (drop_cols scratch dfe)) as Rg.
  { eapply Forall2_trans; [|exact Re'|exact Rf]. intros x y z ? ?. by exists y. }
  eapply Forall2_trans; [|exact R2|exact Rg].
  simpl. intros r r1 r' (Hc1&Ht1&Hd1&Hcells1)
    (r2 & [(Hc2&Ht2&Hd2&Hcells2) Hpres] & [(Hc3&Ht3&Hd3&Hcells3) Habs]).
  unfold scratch in *.
  rewrite !not_elem_of_cons in Hscr. rewrite !not_elem_of_cons in Hfresh.
  destruct Hscr as (?&?&?&_), Hfresh as (?&?&?&?&_).
  assert (forall c, c ∉ colname :: scratch -> cells r' !! c = cells r !! c) as Hsame.
  { unfold scratch. intros c Hc. rewrite !not_elem_of_cons in Hc.
    destruct Hc as (?&?&?&?&_).
    rewrite Hcells3, Hcells2, Hcells1; [done|..];
      rewrite !not_elem_of_cons; repeat split; try done; apply not_elem_of_nil. }
  repeat split; try congruence.
  - apply Hsame. unfold scratch. rewrite !not_elem_of_cons.
    repeat split; try done; apply not_elem_of_nil.
  - apply Hsame. unfold scratch. rewrite !not_elem_of_cons.
    repeat split; try done; apply not_elem_of_nil.
  - exact Habs.
  - rewrite Hcells3; [done|]. rewrite !not_elem_of_cons.
    repeat split; try done; apply not_elem_of_nil.
  - intros c Hc. destruct (decide (c = colname)) as [|Hne]; [by left|right].
    destruct (decide (c ∈ ["weighted_price"; "nominator"; "denominator"])) as [Hin|Hin].
    + rewrite (Habs c Hin) in Hc. by destruct Hc.
    + rewrite <- Hsame; [done|]. by apply not_elem_of_cons.
Qed.

(** C8 fails as stated: called with the price column price5, the name
    prefix price and the window 5, the output column takes the name of
    the price column and the second price 20 is replaced by 15; called
    with a price column named nominator, that column is overwritten by
    the scratch column and dropped with it. *)
Lemma weighted_average_overwrites_price :
  (exists out,
     weighted_average overwritten "price5" "price" 5 = Some out /\
     (get "price5" <$> sort_values overwritten) = [Fin 10; Fin 20] /\
     (get "price5" <$> out) = [Fin 10; Fin 15] /\
     ~ frame_kept overwritten "price5" ("price" +:+ pretty 5%nat) out) /\
  (exists out,
     weighted_average dropped "nominator" "avg_price_" 5 = Some out /\
     ((fun r => cells r !! "nominator") <$> sort_values dropped)
       = [Some (Fin 10); Some (Fin 20)] /\
     ((fun r => cells r !! "nominator") <$> out) = [None; None] /\
     ~ frame_kept dropped "nominator" ("avg_price_" +:+ pretty 5%nat) out).
Proof.
  split.
  - eexists. split; [vm_compute; reflexivity|].
    split; [vm_compute; reflexivity|]. split; [vm_compute; reflexivity|].
    intros Hk. unfold frame_kept in Hk.
    eapply (Forall2_lookup_lr _ _ _ 1%nat) in Hk; [|reflexivity..].
    destruct Hk as (_&_&_&Hp&_). vm_compute in Hp. discriminate.
  - eexists. split; [vm_compute; reflexivity|].
    split; [vm_compute; reflexivity|]. split; [vm_compute; reflexivity|].
    intros Hk. unfold frame_kept in Hk.
    eapply (Forall2_lookup_lr _ _ _ 0%nat) in Hk; [|reflexivity..].
    destruct Hk as (_&_&_&Hp&_). vm_compute in Hp. discriminate.
Qed.

Lemma weighted_average_frame_witness :
  exists out,
    weighted_average two_hours "price" "avg_price_" 5 = Some out /\
    frame_kept two_hours "price" ("avg_price_" +:+ pretty 5%nat) out.
Proof.
  eexists. split; [vm_compute; reflexivity|].
  apply (weighted_average_frame two_hours "price" "avg_price_" 5).
  - by apply (bool_decide_unpack _).
  - by apply (bool_decide_unpack _).
  - vm_compute. reflexivity.
Defined.

End WeightedFacts.

(** ** Shifts, percent changes and backward windows *)

Module SeriesFacts.
Import Float Series FloatFacts RollingFacts FloatSpec.

Lemma shift_length k l : length (shift k l) = length l.
Proof. unfold shift. by rewrite length_map, length_seq. Qed.

Lemma shift_cell k l i :
  (i < length l)%nat ->
  cell (shift k l) i =
    if (0 <=? Z.of_nat i - k) && (Z.of_nat i - k <? Z.of_nat (length l))
    then cell l (Z.to_nat (Z.of_nat i - k)) else NaN.
Proof.
  intros Hi. unfold shift. change (map ?f ?l) with (f <$> l).
  erewrite cell_fmap; [done|]. by apply lookup_seq_lt.
Qed.

(** Shifting back by [h] reads the row [h] places ahead. *)
Lemma shift_back_cell (h : nat) l i :
  (i + h < length l)%nat -> cell (shift (- Z.of_nat h) l) i = cell l (i + h).
Proof.
  intros Hi. rewrite shift_cell by lia.
  replace (Z.of_nat i - - Z.of_nat h) with (Z.of_nat (i + h)) by lia.
  rewrite Nat2Z.id.
  destruct (Z.leb_spec 0 (Z.of_nat (i + h))); [|lia].
  destruct (Z.ltb_spec (Z.of_nat (i + h)) (Z.of_nat (length l))); [done|lia].
Qed.

Lemma shift_back_tail (h : nat) l i :
  (i < length l)%nat -> (length l <= i + h)%nat ->
  cell (shift (- Z.of_nat h) l) i = NaN.
Proof.
  intros Hi Hn. rewrite shift_cell by lia.
  destruct (Z.ltb_spec (Z.of_nat i - - Z.of_nat h) (Z.of_nat (length l))); [lia|].
  by rewrite andb_false_r.
Qed.

Lemma shift_fwd_cell (h : nat) l i :
  (h <= i)%nat -> (i < length l)%nat -> cell (shift (Z.of_nat h) l) i = cell l (i - h).
Proof.
  intros Hh Hi. rewrite shift_cell by lia.
  replace (Z.of_nat i - Z.of_nat h) with (Z.of_nat (i - h)) by lia.
  rewrite Nat2Z.id.
  destruct (Z.leb_spec 0 (Z.of_nat (i - h))); [|lia].
  destruct (Z.ltb_spec (Z.of_nat (i - h)) (Z.of_nat (length l))); [done|lia].
Qed.

Lemma shift_fwd_head (h : nat) l i :
  (i < h)%nat -> (i < length l)%nat -> cell (shift (Z.of_nat h) l) i = NaN.
Proof.
  intros Hh Hi. rewrite shift_cell by lia.
  destruct (Z.leb_spec 0 (Z.of_nat i - Z.of_nat h)); [lia|done].
Qed.

Lemma cell_zip_with (f : fl -> fl -> fl) l k i :
  (i < length l)%nat -> (i < length k)%nat ->
  cell (zip_with f l k) i = f (cell l i) (cell k i).
Proof.
  intros Hl Hk. unfold cell. rewrite lookup_zip_with.
  destruct (lookup_lt_is_Some_2 l i Hl) as [x ->].
  destruct (lookup_lt_is_Some_2 k i Hk) as [y ->]. done.
Qed.

Lemma cell_lookup_Some (l : list fl) i : (i < length l)%nat -> l !! i = Some (cell l i).
Proof. intros H. unfold cell. by destruct (lookup_lt_is_Some_2 l i H) as [x ->]. Qed.

Lemma pct_change_length k l : length (pct_change k false l) = length l.
Proof. unfold pct_change. rewrite length_zip_with, shift_length. lia. Qed.

Lemma pct_change_cell k l i :
  (i < length l)%nat ->
  cell (pct_change k false l) i = fsub (fdiv (cell l i) (cell (shift k l) i)) (Fin 1).
Proof.
  intros Hi. unfold pct_change. rewrite cell_zip_with; [done|done|].
  by rewrite shift_length.
Qed.

Lemma scale_cell c l i : (i < length l)%nat -> cell (scale c l) i = fmul (cell l i) c.
Proof.
  intros Hi. unfold scale. change (map ?f ?l) with (f <$> l).
  erewrite cell_fmap; [done|]. by apply cell_lookup_Some.
Qed.

Lemma scale_length c l : length (scale c l) = length l.
Proof. unfold scale. apply length_map. Qed.

(** The backward window of [w >= 1] periods at row [i]: the rows up to
    [i], [w] of them once there are that many. *)
Lemma backward_window w (l : list fl) i :
  (1 <= w)%nat -> (i < length l)%nat ->
  window false w l i = take (Nat.min w (i + 1)) (drop (i + 1 - w) l).
Proof.
  intros Hw Hi. unfold window, window_start, window_stop, window_offset, clip.
  destruct w as [|w]; [lia|]. cbn [orb Nat.eqb].
  f_equal; [|f_equal]; lia.
Qed.

Lemma backward_window_length w (l : list fl) i :
  (1 <= w)%nat -> (i < length l)%nat ->
  length (window false w l i) = Nat.min w (i + 1).
Proof.
  intros Hw Hi. rewrite backward_window by done.
  rewrite length_take, length_drop. lia.
Qed.

(** Before row [w - 1] a backward window asking for [w] observations
    gives NaN. *)
Lemma backward_head_nan w agg (l : list fl) i :
  (i < w - 1)%nat -> (i < length l)%nat ->
  cell (rolling false w w agg l) i = NaN.
Proof.
  intros Hw Hi. rewrite rolling_cell by done. cbv zeta.
  pose proof (observations_length (window false w l i)) as Hd.
  rewrite backward_window_length in Hd by lia.
  destruct (Nat.ltb_spec (length (observations (window false w l i))) w); [done|lia].
Qed.

(** From row [w - 1] on, on a series of finite cells, it is the aggregate
    of the last [w] rows. *)
Lemma backward_full w agg (l : list fl) i :
  (1 <= w)%nat -> (w - 1 <= i)%nat -> (i < length l)%nat ->
  Forall (fun x => is_fin x = true) l ->
  cell (rolling false w w agg l) i = agg (window false w l i) /\
  length (window false w l i) = w /\
  Forall (fun x => x ∈ l) (window false w l i).
Proof.
  intros Hw Hwi Hi Hl. rewrite rolling_cell by done. cbv zeta.
  assert (Forall (fun x => x ∈ l) (window false w l i)) as Hsub.
  { rewrite backward_window by done. apply Forall_forall. intros x Hx.
    by apply subseteq_take, subseteq_drop in Hx. }
  assert (observations (window false w l i) = window false w l i) as ->.
  { apply observations_finite. eapply Forall_impl; [exact Hsub|].
    intros x Hx. simpl in Hx. rewrite Forall_forall in Hl. by apply Hl. }
  rewrite backward_window_length by done.
  replace (Nat.min w (i + 1)) with w by lia.
  rewrite Nat.ltb_irrefl. done.
Qed.

End SeriesFacts.

(** ** Forward percent change *)

Module ChangeFacts.
Import Float Series Prices FloatFacts RollingFacts SeriesFacts FloatSpec
  ChangeSpec.

Lemma Qsgn_eq p q : (p == q)%Q -> Qsgn p = Qsgn q.
Proof.
  unfold Qeq, Qsgn. destruct p as [pn pd], q as [qn qd]. simpl. intros H.
  destruct pn, qn; simpl; try done; lia.
Qed.

Lemma Qeq_bool_false_neq a : Qeq_bool a 0 = false -> ~ (a == 0)%Q.
Proof. intros H E. apply Qeq_bool_iff in E. congruence. Qed.

(** The quotient minus one, and the difference over the base, are the
    same percent change on finite prices, a zero base included. *)
Lemma pct_forms (a b : Q) :
  fmul (fsub (fdiv (Fin b) (Fin a)) (Fin 1)) (Fin 100)
  = fmul (fdiv (fsub (Fin b) (Fin a)) (Fin a)) (Fin 100).
Proof.
  unfold fsub. simpl. destruct (Qeq_bool a 0) eqn:Ea.
  - apply Qeq_bool_iff in Ea.
    assert (Qsgn (Qred (b + Qred (- a))) = Qsgn b) as ->.
    { apply Qsgn_eq. rewrite !Qred_correct, Ea. ring. }
    by destruct (Qsgn b).
  - apply Qeq_bool_false_neq in Ea. simpl. apply fin_eq.
    rewrite !Qred_correct. field. done.
Qed.

Lemma column_map (f : nat -> list fl) (hs : list nat) (h : nat) :
  h ∈ hs -> column h (map (fun x => (x, f x)) hs) = Some (f h).
Proof.
  induction hs as [|x hs IH]; intros Hh; [by apply elem_of_nil in Hh|].
  simpl. destruct (Nat.eqb_spec x h) as [->|Hne]; [done|].
  apply IH. apply elem_of_cons in Hh as [?|?]; [congruence|done].
Qed.

Lemma prep_Some fetched coin_name agg_level df :
  prep_ohlcv_df fetched coin_name agg_level = Some df ->
  rows df = basic_prep_ohlcv_df fetched coin_name agg_level /\
  (forall h, h ∈ future_hours ->
     column h (future_change df) = Some (future_change_col h (map price (rows df)))) /\
  (forall h, h ∈ volume_hours ->
     column h (avg_volume df) = Some (avg_volume_col h (map b_volume (rows df))) /\
     column h (volatility_volume df)
       = Some (volatility_volume_col h (map b_volume (rows df)))).
Proof.
  unfold prep_ohlcv_df. case_match; [|done]. intros [= <-].
  split; [done|]. split; [|intros h Hh; split].
  - intros h Hh.
    exact (column_map (fun h => future_change_col h _) future_hours h Hh).
  - exact (column_map (fun h => avg_volume_col h _) volume_hours h Hh).
  - exact (column_map (fun h => volatility_volume_col h _) volume_hours h Hh).
Qed.

Lemma future_change_length h p : length (future_change_col h p) = length p.
Proof.
  unfold future_change_col. by rewrite scale_length, pct_change_length, shift_length.
Qed.

(** The forward change at row [t], from row [h] on. *)
Lemma future_change_cell (h : nat) (p : list fl) (t : nat) :
  (h <= t)%nat -> (t + h < length p)%nat ->
  cell (future_change_col h p) t
  = fmul (fsub (fdiv (cell p (t + h)) (cell p t)) (Fin 1)) (Fin 100).
Proof.
  intros Hh Ht. unfold future_change_col.
  rewrite scale_cell by (rewrite pct_change_length, shift_length; lia).
  rewrite pct_change_cell by (rewrite shift_length; lia).
  rewrite shift_fwd_cell by (rewrite ?shift_length; lia).
  rewrite !shift_back_cell by lia.
  by replace (t - h + h)%nat with t by lia.
Qed.

(** Before row [h] the shifted series has no row [t - h] to compare with. *)
Lemma future_change_head (h : nat) (p : list fl) (t : nat) :
  (t < h)%nat -> (t < length p)%nat -> cell (future_change_col h p) t = NaN.
Proof.
  intros Hh Ht. unfold future_change_col.
  rewrite scale_cell by (rewrite pct_change_length, shift_length; lia).
  rewrite pct_change_cell by (rewrite shift_length; lia).
  rewrite shift_fwd_head by (rewrite ?shift_length; lia).
  by destruct (cell (shift _ p) t).
Qed.

(** C3, amended: for every configured forward horizon [h] and every row
    [t >= h] whose rows [t] and [t + h] carry finite prices, future_change_h
    at row [t] is [(price[t+h] - price[t]) / price[t] * 100]. *)
Theorem future_change_from_row_h (fetched : list candle) (coin_name : string)
    (agg_level : list keycol) (df : prepared) (h t : nat) (a b : Q) :
  prep_ohlcv_df fetched coin_name agg_level = Some df ->
  h ∈ future_hours ->
  (h <= t)%nat ->
  price <$> rows df !! t = Some (Fin a) ->
  price <$> rows df !! (t + h)%nat = Some (Fin b) ->
  exists col,
    column h (future_change df) = Some col /\
    col !! t = Some (fmul (fdiv (fsub (Fin b) (Fin a)) (Fin a)) (Fin 100)).
Proof.
  intros Hprep Hh Hht Ha Hb.
  destruct (prep_Some _ _ _ _ Hprep) as (_ & Hcol & _).
  eexists. split; [by apply Hcol|].
  rewrite <- list_lookup_fmap in Ha, Hb.
  assert (t + h < length (map price (rows df)))%nat as Hlen
    by (by apply lookup_lt_Some in Hb).
  rewrite cell_lookup_Some by (rewrite future_change_length; lia).
  rewrite future_change_cell by done.
  change (map price (rows df)) with (price <$> rows df).
  rewrite (cell_lookup _ _ _ Ha), (cell_lookup _ _ _ Hb). f_equal. apply pct_forms.
Qed.

(** C3 fails as stated on the rows before [h]: on eight hourly bars, rows
    0 and 3 carry the prices 100 and 110, the claimed value is 10, and
    future_change_3 at row 0 is NaN, since the percent change of the
    shifted series looks [h] rows back. *)
Lemma future_change_first_rows_nan :
  exists df col,
    prep_ohlcv_df eight_hours "BTC/USD" by_hour = Some df /\
    price <$> rows df !! 0%nat = Some (Fin 100) /\
    price <$> rows df !! 3%nat = Some (Fin 110) /\
    fmul (fdiv (fsub (Fin 110) (Fin 100)) (Fin 100)) (Fin 100) = Fin 10 /\
    column 3 (future_change df) = Some col /\
    col !! 0%nat = Some NaN.
Proof.
  eexists. eexists. split; [vm_compute; reflexivity|].
  repeat split; vm_compute; reflexivity.
Qed.

Lemma future_change_from_row_h_witness :
  exists df col,
    prep_ohlcv_df eight_hours "BTC/USD" by_hour = Some df /\
    column 3 (future_change df) = Some col /\
    col !! 3%nat = Some (Fin 10).
Proof.
  destruct (prep_ohlcv_df eight_hours "BTC/USD" by_hour) as [df|] eqn:E;
    [|by vm_compute in E].
  destruct (future_change_from_row_h eight_hours "BTC/USD" by_hour df 3 3 110 121 E)
    as (col & Hcol & Ht).
  - by apply (bool_decide_unpack _).
  - lia.
  - vm_compute in E. injection E as <-. vm_compute. reflexivity.
  - vm_compute in E. injection E as <-. vm_compute. reflexivity.
  - exists df, col. split; [reflexivity|]. split; [exact Hcol|exact Ht].
Defined.

End ChangeFacts.

(** ** Aggregated bars *)

Module BarFacts.
Import Float Series Prices FloatFacts RollingFacts SeriesFacts ChangeFacts
  FloatSpec ChangeSpec BarSpec.

Lemma is_fin_qv x : is_fin x = true -> x = Fin (qv x).
Proof. by destruct x. Qed.

Lemma Qsum_ext {A} (f g : A -> Q) (l : list A) :
  (forall x, f x == g x)%Q -> (Qsum (map f l) == Qsum (map g l))%Q.
Proof.
  intros H. induction l as [|x l IH]; simpl; [reflexivity|]. by rewrite H, IH.
Qed.

Lemma nansum_Fin (qs : list Q) : nansum (map Fin qs) = fin (Qsum qs).
Proof.
  unfold nansum. rewrite dropna_notnan; [apply fsum_Fin|].
  apply Forall_forall. intros x Hx. apply list_elem_of_In, in_map_iff in Hx.
  by destruct Hx as (q & <- & _).
Qed.

Lemma nansum_finite {A} (f : A -> fl) (q : A -> Q) (l : list A) :
  Forall (fun x => f x = fin (q x)) l ->
  nansum (map f l) = fin (Qsum (map q l)).
Proof.
  intros H.
  assert (map f l = map Fin (map (fun x => Qred (q x)) l)) as ->.
  { rewrite map_map. induction H as [|x l Hx _ IH]; simpl; [done|].
    by rewrite Hx, IH. }
  rewrite nansum_Fin. apply fin_eq. apply Qsum_ext. intros x. apply Qred_correct.
Qed.

Lemma nansum_is_fin {A} (f : A -> fl) (l : list A) :
  Forall (fun x => is_fin (f x) = true) l ->
  nansum (map f l) = fin (Qsum (map (fun x => qv (f x)) l)).
Proof.
  intros H.
  assert (map f l = map Fin (map (fun x => qv (f x)) l)) as ->.
  { rewrite map_map. induction H as [|x l Hx _ IH]; simpl; [done|].
    by rewrite <- (is_fin_qv _ Hx), IH. }
  apply nansum_Fin.
Qed.

Lemma key_of_weight agg_level c : key_of agg_level (weight c) = key_of agg_level c.
Proof. unfold key_of. apply map_ext. by intros []. Qed.

Lemma group_of_weight agg_level df k :
  group_of agg_level (map weight df) k = map weight (group_of agg_level df k).
Proof.
  unfold group_of. induction df as [|c df IH]; [done|].
  simpl. rewrite !filter_cons, key_of_weight, IH. by case_decide.
Qed.

Lemma group_of_Forall (P : candle -> Prop) agg_level df k :
  Forall P df -> Forall P (group_of agg_level df k).
Proof.
  rewrite !Forall_forall. intros H c Hc. apply H.
  by apply list_elem_of_filter in Hc as [_ ?].
Qed.

Lemma basic_prep_elem fetched coin_name agg_level b :
  b ∈ basic_prep_ohlcv_df fetched coin_name agg_level ->
  b = agg_bar (coin_column coin_name agg_level) (bkey b)
        (map weight (group_of agg_level fetched (bkey b))).
Proof.
  unfold basic_prep_ohlcv_df. intros Hb.
  apply list_elem_of_In, in_map_iff in Hb as (k & <- & _).
  by rewrite group_of_weight.
Qed.

Lemma fdiv_fin a b : (0 < b)%Q -> fdiv (fin a) (fin b) = fin (a / b).
Proof.
  intros Hb. unfold fin at 1 2. simpl.
  destruct (Qeq_bool (Qred b) 0) eqn:E.
  - apply Qeq_bool_iff in E. rewrite Qred_correct in E. rewrite E in Hb.
    by apply Qlt_irrefl in Hb.
  - apply fin_eq. by rewrite !Qred_correct.
Qed.

Lemma nanmean_pair a b : nanmean [fin a; fin b] = fin ((a + b) / 2).
Proof.
  unfold nanmean. simpl. apply fin_eq. rewrite !Qred_correct.
  field.
Qed.

Lemma in_bucket_key agg_level k c : in_bucket agg_level k c <-> key_of agg_level c = k.
Proof.
  unfold in_bucket, key_of. revert k.
  induction agg_level as [|col agg IH]; intros k.
  - split; [by intros ->%Forall2_nil_inv_l|intros <-; constructor].
  - split.
    + intros (v & k' & Hv & Hk & ->)%Forall2_cons_inv_l. simpl. f_equal; [done|].
      by apply IH.
    + intros <-. simpl. constructor; [done|]. by apply IH.
Qed.

Lemma bucket_group agg_level fetched k :
  bucket agg_level fetched k = group_of agg_level fetched k.
Proof.
  unfold bucket, group_of. induction fetched as [|c fetched IH]; [done|].
  rewrite !filter_cons, IH.
  destruct (decide (key_of agg_level c = k)) as [E|E].
  - by rewrite decide_True by (by apply in_bucket_key).
  - by rewrite decide_False by (by rewrite in_bucket_key).
Qed.

(** C5, amended: for every aggregated bar whose raw candles, the fetched
    candles that carry the bar's key in the grouping columns, all have
    finite fields and a positive total volume, the price is the mean of
    the volume-weighted average open and the volume-weighted average
    close of those candles, and volume_usd == volume * price holds. *)
Theorem aggregated_bar_price (fetched : list candle) (coin_name : string)
    (agg_level : list keycol) (b : bar) :
  b ∈ basic_prep_ohlcv_df fetched coin_name agg_level ->
  let g := bucket agg_level fetched (bkey b) in
  Forall finite_candle g ->
  (0 < total_volume g)%Q ->
  b_volume b = fin (total_volume g) /\
  price b = fin ((vwap open g + vwap close g) / 2) /\
  volume_usd b = fmul (b_volume b) (price b) /\
  feqb (volume_usd b) (fmul (b_volume b) (price b)) = true.
Proof.
  intros Hb g Hg Hvol.
  pose proof (basic_prep_elem _ _ _ _ Hb) as Eb.
  rewrite <- bucket_group in Eb. fold g in Eb.
  assert (forall c, finite_candle c ->
            is_fin (open c) = true /\ is_fin (close c) = true /\ is_fin (volume c) = true)
    as Hfields.
  { intros c Hc. unfold finite_candle in Hc. rewrite !andb_true_iff in Hc. tauto. }
  assert (nansum (map volume (map weight g)) = fin (total_volume g)) as Evol.
  { rewrite map_map. apply (nansum_is_fin (fun c => volume (weight c))).
    eapply Forall_impl; [exact Hg|]. intros c Hc.
    exact (proj2 (proj2 (Hfields c Hc))). }
  assert (forall f : candle -> fl,
            (forall c, finite_candle c -> is_fin (f c) = true) ->
            forall f', (forall c, f' (weight c) = fmul (f c) (volume c)) ->
            fdiv (nansum (map f' (map weight g))) (fin (total_volume g)) = fin (vwap f g))
    as Havg.
  { intros f Hf f' Hf'. rewrite map_map.
    rewrite (nansum_finite _ (fun c => qv (f c) * qv (volume c))%Q).
    - by apply fdiv_fin.
    - eapply Forall_impl; [exact Hg|]. intros c Hc. simpl. rewrite Hf'.
      rewrite (is_fin_qv (f c)) at 1 by (by apply Hf).
      rewrite (is_fin_qv (volume c)) at 1 by exact (proj2 (proj2 (Hfields c Hc))).
      done. }
  pose proof (Havg open (fun c Hc => proj1 (Hfields c Hc)) open (fun c => eq_refl)) as Eo.
  pose proof (Havg close (fun c Hc => proj1 (proj2 (Hfields c Hc))) close (fun c => eq_refl))
    as Ec.
  rewrite Eb. unfold agg_bar. cbn [b_volume price volume_usd].
  rewrite Evol, Eo, Ec, nanmean_pair.
  repeat split; try done.
  apply Qeq_bool_iff. reflexivity.
Qed.

(** C5 fails as stated on a group with a missing value: of two candles of
    one day with volume 1 each, closes 10 and 20 and the opens missing
    and 20, the weighted open is 20 / 2 = 10, since the sum skips the
    missing product while the volume of its candle still counts, and the
    price is (10 + 15) / 2.  The volume-weighted average open of the two
    raw candles is undefined, or 20 over the candle that has an open;
    the mean with the average close 15 is then undefined or 35 / 2, and
    neither is the price. *)
Lemma price_with_missing_open :
  exists b,
    basic_prep_ohlcv_df missing_open "BTC/USD" by_day = [b] /\
    bucket by_day missing_open (bkey b) = missing_open /\
    b_volume b = Fin 2 /\
    b_open b = Fin 10 /\ b_close b = Fin 15 /\
    price b = Fin (25 # 2) /\
    weighted_mean close missing_open = Fin 15 /\
    weighted_mean open missing_open = NaN /\
    weighted_mean open (having open missing_open) = Fin 20 /\
    mean2 (weighted_mean open missing_open) (weighted_mean close missing_open) = NaN /\
    mean2 (weighted_mean open (having open missing_open)) (weighted_mean close missing_open)
      = Fin (35 # 2) /\
    price b <> NaN /\ price b <> Fin (35 # 2).
Proof.
  eexists. split; [vm_compute; reflexivity|].
  repeat split; try (vm_compute; reflexivity); vm_compute; discriminate.
Qed.

Lemma aggregated_bar_price_witness :
  exists b1 b2,
    basic_prep_ohlcv_df two_buckets "BTC/USD" by_day = [b1; b2] /\
    bucket by_day two_buckets (bkey b1) = take 2 two_buckets /\
    bucket by_day two_buckets (bkey b2) = drop 2 two_buckets /\
    b_volume b1 = Fin 4 /\ price b1 = Fin (37 # 2) /\ volume_usd b1 = Fin 74 /\
    b_volume b2 = Fin 2 /\ price b2 = Fin 30 /\ volume_usd b2 = Fin 60.
Proof.
  eexists. eexists. split; [vm_compute; reflexivity|].
  split; [vm_compute; reflexivity|]. split; [vm_compute; reflexivity|].
  edestruct (aggregated_bar_price two_buckets "BTC/USD" by_day) as (Hv1 & Hp1 & Hu1 & _).
  { apply list_elem_of_In. vm_compute. left. reflexivity. }
  { vm_compute. repeat constructor. }
  { vm_compute. reflexivity. }
  edestruct (aggregated_bar_price two_buckets "BTC/USD" by_day) as (Hv2 & Hp2 & Hu2 & _).
  { apply list_elem_of_In. vm_compute. right. left. reflexivity. }
  { vm_compute. repeat constructor. }
  { vm_compute. reflexivity. }
  split; [exact Hv1|]. split; [exact Hp1|]. split; [exact Hu1|].
  split; [exact Hv2|]. split; [exact Hp2|exact Hu2].
Defined.

End BarFacts.

(** ** Rolling volume statistics *)

Module VolumeFacts.
Import Float Series Prices FloatFacts RollingFacts SeriesFacts ChangeFacts
  BarFacts FloatSpec ChangeSpec BarSpec VolumeSpec.

Lemma fsum_is_fin l : Forall (fun x => is_fin x = true) l -> is_fin (fsum l) = true.
Proof.
  induction 1 as [|x l Hx _ IH]; [done|].
  simpl. destruct x; try done. by destruct (fsum l).
Qed.

Lemma fsum_nonneg l : Forall nonneg l -> nonneg (fsum l).
Proof.
  induction 1 as [|x l (p & -> & Hp) _ (q & Hq & Hq0)].
  - exists 0%Q. split; [done|]. apply Qle_refl.
  - simpl. rewrite Hq. simpl. eexists. split; [done|].
    rewrite Qred_correct. rewrite <- (Qplus_0_r 0). by apply Qplus_le_compat.
Qed.

Lemma of_nat_pos n : (1 <= n)%nat -> Qeq_bool (inject_Z (Z.of_nat n)) 0 = false.
Proof.
  intros Hn. destruct (Qeq_bool _ 0) eqn:E; [|done].
  apply Qeq_bool_iff in E. unfold Qeq in E. simpl in E. lia.
Qed.

Lemma fdiv_of_nat_is_fin x n :
  is_fin x = true -> (1 <= n)%nat -> is_fin (fdiv x (of_nat n)) = true.
Proof.
  intros Hx Hn. destruct x; try done. unfold of_nat, of_Z. simpl.
  by rewrite of_nat_pos.
Qed.

Lemma fdiv_of_nat_nonneg x n : nonneg x -> (1 <= n)%nat -> nonneg (fdiv x (of_nat n)).
Proof.
  intros (q & -> & Hq) Hn. unfold of_nat, of_Z. simpl. rewrite of_nat_pos by done.
  eexists. split; [done|]. rewrite Qred_correct.
  apply Qle_shift_div_l; [|by rewrite Qmult_0_l].
  unfold Qlt. simpl. lia.
Qed.

Lemma mean_is_fin v :
  Forall (fun x => is_fin x = true) v -> (1 <= length v)%nat -> is_fin (mean v) = true.
Proof. intros Hv Hn. unfold mean. by apply fdiv_of_nat_is_fin; [apply fsum_is_fin|]. Qed.

Lemma square_nonneg x : is_fin x = true -> nonneg (fmul x x).
Proof.
  destruct x as [q| | |]; try done. intros _. simpl. eexists. split; [done|].
  rewrite Qred_correct. unfold Qle. simpl. nia.
Qed.

Lemma fsub_is_fin x y : is_fin x = true -> is_fin y = true -> is_fin (fsub x y) = true.
Proof. by destruct x, y. Qed.

Lemma var_nonneg v :
  Forall (fun x => is_fin x = true) v -> (2 <= length v)%nat -> nonneg (var v).
Proof.
  intros Hv Hn. unfold var.
  destruct (Nat.leb_spec (length v) 1); [lia|].
  apply fdiv_of_nat_nonneg; [|lia]. apply fsum_nonneg.
  apply Forall_forall. intros y Hy. apply list_elem_of_In, in_map_iff in Hy as (x & <- & Hx).
  apply square_nonneg, fsub_is_fin.
  - rewrite Forall_forall in Hv. apply Hv. by apply list_elem_of_In.
  - apply mean_is_fin; [done|lia].
Qed.

Lemma std_is_fin v :
  Forall (fun x => is_fin x = true) v -> (2 <= length v)%nat -> is_fin (std v) = true.
Proof.
  intros Hv Hn. unfold std. destruct (var_nonneg v Hv Hn) as (q & -> & Hq).
  simpl. apply Qle_bool_iff in Hq. by rewrite Hq.
Qed.

(** Dividing a finite cell by a finite cell that is not zero gives a
    number; only 0/0 gives NaN. *)
Lemma fdiv_notnan x y :
  is_fin x = true -> is_fin y = true -> feqb y (Fin 0) = false -> isnan (fdiv x y) = false.
Proof.
  destruct x as [p| | |], y as [q| | |]; try done. simpl. by intros _ _ ->.
Qed.

Lemma volumes_finite fetched coin_name agg_level :
  Forall (fun c => is_fin (volume c) = true) fetched ->
  Forall (fun x => is_fin x = true)
    (map b_volume (basic_prep_ohlcv_df fetched coin_name agg_level)).
Proof.
  intros Hv. unfold basic_prep_ohlcv_df. rewrite map_map. apply Forall_forall.
  intros x Hx. apply list_elem_of_In, in_map_iff in Hx as (k & <- & _).
  cbn [agg_bar b_volume]. rewrite group_of_weight, map_map.
  rewrite (nansum_is_fin (fun c => volume (weight c))); [done|].
  apply group_of_Forall. exact Hv.
Qed.

Lemma prep_total fetched coin_name agg_level :
  (forall k, k ∈ selected -> k ∈ agg_level) ->
  is_Some (prep_ohlcv_df fetched coin_name agg_level).
Proof.
  intros H. unfold prep_ohlcv_df.
  assert (forallb (fun k => bool_decide (k ∈ agg_level)) selected = true) as ->; [|done].
  apply forallb_forall. intros k Hk. apply bool_decide_eq_true_2, H.
  by apply list_elem_of_In.
Qed.

Lemma avg_volume_length h v : length (avg_volume_col h v) = length v.
Proof. apply rolling_length. Qed.

Lemma volatility_volume_length h v : length (volatility_volume_col h v) = length v.
Proof.
  unfold volatility_volume_col. rewrite length_zip_with.
  unfold rolling_std, avg_volume_col, rolling_mean. rewrite !rolling_length. lia.
Qed.

(** C6, amended: for every input with finite volumes grouped so that
    the selected columns exist, [prep_ohlcv_df] returns a frame however
    short the history is, and for every configured volume window [h]:
    avg_volume_h and volatility_volume_h are NaN in the first [h - 1] rows;
    from row [h - 1] on avg_volume_h is a number, and volatility_volume_h
    is a number wherever that average is not zero. *)
Theorem rolling_volume_columns (fetched : list candle) (coin_name : string)
    (agg_level : list keycol) (h : nat) :
  h ∈ volume_hours ->
  Forall (fun c => is_fin (volume c) = true) fetched ->
  (forall k, k ∈ selected -> k ∈ agg_level) ->
  exists df avg vol,
    prep_ohlcv_df fetched coin_name agg_level = Some df /\
    column h (avg_volume df) = Some avg /\
    column h (volatility_volume df) = Some vol /\
    length avg = length (rows df) /\ length vol = length (rows df) /\
    forall t, (t < length (rows df))%nat ->
      ((t < h - 1)%nat -> avg !! t = Some NaN /\ vol !! t = Some NaN) /\
      ((h - 1 <= t)%nat ->
         isnan (cell avg t) = false /\
         (feqb (cell avg t) (Fin 0) = false -> isnan (cell vol t) = false)).
Proof.
  intros Hh Hfin Hsel.
  destruct (prep_total fetched coin_name agg_level Hsel) as [df Hdf].
  destruct (prep_Some _ _ _ _ Hdf) as (Hrows & _ & Hcols).
  destruct (Hcols h Hh) as [Ha Hv].
  set (v := map b_volume (rows df)) in *.
  assert (length v = length (rows df)) as Lv by apply length_map.
  assert (Forall (fun x => is_fin x = true) v) as Hvfin.
  { subst v. rewrite Hrows. by apply volumes_finite. }
  assert (6 <= h)%nat as Hh6.
  { unfold volume_hours in Hh. rewrite !elem_of_cons in Hh.
    destruct Hh as [->|[->|[->|[->|[->|[->|[->|Hh]]]]]]]; try lia.
    by apply elem_of_nil in Hh. }
  exists df, (avg_volume_col h v), (volatility_volume_col h v).
  split; [done|]. split; [done|]. split; [done|].
  split; [by rewrite avg_volume_length|]. split; [by rewrite volatility_volume_length|].
  intros t Ht. rewrite <- Lv in Ht.
  assert (cell (volatility_volume_col h v) t
          = fdiv (cell (rolling_std false h h v) t) (cell (avg_volume_col h v) t)) as Evol.
  { unfold volatility_volume_col. apply cell_zip_with.
    - unfold rolling_std. by rewrite rolling_length.
    - by rewrite avg_volume_length. }
  split.
  - intros Hth.
    assert (cell (avg_volume_col h v) t = NaN) as Eavg
      by (unfold avg_volume_col, rolling_mean; by apply backward_head_nan).
    rewrite !cell_lookup_Some
      by (rewrite ?avg_volume_length, ?volatility_volume_length; lia).
    rewrite Evol, Eavg. split; [done|].
    by destruct (cell (rolling_std false h h v) t).
  - intros Hth.
    destruct (backward_full h mean v t) as (Em & Lw & Hw); [lia|done|done|done|].
    destruct (backward_full h std v t) as (Es & _ & _); [lia|done|done|done|].
    assert (Forall (fun x => is_fin x = true) (window false h v t)) as Hwfin.
    { eapply Forall_impl; [exact Hw|]. intros x Hx. simpl in Hx.
      rewrite Forall_forall in Hvfin. by apply Hvfin. }
    assert (is_fin (cell (avg_volume_col h v) t) = true) as Fm.
    { unfold avg_volume_col, rolling_mean. rewrite Em. apply mean_is_fin; [done|lia]. }
    assert (is_fin (cell (rolling_std false h h v) t) = true) as Fs.
    { unfold rolling_std. rewrite Es. apply std_is_fin; [done|lia]. }
    split; [by destruct (cell (avg_volume_col h v) t)|].
    intros Hnz. rewrite Evol. by apply fdiv_notnan.
Qed.

(** C6 fails as stated: with six hours of zero volume the window of row
    5 is full, avg_volume_6h is 0 there, and volatility_volume_6h is
    0/0 = NaN. *)
Lemma volatility_nan_on_idle_window :
  exists df avg vol,
    prep_ohlcv_df idle_hours "BTC/USD" by_hour = Some df /\
    length (rows df) = 6%nat /\
    column 6 (avg_volume df) = Some avg /\
    column 6 (volatility_volume df) = Some vol /\
    avg !! 5%nat = Some (Fin 0) /\
    vol !! 5%nat = Some NaN.
Proof.
  eexists. eexists. eexists. split; [vm_compute; reflexivity|].
  repeat split; vm_compute; reflexivity.
Qed.

Lemma rolling_volume_columns_witness :
  exists df avg vol,
    prep_ohlcv_df busy_hours "BTC/USD" by_hour = Some df /\
    column 6 (avg_volume df) = Some avg /\
    column 6 (volatility_volume df) = Some vol /\
    avg !! 4%nat = Some NaN /\ vol !! 4%nat = Some NaN /\
    isnan (cell avg 6) = false.
Proof.
  destruct (rolling_volume_columns busy_hours "BTC/USD" by_hour 6)
    as (df & avg & vol & Hdf & Ha & Hv & La & _ & H).
  - by apply (bool_decide_unpack _).
  - by apply (bool_decide_unpack _).
  - intros k Hk. exact Hk.
  - exists df, avg, vol. split; [exact Hdf|]. split; [exact Ha|]. split; [exact Hv|].
    assert (length (rows df) = 7%nat) as L.
    { vm_compute in Hdf. injection Hdf as <-. reflexivity. }
    destruct (H 4%nat) as [[H4a H4v] _]; [lia|lia|].
    destruct (H 6%nat) as [_ [H6 _]]; [lia|lia|].
    split; [exact H4a|]. split; [exact H4v|exact H6].
Defined.

End VolumeFacts.

(** ** The hourly news grid *)

Module NewsFacts.
Import Float Series News Grouped FloatFacts SortFacts GroupFacts RollingFacts
  EdgeFacts FloatSpec EdgeSpec NewsSpec.

Lemma length_bind_const {A B} (f : A -> list B) (l : list A) (k : nat) :
  (forall x, length (f x) = k) -> length (l ≫= f) = (length l * k)%nat.
Proof.
  intros H. induction l as [|x l IH]; [done|].
  rewrite bind_cons, length_app, H, IH. simpl. lia.
Qed.

Lemma grid_length coins lo hi :
  length (grid coins lo hi) = (length coins * Z.to_nat (hi - lo + 1) * 24)%nat.
Proof.
  unfold grid. rewrite (length_bind_const _ _ (Z.to_nat (hi - lo + 1) * 24)); [lia|].
  intros c. rewrite (length_bind_const _ _ 24).
  - unfold date_range. by rewrite length_map, length_seq.
  - intros d. by rewrite (length_bind_const _ _ 1).
Qed.

Lemma aggregate_keys polarity df :
  map row_key (aggregate polarity df)
  = Sorting.sort key_leb (unique (map article_key df)).
Proof.
  unfold aggregate. rewrite map_map. rewrite <- (map_id (Sorting.sort _ _)) at 2.
  apply map_ext. by intros [[c d] h].
Qed.

Lemma aggregate_keys_NoDup polarity df : NoDup (map row_key (aggregate polarity df)).
Proof.
  rewrite aggregate_keys. rewrite sort_perm. apply NoDup_unique.
Qed.

Lemma aggregate_keys_elem polarity df k :
  k ∈ map row_key (aggregate polarity df) <-> exists a, a ∈ df /\ article_key a = k.
Proof.
  rewrite aggregate_keys, sort_perm, elem_of_unique.
  change (map article_key df) with (article_key <$> df).
  rewrite list_elem_of_fmap. split.
  - intros (a & -> & Ha). by exists a.
  - intros (a & Ha & <-). by exists a.
Qed.

(** With distinct keys at most one row carries a given key. *)
Lemma filter_key_NoDup (df : list news_row) k :
  NoDup (map row_key df) -> (length (filter (fun r => row_key r = k) df) <= 1)%nat.
Proof.
  induction df as [|r df IH]; intros Hnd; [simpl; lia|].
  simpl in Hnd. apply NoDup_cons in Hnd as [Hr Hnd].
  rewrite filter_cons. case_decide as Hk; [|by apply IH].
  simpl. assert (filter (fun r => row_key r = k) df = []) as ->; [|simpl; lia].
  destruct (filter _ df) as [|r' l] eqn:E; [done|].
  exfalso. apply Hr. assert (r' ∈ filter (fun r => row_key r = k) df) as Hin
    by (rewrite E; by left).
  apply list_elem_of_filter in Hin as [Hk' Hin].
  rewrite Hk, <- Hk'. change (map row_key df) with (row_key <$> df).
  by apply list_elem_of_fmap_2.
Qed.

(** The merge of one grid cell yields exactly one row, of that key: a
    row of the frame, or the null row when the frame has none. *)
Lemma merge_cell_one (df : list news_row) k :
  NoDup (map row_key df) ->
  exists r, merge_cell df k = [r] /\ row_key r = k /\
    (r ∈ df \/ (r = null_row k /\ forall r', r' ∈ df -> row_key r' <> k)).
Proof.
  intros Hnd. unfold merge_cell.
  pose proof (filter_key_NoDup df k Hnd) as Hlen.
  destruct (filter _ df) as [|r [|r' l]] eqn:E; simpl in Hlen; [| |lia].
  - eexists. split; [done|]. split; [by destruct k as [[??]?]|]. right.
    split; [done|]. intros r' Hr' Hk.
    assert (r' ∈ filter (fun r => row_key r = k) df) as Hin
      by (by apply list_elem_of_filter).
    rewrite E in Hin. by apply elem_of_nil in Hin.
  - assert (r ∈ filter (fun r => row_key r = k) df) as Hin by (rewrite E; by left).
    apply list_elem_of_filter in Hin as [Hk Hin].
    exists r. split; [done|]. split; [done|]. by left.
Qed.

Lemma add_rolled_core name col (df : list news_row) :
  length col = length df -> map core (add_rolled name col df) = map core df.
Proof.
  intros H. unfold add_rolled.
  change (map core ?l) with (core <$> l). by apply fmap_zip_with_l.
Qed.

Lemma add_rolled_length name col (df : list news_row) :
  length col = length df -> length (add_rolled name col df) = length df.
Proof. intros H. unfold add_rolled. rewrite length_zip_with. lia. Qed.

(** A rolling step reorders the rows and adds columns; keys, counts and
    sentiments stay. *)
Lemma rolling_count_sum_core (df : list news_row) w :
  map core (rolling_count_sum df w) ≡ₚ map core df.
Proof.
  unfold rolling_count_sum.
  rewrite !add_rolled_core.
  - change (map core ?l) with (core <$> l). apply fmap_Permutation, sort_perm.
  - apply transform_length.
  - rewrite transform_length, add_rolled_length; [done|apply transform_length].
Qed.

Lemma Zmin_list_spec d ds :
  Zmin_list d ds ∈ d :: ds /\ forall x, x ∈ d :: ds -> Zmin_list d ds <= x.
Proof.
  unfold Zmin_list. induction ds as [|y ds [IHin IHle]]; simpl.
  - split; [by left|]. intros x Hx. apply list_elem_of_singleton in Hx. lia.
  - split.
    + destruct (Z.min_spec y (foldr Z.min d ds)) as [[_ ->]|[_ ->]].
      * right. by left.
      * apply elem_of_cons in IHin as [->|?]; [by left|]. right. by right.
    + intros x Hx. rewrite !elem_of_cons in Hx.
      destruct Hx as [->|[->|Hx]].
      * etrans; [apply Z.le_min_r|]. apply IHle. by left.
      * apply Z.le_min_l.
      * etrans; [apply Z.le_min_r|]. apply IHle. by right.
Qed.

Lemma Zmax_list_spec d ds :
  Zmax_list d ds ∈ d :: ds /\ forall x, x ∈ d :: ds -> x <= Zmax_list d ds.
Proof.
  unfold Zmax_list. induction ds as [|y ds [IHin IHle]]; simpl.
  - split; [by left|]. intros x Hx. apply list_elem_of_singleton in Hx. lia.
  - split.
    + destruct (Z.max_spec y (foldr Z.max d ds)) as [[_ ->]|[_ ->]].
      * apply elem_of_cons in IHin as [->|?]; [by left|]. right. by right.
      * right. by left.
    + intros x Hx. rewrite !elem_of_cons in Hx.
      destruct Hx as [->|[->|Hx]].
      * etrans; [|apply Z.le_max_r]. apply IHle. by left.
      * apply Z.le_max_l.
      * etrans; [|apply Z.le_max_r]. apply IHle. by right.
Qed.

Lemma merged_keys (df : list news_row) (ks : list key) :
  NoDup (map row_key df) -> map row_key (ks ≫= merge_cell df) = ks.
Proof.
  intros Hnd. induction ks as [|k ks IH]; [done|].
  rewrite bind_cons, map_app, IH.
  destruct (merge_cell_one df k Hnd) as (r & -> & <- & _). done.
Qed.

Lemma aggregate_elem polarity df r :
  r ∈ aggregate polarity df -> exists a, a ∈ df /\ article_key a = row_key r.
Proof.
  intros Hr. apply (aggregate_keys_elem polarity).
  change (map row_key ?l) with (row_key <$> l). by apply list_elem_of_fmap_2.
Qed.

Lemma aggregate_of_article polarity df a :
  a ∈ df -> exists r, r ∈ aggregate polarity df /\ row_key r = article_key a.
Proof.
  intros Ha.
  assert (article_key a ∈ map row_key (aggregate polarity df)) as Hk
    by (apply (aggregate_keys_elem polarity); by exists a).
  change (map row_key ?l) with (row_key <$> l) in Hk.
  apply list_elem_of_fmap in Hk as (r & Hr & Hin). by exists r.
Qed.

Lemma aggregate_coins polarity df :
  unique (map coin (aggregate polarity df)) ≡ₚ unique (map a_coin df).
Proof.
  apply NoDup_Permutation; [apply NoDup_unique..|].
  intros c. rewrite !elem_of_unique.
  change (map ?f ?l) with (f <$> l). rewrite !list_elem_of_fmap. split.
  - intros (r & -> & Hr). destruct (aggregate_elem _ _ _ Hr) as (a & Ha & Hk).
    exists a. split; [|done]. by injection Hk as <- _ _.
  - intros (a & -> & Ha). destruct (aggregate_of_article polarity _ _ Ha) as (r & Hr & Hk).
    exists r. split; [|done]. by injection Hk as -> _ _.
Qed.

Lemma row_key_core (l : list news_row) : map row_key l = map (fun x => x.1.1) (map core l).
Proof. by rewrite map_map. Qed.

(** C2: when [prepare_crypto_news] returns, its rows are, up to order,
    the grid of the coins of the parseable articles, the days from their
    first to their last day, and the hours 0..23, each cell once, so
    |C| x n x 24 rows.  In every cell for which no article exists,
    news_count and news_sentiment are NaN: the two [fillna(0)] run on the
    aggregate before the grid is built, and nothing fills the nulls of
    the left merge. *)
Theorem news_grid (polarity : string -> fl) (all_news : list article) (out : list news_row) :
  prepare_crypto_news polarity all_news = Some out ->
  let coins := unique (map a_coin (parseable all_news)) in
  exists lo hi,
    first_day (parseable all_news) lo /\ last_day (parseable all_news) hi /\
    map row_key out ≡ₚ grid coins lo hi /\
    length out = (length coins * Z.to_nat (hi - lo + 1) * 24)%nat /\
    forall r, r ∈ out ->
      (forall a, a ∈ parseable all_news -> article_key a <> row_key r) ->
      news_count r = NaN /\ news_sentiment r = NaN.
Proof.
  intros H. cbv zeta. unfold prepare_crypto_news in H.
  fold (parseable all_news) in H.
  set (parse := parseable all_news) in *.
  set (coins := unique (map a_coin parse)).
  set (df := aggregate polarity parse) in *.
  destruct (enlarge_dataframe df) as [g|] eqn:Eg; [|done]. simpl in H.
  injection H as <-.
  unfold enlarge_dataframe in Eg.
  destruct (map published_day df) as [|d ds] eqn:Ed; [done|].
  injection Eg as <-.
  set (lo := Zmin_list d ds). set (hi := Zmax_list d ds).
  fold (grid (unique (map coin df)) lo hi).
  set (g := grid (unique (map coin df)) lo hi ≫= merge_cell df).
  pose proof (aggregate_keys_NoDup polarity parse) as Hnd. fold df in Hnd.
  assert (forall x, x ∈ d :: ds <-> exists a, a ∈ parse /\ a_day a = x) as Hdays.
  { intros x. rewrite <- Ed. change (map ?f ?l) with (f <$> l).
    rewrite list_elem_of_fmap. split.
    - intros (r & -> & Hr). destruct (aggregate_elem _ _ _ Hr) as (a & Ha & Hk).
      exists a. split; [done|]. by injection Hk as _ <- _.
    - intros (a & Ha & <-).
      destruct (aggregate_of_article polarity _ _ Ha) as (r & Hr & Hk).
      exists r. split; [|done]. by injection Hk as _ -> _. }
  assert (map core (rolling_count_sum (rolling_count_sum (rolling_count_sum
            (rolling_count_sum g 3) 6) 12) 24) ≡ₚ map core g) as Hcore.
  { by rewrite !rolling_count_sum_core. }
  set (out := rolling_count_sum _ 24) in *.
  assert (map row_key out ≡ₚ grid coins lo hi) as Hkeys.
  { rewrite row_key_core.
    change (map (fun x : key * fl * fl => x.1.1) (map core out))
      with ((fun x : key * fl * fl => x.1.1) <$> map core out).
    rewrite Hcore. change (?f <$> map core g) with (map f (map core g)).
    rewrite <- row_key_core. unfold g. rewrite merged_keys by done.
    unfold grid, coins, df. by rewrite (aggregate_coins polarity parse). }
  exists lo, hi. split; [|split; [|split; [|split]]].
  - destruct (Zmin_list_spec d ds) as [Hin Hle]. split.
    + by apply Hdays.
    + intros a Ha. apply Hle, Hdays. by exists a.
  - destruct (Zmax_list_spec d ds) as [Hin Hle]. split.
    + by apply Hdays.
    + intros a Ha. apply Hle, Hdays. by exists a.
  - exact Hkeys.
  - rewrite <- grid_length, <- Hkeys. by rewrite length_map.
  - intros r Hr Hno.
    assert (core r ∈ map core g) as Hc.
    { rewrite <- Hcore. change (map core out) with (core <$> out).
      by apply list_elem_of_fmap_2. }
    change (map core g) with (core <$> g) in Hc.
    apply list_elem_of_fmap in Hc as (r0 & Hcr & Hr0).
    unfold g in Hr0. apply list_elem_of_bind in Hr0 as (k & Hr0 & _).
    destruct (merge_cell_one df k Hnd) as (r1 & E1 & Hk1 & Hcase).
    rewrite E1 in Hr0. apply list_elem_of_singleton in Hr0 as ->.
    pose proof (f_equal (fun x : key * fl * fl => x.1.1) Hcr) as Hkey.
    pose proof (f_equal (fun x : key * fl * fl => x.1.2) Hcr) as Hcount.
    pose proof (f_equal (fun x : key * fl * fl => x.2) Hcr) as Hsent.
    simpl in Hkey, Hcount, Hsent.
    destruct Hcase as [Hin|[-> _]].
    + exfalso. destruct (aggregate_elem _ _ _ Hin) as (a & Ha & Hka).
      apply (Hno a Ha). congruence.
    + by rewrite Hcount, Hsent.
Qed.

Lemma default_Some {A} (d : A) (o : option A) : is_Some o -> o = Some (default d o).
Proof. by intros [x ->]. Qed.

Lemma news_grid_witness :
  prepare_crypto_news neutral three_days = Some three_days_grid /\
  length three_days_grid = 144%nat /\
  row_key hour_one = ("Bitcoin", 10, 1) /\
  news_count hour_one = NaN /\ news_sentiment hour_one = NaN.
Proof.
  assert (prepare_crypto_news neutral three_days = Some three_days_grid) as E.
  { apply default_Some. apply (bool_decide_unpack _). vm_compute. exact I. }
  split; [exact E|]. split; [vm_compute; reflexivity|].
  split; [vm_compute; reflexivity|].
  destruct (news_grid neutral three_days three_days_grid E)
    as (lo & hi & _ & _ & _ & _ & Hnan).
  apply Hnan.
  - apply list_elem_of_lookup. exists 1%nat. apply default_Some.
    apply (bool_decide_unpack _). vm_compute. exact I.
  - apply Forall_forall. apply (bool_decide_unpack _). vm_compute. exact I.
Defined.

End NewsFacts.

(** ** The order of the group keys *)

Module KeyFacts.
Import Float Series Prices Sorting KeySpec.

Lemma list_Z_leb_refl a : list_Z_leb a a = true.
Proof.
  induction a as [|x a IH]; [done|]. simpl.
  rewrite Z.ltb_irrefl, Z.eqb_refl, IH. done.
Qed.

Lemma list_Z_leb_total a b : list_Z_leb a b = true \/ list_Z_leb b a = true.
Proof.
  revert b. induction a as [|x a IH]; intros [|y b]; simpl; auto.
  destruct (Z.ltb_spec x y), (Z.ltb_spec y x), (Z.eqb_spec x y), (Z.eqb_spec y x);
    simpl; auto; try lia.
Qed.

Lemma list_Z_leb_antisym a b :
  list_Z_leb a b = true -> list_Z_leb b a = true -> a = b.
Proof.
  revert b. induction a as [|x a IH]; intros [|y b]; simpl; try done.
  destruct (Z.ltb_spec x y), (Z.ltb_spec y x), (Z.eqb_spec x y), (Z.eqb_spec y x);
    simpl; try lia; try done.
  intros Ha Hb. f_equal; [done|]. by apply IH.
Qed.

Lemma list_Z_leb_trans a b c :
  list_Z_leb a b = true -> list_Z_leb b c = true -> list_Z_leb a c = true.
Proof.
  revert b c. induction a as [|x a IH]; intros [|y b] [|z c]; simpl; try done.
  destruct (Z.ltb_spec x y), (Z.ltb_spec y z), (Z.ltb_spec x z),
    (Z.eqb_spec x y), (Z.eqb_spec y z), (Z.eqb_spec x z);
    simpl; try lia; try done.
  apply IH.
Qed.

Lemma key_lt_trans a b c : key_lt a b -> key_lt b c -> key_lt a c.
Proof.
  intros [Hab Nab] [Hbc Nbc]. split; [by eapply list_Z_leb_trans|].
  intros ->. apply Nab. by apply list_Z_leb_antisym.
Qed.

Lemma add_key_elem k ks x : x ∈ add_key k ks <-> x = k \/ x ∈ ks.
Proof.
  induction ks as [|k' ks IH]; simpl.
  - rewrite list_elem_of_singleton. split; [auto|]. intros [?|H]; [done|].
    by apply elem_of_nil in H.
  - case_decide as E; [subst; rewrite elem_of_cons; tauto|].
    destruct (list_Z_leb k k'); rewrite !elem_of_cons; [tauto|].
    rewrite IH. tauto.
Qed.

Lemma add_key_sorted k ks :
  StronglySorted key_lt ks -> StronglySorted key_lt (add_key k ks).
Proof.
  induction 1 as [|k' ks Hs IH Hall]; simpl; [by repeat constructor|].
  case_decide as E; [by constructor|].
  destruct (list_Z_leb k k') eqn:L.
  - constructor; [by constructor|]. constructor; [done|].
    eapply Forall_impl; [exact Hall|]. intros x Hx. by apply (key_lt_trans _ k').
  - constructor; [done|]. apply Forall_forall. intros x Hx.
    apply add_key_elem in Hx as [->|Hx].
    + split; [|done]. destruct (list_Z_leb_total k k'); [congruence|done].
    + rewrite Forall_forall in Hall. by apply Hall.
Qed.

Lemma group_keys_sorted agg_level df : StronglySorted key_lt (group_keys agg_level df).
Proof.
  unfold group_keys. induction df as [|c df IH]; simpl; [constructor|].
  by apply add_key_sorted.
Qed.

Lemma group_keys_elem agg_level df k :
  k ∈ group_keys agg_level df <-> exists c, c ∈ df /\ key_of agg_level c = k.
Proof.
  unfold group_keys. induction df as [|c df IH]; simpl.
  - split; [by intros H%elem_of_nil|]. by intros (c & H%elem_of_nil & _).
  - rewrite add_key_elem, IH. split.
    + intros [->|(c' & Hc' & <-)]; [exists c; split; [by left|done]|].
      exists c'. split; [by right|done].
    + intros (c' & Hc' & <-). apply elem_of_cons in Hc' as [->|Hc']; [by left|].
      right. by exists c'.
Qed.

Lemma sorted_NoDup ks : StronglySorted key_lt ks -> NoDup ks.
Proof.
  induction 1 as [|k ks Hs IH Hall]; constructor; [|done].
  intros Hin. rewrite Forall_forall in Hall. by destruct (Hall k Hin).
Qed.

End KeyFacts.

(** ** One bar per group *)

Module BucketFacts.
Import Float Series Prices FloatFacts GroupFacts ChangeFacts BarFacts KeyFacts
  FloatSpec ChangeSpec BarSpec VolumeSpec KeySpec.

Lemma basic_prep_keys fetched coin_name agg_level :
  map bkey (basic_prep_ohlcv_df fetched coin_name agg_level)
  = group_keys agg_level (map weight fetched).
Proof.
  unfold basic_prep_ohlcv_df. rewrite map_map. simpl. apply map_id.
Qed.

(** X3: grouped by at least one column, [basic_prep_ohlcv_df] returns
    exactly one bar for every group key that occurs among the fetched
    candles, the bars in strictly ascending key order; the bars carry the
    coin name of the call when the coin is among the grouping columns,
    and the frame has no coin column when it is not. *)
Theorem one_bar_per_bucket (fetched : list candle) (coin_name : string)
    (agg_level : list keycol) :
  agg_level <> [] ->
  let out := basic_prep_ohlcv_df fetched coin_name agg_level in
  StronglySorted key_lt (map bkey out) /\
  NoDup (map bkey out) /\
  (forall k, k ∈ map bkey out <-> exists c, c ∈ fetched /\ in_bucket agg_level k c) /\
  (KCoin ∈ agg_level -> Forall (fun b => coin b = Some coin_name) out) /\
  (KCoin ∉ agg_level -> Forall (fun b => coin b = None) out).
Proof.
  intros _. cbv zeta.
  assert (Forall (fun b => coin b = coin_column coin_name agg_level)
            (basic_prep_ohlcv_df fetched coin_name agg_level)) as Hcoin.
  { unfold basic_prep_ohlcv_df. apply Forall_forall. intros b Hb.
    by apply list_elem_of_In, in_map_iff in Hb as (k & <- & _). }
  rewrite basic_prep_keys.
  pose proof (group_keys_sorted agg_level (map weight fetched)) as Hs.
  split; [done|]. split; [by apply sorted_NoDup|]. split; [|split].
  - intros k. rewrite group_keys_elem. split.
    + intros (c & Hc & <-). apply list_elem_of_In, in_map_iff in Hc as (c0 & <- & Hc0).
      exists c0. split; [by apply list_elem_of_In|].
      apply in_bucket_key. symmetry. apply key_of_weight.
    + intros (c & Hc & Hk). apply in_bucket_key in Hk as <-.
      exists (weight c). split; [|apply key_of_weight].
      apply list_elem_of_In, in_map_iff. exists c. split; [done|]. by apply list_elem_of_In.
  - intros Hin. eapply Forall_impl; [exact Hcoin|]. intros b ->.
    unfold coin_column. by rewrite bool_decide_eq_true_2.
  - intros Hin. eapply Forall_impl; [exact Hcoin|]. intros b ->.
    unfold coin_column. by rewrite bool_decide_eq_false_2.
Qed.

Lemma one_bar_per_bucket_witness :
  NoDup (map bkey (basic_prep_ohlcv_df eight_hours "BTC/USD" by_hour)) /\
  Forall (fun b => coin b = Some "BTC/USD") (basic_prep_ohlcv_df eight_hours "BTC/USD" by_hour) /\
  Forall (fun b => coin b = None) (basic_prep_ohlcv_df eight_hours "BTC/USD" [KDay]).
Proof.
  destruct (one_bar_per_bucket eight_hours "BTC/USD" by_hour) as (_ & Hn & _ & Hc & _);
    [discriminate|].
  destruct (one_bar_per_bucket eight_hours "BTC/USD" [KDay]) as (_ & _ & _ & _ & Hd);
    [discriminate|].
  split; [exact Hn|]. split.
  - apply Hc. by apply (bool_decide_unpack _).
  - apply Hd. by apply (bool_decide_unpack _).
Defined.

(** The sum of lists that agree up to order. *)
Lemma Qsum_perm (l k : list Q) : l ≡ₚ k -> (Qsum l == Qsum k)%Q.
Proof.
  induction 1 as [|x l k _ IH|x y l|l k m _ IH1 _ IH2]; simpl.
  - reflexivity.
  - by rewrite IH.
  - ring.
  - by rewrite IH1.
Qed.

Lemma Qsum_app (l k : list Q) : (Qsum (l ++ k) == Qsum l + Qsum k)%Q.
Proof. induction l as [|x l IH]; simpl; [ring|]. rewrite IH. ring. Qed.

Lemma Qsum_bind {A} (f : A -> list Q) (l : list A) :
  (Qsum (l ≫= f) == Qsum (map (fun x => Qsum (f x)) l))%Q.
Proof.
  induction l as [|x l IH]; [reflexivity|].
  rewrite bind_cons, Qsum_app, IH. reflexivity.
Qed.

Lemma bar_volume fetched coin_name agg_level k :
  Forall (fun c => is_fin (volume c) = true) fetched ->
  b_volume (agg_bar coin_name k (group_of agg_level (map weight fetched) k))
  = fin (total_volume (group_of agg_level fetched k)).
Proof.
  intros Hv. cbn [agg_bar b_volume]. rewrite group_of_weight, map_map.
  apply (nansum_is_fin (fun c => volume (weight c))).
  by apply group_of_Forall.
Qed.

(** X4: the aggregation neither loses nor invents volume: with finite
    volumes, the volumes of the bars add up to the volumes of the fetched
    candles. *)
Theorem volume_is_conserved (fetched : list candle) (coin_name : string)
    (agg_level : list keycol) :
  agg_level <> [] ->
  Forall (fun c => is_fin (volume c) = true) fetched ->
  (Qsum (map (fun b => qv (b_volume b)) (basic_prep_ohlcv_df fetched coin_name agg_level))
   == total_volume fetched)%Q.
Proof.
  intros _ Hv. unfold basic_prep_ohlcv_df. rewrite map_map.
  set (keys := group_keys agg_level (map weight fetched)).
  transitivity (Qsum (map (fun k => total_volume (group_of agg_level fetched k)) keys)).
  { apply Qsum_ext. intros k. rewrite bar_volume by done. simpl. apply Qred_correct. }
  unfold total_volume.
  rewrite <- (Qsum_bind (fun k => map (fun c => qv (volume c)) (group_of agg_level fetched k))).
  apply Qsum_perm.
  change (map ?f fetched) with (f <$> fetched).
  rewrite <- (partition_perm (key_of agg_level) keys fetched).
  - rewrite fmap_bind_list. reflexivity.
  - apply sorted_NoDup, group_keys_sorted.
  - intros c Hc. apply group_keys_elem. exists (weight c). split; [|apply key_of_weight].
    apply list_elem_of_In, in_map_iff. exists c. split; [done|]. by apply list_elem_of_In.
Qed.

Lemma volume_is_conserved_witness :
  (Qsum (map (fun b => qv (b_volume b)) (basic_prep_ohlcv_df busy_hours "BTC/USD" by_day))
   == total_volume busy_hours)%Q.
Proof.
  apply (volume_is_conserved busy_hours "BTC/USD" by_day); [discriminate|].
  repeat constructor.
Defined.

Lemma finite_fields c :
  finite_candle c ->
  is_fin (open c) = true /\ is_fin (high c) = true /\ is_fin (low c) = true /\
  is_fin (close c) = true /\ is_fin (volume c) = true.
Proof. unfold finite_candle. rewrite !andb_true_iff. tauto. Qed.

(** The weighted sum of one field over the group, as the aggregation
    computes it. *)
Lemma weighted_sum (f f' : candle -> fl) (g : list candle) :
  Forall finite_candle g ->
  (forall c, finite_candle c -> is_fin (f c) = true) ->
  (forall c, f' (weight c) = fmul (f c) (volume c)) ->
  nansum (map f' (map weight g)) = fin (weighted_total f g).
Proof.
  intros Hg Hf Hf'. rewrite map_map.
  apply (nansum_finite _ (fun c => qv (f c) * qv (volume c))%Q).
  eapply Forall_impl; [exact Hg|]. intros c Hc. simpl. rewrite Hf'.
  rewrite (is_fin_qv (f c)) at 1 by (by apply Hf).
  rewrite (is_fin_qv (volume c)) at 1
    by (by destruct (finite_fields c Hc) as (?&?&?&?&?)). done.
Qed.

Lemma fdiv_fin_zero a b : (a == 0)%Q -> (b == 0)%Q -> fdiv (fin a) (fin b) = NaN.
Proof.
  intros Ha Hb. unfold fin. simpl.
  assert (Qeq_bool (Qred b) 0 = true) as ->
    by (apply Qeq_bool_iff; by rewrite Qred_correct).
  assert (Qsgn (Qred a) = Qsgn 0) as -> by (apply Qsgn_eq; by rewrite Qred_correct).
  done.
Qed.

Lemma fdiv_fin_nz a b : ~ (b == 0)%Q -> fdiv (fin a) (fin b) = fin (a / b).
Proof.
  intros Hb. unfold fin at 1 2. simpl.
  destruct (Qeq_bool (Qred b) 0) eqn:E.
  - apply Qeq_bool_iff in E. rewrite Qred_correct in E. done.
  - apply fin_eq. by rewrite !Qred_correct.
Qed.

Lemma Qsum_zero {A} (f : A -> Q) (l : list A) :
  Forall (fun x => f x == 0)%Q l -> (Qsum (map f l) == 0)%Q.
Proof.
  induction 1 as [|x l Hx _ IH]; simpl; [reflexivity|]. rewrite Hx, IH. ring.
Qed.

(** X5: a group in which nothing was traded gives a bar of volume 0
    whose open, high, low, close, price and volume_usd are all NaN: the
    weighted sums are divided by the zero volume. *)
Theorem idle_bucket_is_nan (fetched : list candle) (coin_name : string)
    (agg_level : list keycol) (b : bar) :
  agg_level <> [] ->
  Forall finite_candle fetched ->
  b ∈ basic_prep_ohlcv_df fetched coin_name agg_level ->
  Forall (fun c => qv (volume c) == 0)%Q (group_of agg_level fetched (bkey b)) ->
  b_volume b = Fin 0 /\
  b_open b = NaN /\ b_high b = NaN /\ b_low b = NaN /\ b_close b = NaN /\
  price b = NaN /\ volume_usd b = NaN.
Proof.
  intros _ Hfin Hb Hzero.
  pose proof (basic_prep_elem _ _ _ _ Hb) as Eb.
  set (g := group_of agg_level fetched (bkey b)) in *.
  assert (Forall finite_candle g) as Hg by (by apply group_of_Forall).
  assert (total_volume g == 0)%Q as Hv by (by apply Qsum_zero).
  assert (nansum (map volume (map weight g)) = fin (total_volume g)) as Evol.
  { rewrite map_map. apply (nansum_is_fin (fun c => volume (weight c))).
    eapply Forall_impl; [exact Hg|]. intros c Hc. by destruct (finite_fields c Hc) as (?&?&?&?&?). }
  assert (forall f f' : candle -> fl,
            (forall c, finite_candle c -> is_fin (f c) = true) ->
            (forall c, f' (weight c) = fmul (f c) (volume c)) ->
            fdiv (nansum (map f' (map weight g))) (fin (total_volume g)) = NaN) as Hnan.
  { intros f f' Hf Hf'. rewrite (weighted_sum f f' g Hg Hf Hf').
    apply fdiv_fin_zero; [|done]. apply Qsum_zero.
    eapply Forall_impl; [exact Hzero|]. intros c Hc. simpl in *. rewrite Hc. ring. }
  rewrite Eb. unfold agg_bar. cbn [b_volume b_open b_high b_low b_close price volume_usd].
  rewrite Evol.
  rewrite (Hnan open open), (Hnan high high), (Hnan low low), (Hnan close close);
    try done; try (intros c Hc; by destruct (finite_fields c Hc) as (?&?&?&?&?)).
  assert (fin (total_volume g) = Fin 0) as -> by (by rewrite (fin_eq _ 0 Hv)).
  done.
Qed.

Lemma idle_bucket_is_nan_witness :
  exists b,
    basic_prep_ohlcv_df idle_hours "BTC/USD" by_day = [b] /\
    b_volume b = Fin 0 /\ price b = NaN /\ volume_usd b = NaN.
Proof.
  eexists. split; [vm_compute; reflexivity|].
  edestruct (idle_bucket_is_nan idle_hours "BTC/USD" by_day) as (Hv & _ & _ & _ & _ & Hp & Hu).
  - discriminate.
  - repeat constructor.
  - apply list_elem_of_In. vm_compute. left. reflexivity.
  - vm_compute. repeat constructor.
  - split; [exact Hv|]. split; [exact Hp|exact Hu].
Defined.

(** X6: a group of a single candle with a volume that is not zero gives
    that candle back: its volume, its four prices, the mean of open and
    close as the price, and volume times price as volume_usd. *)
Theorem single_candle_bucket (fetched : list candle) (coin_name : string)
    (agg_level : list keycol) (b : bar) (c : candle) :
  agg_level <> [] ->
  finite_candle c ->
  ~ (qv (volume c) == 0)%Q ->
  b ∈ basic_prep_ohlcv_df fetched coin_name agg_level ->
  group_of agg_level fetched (bkey b) = [c] ->
  b_volume b = fin (qv (volume c)) /\
  b_open b = fin (qv (open c)) /\ b_high b = fin (qv (high c)) /\
  b_low b = fin (qv (low c)) /\ b_close b = fin (qv (close c)) /\
  price b = fin ((qv (open c) + qv (close c)) / 2) /\
  volume_usd b = fin (qv (volume c) * ((qv (open c) + qv (close c)) / 2)).
Proof.
  intros _ Hc Hv Hb Hg.
  pose proof (basic_prep_elem _ _ _ _ Hb) as Eb. rewrite Hg in Eb.
  assert (Forall finite_candle [c]) as Hfg by (by constructor).
  assert (nansum (map volume (map weight [c])) = fin (qv (volume c))) as Evol.
  { simpl. rewrite (is_fin_qv (volume c)) at 1
      by (by destruct (finite_fields c Hc) as (?&?&?&?&?)).
    unfold nansum. simpl. apply fin_eq. ring. }
  assert (forall f f' : candle -> fl,
            (forall c, finite_candle c -> is_fin (f c) = true) ->
            (forall c, f' (weight c) = fmul (f c) (volume c)) ->
            fdiv (nansum (map f' (map weight [c]))) (fin (qv (volume c))) = fin (qv (f c)))
    as Havg.
  { intros f f' Hf Hf'. rewrite (weighted_sum f f' [c] Hfg Hf Hf').
    rewrite fdiv_fin_nz by done. apply fin_eq.
    unfold weighted_total. simpl. field. done. }
  rewrite Eb. unfold agg_bar. cbn [b_volume b_open b_high b_low b_close price volume_usd].
  rewrite Evol.
  rewrite (Havg open open), (Havg high high), (Havg low low), (Havg close close);
    try done; try (intros c' Hc'; by destruct (finite_fields c' Hc') as (?&?&?&?&?)).
  rewrite nanmean_pair. repeat split; try done.
  unfold fin. simpl. apply fin_eq. by rewrite !Qred_correct.
Qed.

Lemma single_candle_bucket_witness :
  exists b,
    basic_prep_ohlcv_df [busy_candle 0 2] "BTC/USD" by_hour = [b] /\
    b_volume b = Fin 2 /\ price b = Fin 100 /\ volume_usd b = Fin 200.
Proof.
  eexists. split; [vm_compute; reflexivity|].
  edestruct (single_candle_bucket [busy_candle 0 2] "BTC/USD" by_hour)
    with (c := busy_candle 0 2) as (Hv & _ & _ & _ & _ & Hp & Hu).
  - discriminate.
  - reflexivity.
  - vm_compute. discriminate.
  - apply list_elem_of_In. vm_compute. left. reflexivity.
  - vm_compute. reflexivity.
  - split; [exact Hv|]. split; [exact Hp|exact Hu].
Defined.

End BucketFacts.

(** ** Trailing and forward changes, volume levels *)

Module TrendFacts.
Import Float Series Prices FloatFacts RollingFacts SeriesFacts ChangeFacts VolumeFacts
  FloatSpec ChangeSpec.

Lemma ffill_from_notnan last l :
  Forall (fun x => isnan x = false) l -> ffill_from last l = l.
Proof.
  intros H. revert last. induction H as [|x l Hx _ IH]; intros last; [done|].
  simpl. rewrite Hx. by rewrite IH.
Qed.

Lemma ffill_from_length last l : length (ffill_from last l) = length l.
Proof. revert last. induction l as [|x l IH]; intros last; simpl; [done|]. by rewrite IH. Qed.

Lemma change_length h p : length (change_col h p) = length p.
Proof.
  unfold change_col, pct_change, ffill.
  rewrite scale_length, length_zip_with, shift_length, ffill_from_length. lia.
Qed.

Lemma change_cell (h : nat) (p : list fl) (t : nat) :
  Forall (fun x => isnan x = false) p -> (t < length p)%nat ->
  cell (change_col h p) t
  = fmul (fsub (fdiv (cell p t) (cell (shift (Z.of_nat h) p) t)) (Fin 1)) (Fin 100).
Proof.
  intros Hp Ht. unfold change_col, pct_change, ffill. rewrite ffill_from_notnan by done.
  rewrite scale_cell by (rewrite length_zip_with, shift_length; lia).
  rewrite cell_zip_with; [done|done|by rewrite shift_length].
Qed.

Lemma prep_columns fetched coin_name agg_level df :
  prep_ohlcv_df fetched coin_name agg_level = Some df ->
  (forall h, h ∈ change_hours ->
     column h (change df) = Some (change_col h (map price (rows df)))) /\
  (forall h, h ∈ [6; 12; 24]%nat ->
     column h (avg_volume_level df)
     = Some (zip_with fdiv (avg_volume_col h (map b_volume (rows df)))
               (avg_volume_col 336 (map b_volume (rows df))))).
Proof.
  unfold prep_ohlcv_df. case_match; [|done]. intros [= <-]. split.
  - intros h Hh. exact (column_map (fun h => change_col h _) change_hours h Hh).
  - intros h Hh. cbn [avg_volume_level rows].
    rewrite !elem_of_cons in Hh. destruct Hh as [->|[->|[->|Hh]]]; try done.
    by apply elem_of_nil in Hh.
Qed.

(** X7: on a frame without NaN prices, change_h is NaN in the first [h]
    rows and from row [h] on the percent change of the price against the
    price [h] rows before. *)
Theorem trailing_change (fetched : list candle) (coin_name : string)
    (agg_level : list keycol) (df : prepared) (h : nat) :
  prep_ohlcv_df fetched coin_name agg_level = Some df ->
  h ∈ change_hours ->
  Forall (fun b => isnan (price b) = false) (rows df) ->
  exists col,
    column h (change df) = Some col /\ length col = length (rows df) /\
    forall t, (t < length (rows df))%nat ->
      ((t < h)%nat -> col !! t = Some NaN) /\
      (forall a b, (h <= t)%nat ->
         price <$> rows df !! (t - h)%nat = Some (Fin a) ->
         price <$> rows df !! t = Some (Fin b) ->
         col !! t = Some (fmul (fdiv (fsub (Fin b) (Fin a)) (Fin a)) (Fin 100))).
Proof.
  intros Hprep Hh Hp.
  destruct (prep_columns _ _ _ _ Hprep) as [Hcol _].
  set (p := map price (rows df)).
  assert (length p = length (rows df)) as Lp by apply length_map.
  assert (Forall (fun x => isnan x = false) p) as Hp'.
  { subst p. apply Forall_forall. intros x Hx.
    apply list_elem_of_In, in_map_iff in Hx as (b & <- & Hb).
    rewrite Forall_forall in Hp. by apply Hp, list_elem_of_In. }
  exists (change_col h p). split; [by apply Hcol|]. split; [by rewrite change_length|].
  intros t Ht. rewrite <- Lp in Ht.
  rewrite cell_lookup_Some by (by rewrite change_length).
  rewrite change_cell by done. split.
  - intros Hth. rewrite shift_fwd_head by done. f_equal. by destruct (cell p t).
  - intros a b Hth Ha Hb. rewrite <- list_lookup_fmap in Ha, Hb.
    rewrite shift_fwd_cell by done. subst p.
    change (map price (rows df)) with (price <$> rows df).
    rewrite (cell_lookup _ _ _ Ha), (cell_lookup _ _ _ Hb). f_equal. apply pct_forms.
Qed.

Lemma trailing_change_witness :
  exists df col,
    prep_ohlcv_df eight_hours "BTC/USD" by_hour = Some df /\
    column 3 (change df) = Some col /\
    col !! 2%nat = Some NaN /\
    col !! 3%nat = Some (Fin 10).
Proof.
  destruct (prep_ohlcv_df eight_hours "BTC/USD" by_hour) as [df|] eqn:E;
    [|by vm_compute in E].
  destruct (trailing_change eight_hours "BTC/USD" by_hour df 3 E) as (col & Hcol & _ & H).
  - by apply (bool_decide_unpack _).
  - vm_compute in E. injection E as <-. repeat constructor.
  - assert (length (rows df) = 8%nat) as L.
    { vm_compute in E. injection E as <-. reflexivity. }
    exists df, col. split; [reflexivity|]. split; [exact Hcol|].
    destruct (H 2%nat) as [H2 _]; [lia|].
    destruct (H 3%nat) as [_ H3]; [lia|].
    split; [apply H2; lia|].
    apply (H3 100%Q 110%Q); [lia|..];
      vm_compute in E; injection E as <-; vm_compute; reflexivity.
Defined.

Lemma future_change_tail (h : nat) (p : list fl) (t : nat) :
  (t < length p)%nat -> (length p <= t + h)%nat -> cell (future_change_col h p) t = NaN.
Proof.
  intros Ht Hn. unfold future_change_col.
  rewrite scale_cell by (rewrite pct_change_length, shift_length; lia).
  rewrite pct_change_cell by (rewrite shift_length; lia).
  by rewrite shift_back_tail.
Qed.

(** X8: future_change_h is NaN in the first [h] rows and in the last
    [h] rows of the frame. *)
Theorem future_change_edges (fetched : list candle) (coin_name : string)
    (agg_level : list keycol) (df : prepared) (h : nat) :
  prep_ohlcv_df fetched coin_name agg_level = Some df ->
  h ∈ future_hours ->
  exists col,
    column h (future_change df) = Some col /\ length col = length (rows df) /\
    forall t, (t < length (rows df))%nat ->
      (t < h \/ length (rows df) - h <= t)%nat -> col !! t = Some NaN.
Proof.
  intros Hprep Hh.
  destruct (prep_Some _ _ _ _ Hprep) as (_ & Hcol & _).
  set (p := map price (rows df)).
  assert (length p = length (rows df)) as Lp by apply length_map.
  exists (future_change_col h p). split; [by apply Hcol|].
  split; [by rewrite future_change_length|].
  intros t Ht Hedge. rewrite <- Lp in Ht, Hedge.
  rewrite cell_lookup_Some by (by rewrite future_change_length). f_equal.
  destruct (decide (t < h)%nat); [by apply future_change_head|].
  apply future_change_tail; lia.
Qed.

Lemma future_change_edges_witness :
  exists df col,
    prep_ohlcv_df eight_hours "BTC/USD" by_hour = Some df /\
    column 3 (future_change df) = Some col /\
    col !! 0%nat = Some NaN /\ col !! 7%nat = Some NaN.
Proof.
  destruct (prep_ohlcv_df eight_hours "BTC/USD" by_hour) as [df|] eqn:E;
    [|by vm_compute in E].
  destruct (future_change_edges eight_hours "BTC/USD" by_hour df 3 E) as (col & Hcol & _ & H).
  - by apply (bool_decide_unpack _).
  - assert (length (rows df) = 8%nat) as L.
    { vm_compute in E. injection E as <-. reflexivity. }
    exists df, col. split; [reflexivity|]. split; [exact Hcol|].
    split; apply H; lia.
Defined.

(** X9: the three avg_volume_level columns divide by the 336-hour
    average, so they are NaN in the first 335 rows of the frame. *)
Theorem volume_level_needs_336_rows (fetched : list candle) (coin_name : string)
    (agg_level : list keycol) (df : prepared) (h : nat) :
  prep_ohlcv_df fetched coin_name agg_level = Some df ->
  h ∈ [6; 12; 24]%nat ->
  exists col,
    column h (avg_volume_level df) = Some col /\ length col = length (rows df) /\
    forall t, (t < length (rows df))%nat -> (t < 335)%nat -> col !! t = Some NaN.
Proof.
  intros Hprep Hh.
  destruct (prep_columns _ _ _ _ Hprep) as [_ Hcol].
  set (v := map b_volume (rows df)) in *.
  assert (length v = length (rows df)) as Lv by apply length_map.
  eexists. split; [by apply Hcol|].
  split; [rewrite length_zip_with, !avg_volume_length; lia|].
  intros t Ht H335. rewrite <- Lv in Ht.
  rewrite cell_lookup_Some by (rewrite length_zip_with, !avg_volume_length; lia).
  rewrite cell_zip_with by (by rewrite avg_volume_length).
  f_equal. unfold avg_volume_col at 2, rolling_mean.
  rewrite backward_head_nan by (done || lia).
  by destruct (cell (avg_volume_col h v) t).
Qed.

Lemma volume_level_needs_336_rows_witness :
  exists df col,
    prep_ohlcv_df eight_hours "BTC/USD" by_hour = Some df /\
    column 24 (avg_volume_level df) = Some col /\
    col !! 7%nat = Some NaN.
Proof.
  destruct (prep_ohlcv_df eight_hours "BTC/USD" by_hour) as [df|] eqn:E;
    [|by vm_compute in E].
  destruct (volume_level_needs_336_rows eight_hours "BTC/USD" by_hour df 24 E)
    as (col & Hcol & _ & H).
  - by apply (bool_decide_unpack _).
  - assert (length (rows df) = 8%nat) as L.
    { vm_compute in E. injection E as <-. reflexivity. }
    exists df, col. split; [reflexivity|]. split; [exact Hcol|].
    apply H; lia.
Defined.

End TrendFacts.

(** ** Paging through the exchange and collecting the symbols *)

Module FetchFacts.
Import Float Series Prices FloatSpec ChangeSpec BarSpec FetchSpec.

Lemma last_timestamp_cons c l :
  last_timestamp (c :: l) = timestamp (default c (last l)).
Proof.
  unfold last_timestamp. rewrite last_cons. by destruct (last l).
Qed.

(** X1: when every page that is not empty ends at or after the requested
    time and the page limit is positive, [fetch_all_ohlcv] returns: with
    more iterations allowed than there are milliseconds left until now,
    the loop ends, and what it returns is the candles collected before
    followed by the pages of all its requests, in the order of the
    requests: the first at [since], each next one just past the last
    candle of the page before, or [limit] hours on after an empty page,
    until the time reaches [now]. *)
Theorem fetch_loop_terminates (fetch_ohlcv : Z -> list candle) (limit now : Z) :
  1 <= limit ->
  (forall since, fetch_ohlcv since <> [] -> since <= last_timestamp (fetch_ohlcv since)) ->
  forall (fuel : nat) (since : Z) (all_ohlcv : list candle),
    (Z.to_nat (now - since) < fuel)%nat ->
    exists sinces,
      requests fetch_ohlcv limit now since sinces /\
      fetch_loop fuel fetch_ohlcv limit now since all_ohlcv
      = Some (all_ohlcv ++ sinces ≫= fetch_ohlcv).
Proof.
  intros Hlimit Hpage fuel. induction fuel as [|fuel IH]; intros since acc Hfuel; [lia|].
  simpl. destruct (Z.ltb_spec since now) as [Hlt|Hge].
  - destruct (fetch_ohlcv since) as [|c page] eqn:E.
    + destruct (IH (since + limit * 60 * 60 * 1000) acc) as (sinces & Hreq & Hres); [lia|].
      exists (since :: sinces). split.
      * constructor; [done|]. unfold next_since. by rewrite E.
      * by rewrite bind_cons, E.
    + specialize (Hpage since). rewrite E in Hpage.
      destruct (IH (last_timestamp (c :: page) + 1) (acc ++ c :: page))
        as (sinces & Hreq & Hres).
      { assert (since <= last_timestamp (c :: page)) by (by apply Hpage). lia. }
      exists (since :: sinces). split.
      * constructor; [done|]. unfold next_since. by rewrite E.
      * rewrite Hres, bind_cons, E. by rewrite <- app_assoc.
  - exists []. split; [by constructor|]. by rewrite app_nil_r.
Qed.

Lemma fetch_loop_terminates_witness :
  fetch_loop 4 tick 60 3 0 [] = Some (tick 0 ++ tick 1 ++ tick 2) /\
  exists sinces,
    requests tick 60 3 0 sinces /\
    fetch_loop 4 tick 60 3 0 [] = Some ([] ++ sinces ≫= tick).
Proof.
  split; [vm_compute; reflexivity|].
  apply (fetch_loop_terminates tick 60 3).
  - lia.
  - intros since _. unfold tick, last_timestamp. simpl. lia.
  - vm_compute. lia.
Defined.

(** X2: the loop has no exit of its own: when every request before now
    is answered with a page whose last candle lies more than a millisecond
    before now, no number of iterations ends it. *)
Theorem fetch_loop_stuck (fetch_ohlcv : Z -> list candle) (limit now : Z) :
  (forall since, since < now ->
     fetch_ohlcv since <> [] /\ last_timestamp (fetch_ohlcv since) + 1 < now) ->
  forall (fuel : nat) (since : Z) (all_ohlcv : list candle),
    since < now ->
    fetch_loop fuel fetch_ohlcv limit now since all_ohlcv = None.
Proof.
  intros Hpage fuel. induction fuel as [|fuel IH]; intros since acc Hs; [done|].
  simpl. destruct (Z.ltb_spec since now); [|lia].
  destruct (Hpage since Hs) as [Hne Hlast].
  destruct (fetch_ohlcv since) as [|c page]; [done|]. by apply IH.
Qed.

Lemma fetch_loop_stuck_witness : fetch_loop 1000 stale 60 10 0 [] = None.
Proof.
  apply (fetch_loop_stuck stale 60 10); [|lia].
  intros since _. split; [discriminate|]. vm_compute. reflexivity.
Defined.

Lemma add_symbol_prepare_None fetch agg_level sym :
  (exists k, k ∈ selected /\ k ∉ agg_level) ->
  add_symbol fetch agg_level true None sym = None.
Proof.
  intros (k & Hk & Hn). unfold add_symbol. destruct (fetch sym) as [o|]; [|done].
  assert (prep_ohlcv_df o sym agg_level = None) as ->; [|done].
  unfold prep_ohlcv_df.
  assert (forallb (fun k => bool_decide (k ∈ agg_level)) selected = false) as ->; [|done].
  apply not_true_is_false. intros H. rewrite forallb_forall in H.
  apply Hn. eapply bool_decide_eq_true_1, H. by apply list_elem_of_In.
Qed.

(** X10: with [prepare] set, a grouping that lacks one of the columns
    coin, timestamp, weekday, day, hour makes every symbol fail at the
    column selection; the frame stays empty and the call raises at the
    day conversion.  The default grouping is such a one. *)
Theorem prepare_needs_selected_columns (fetch : string -> option (list candle))
    (symbols : list string) (agg_level : list keycol) (k : keycol) :
  k ∈ selected -> k ∉ agg_level ->
  fetch_prepare_crypto_prices fetch symbols agg_level true = None.
Proof.
  intros Hk Hn. unfold fetch_prepare_crypto_prices.
  assert (foldl (add_symbol fetch agg_level true) None symbols = None) as ->; [|done].
  induction symbols as [|sym symbols IH]; [done|].
  simpl. rewrite add_symbol_prepare_None; [done|]. by exists k.
Qed.

Lemma prepare_needs_selected_columns_witness :
  fetch_prepare_crypto_prices all_fetched ["BTC/USD"; "ETH/USD"] by_day true = None.
Proof.
  apply (prepare_needs_selected_columns all_fetched ["BTC/USD"; "ETH/USD"] by_day KHour).
  - by apply (bool_decide_unpack _).
  - by apply (bool_decide_unpack _).
Defined.

Lemma add_symbol_failed fetch agg_level prepare df_prep sym :
  fetch sym = None -> add_symbol fetch agg_level prepare df_prep sym = df_prep.
Proof. intros Ho. unfold add_symbol. by rewrite Ho. Qed.

(** X11: when the fetch of every symbol raises, each exception is
    caught and printed, and the call itself raises at the day
    conversion. *)
Theorem no_fetch_no_frame (fetch : string -> option (list candle))
    (symbols : list string) (agg_level : list keycol) (prepare : bool) :
  Forall (fun sym => fetch sym = None) symbols ->
  fetch_prepare_crypto_prices fetch symbols agg_level prepare = None.
Proof.
  intros H. unfold fetch_prepare_crypto_prices.
  assert (foldl (add_symbol fetch agg_level prepare) None symbols = None) as ->; [|done].
  induction H as [|sym symbols Hs _ IH]; [done|].
  cbn [foldl]. by rewrite add_symbol_failed.
Qed.

Lemma no_fetch_no_frame_witness :
  fetch_prepare_crypto_prices none_fetched ["BTC/USD"; "ETH/USD"] by_day false = None.
Proof.
  apply (no_fetch_no_frame none_fetched ["BTC/USD"; "ETH/USD"] by_day false).
  repeat constructor.
Defined.

Lemma add_symbol_basic fetch agg_level acc sym :
  add_symbol fetch agg_level false (Some (Basic acc)) sym
  = Some (Basic (acc ++ bars_of fetch agg_level sym)).
Proof.
  unfold add_symbol, bars_of. destruct (fetch sym); simpl; [done|].
  by rewrite (right_id_L [] app).
Qed.

Lemma add_symbol_first fetch agg_level sym :
  is_Some (fetch sym) ->
  add_symbol fetch agg_level false None sym
  = Some (Basic (bars_of fetch agg_level sym)).
Proof. intros [o Ho]. unfold add_symbol, bars_of. by rewrite Ho. Qed.

Lemma foldl_basic fetch agg_level symbols acc :
  foldl (add_symbol fetch agg_level false) (Some (Basic acc)) symbols
  = Some (Basic (acc ++ symbols ≫= bars_of fetch agg_level)).
Proof.
  revert acc. induction symbols as [|sym symbols IH]; intros acc.
  - simpl. by rewrite (right_id_L [] app).
  - rewrite bind_cons. cbn [foldl]. rewrite add_symbol_basic, IH.
    by rewrite (assoc_L app).
Qed.

(** X12: without [prepare], grouped by the day among other columns and
    with at least one symbol fetched, the call returns the bars of the
    fetched symbols in the order of the symbol list; a symbol whose fetch
    raised contributes nothing. *)
Theorem failed_symbols_are_skipped (fetch : string -> option (list candle))
    (symbols : list string) (agg_level : list keycol) :
  KDay ∈ agg_level ->
  Exists (fun sym => is_Some (fetch sym)) symbols ->
  fetch_prepare_crypto_prices fetch symbols agg_level false
  = Some (Basic (symbols ≫= bars_of fetch agg_level)).
Proof.
  intros Hday Hex. unfold fetch_prepare_crypto_prices.
  assert (foldl (add_symbol fetch agg_level false) None symbols
          = Some (Basic (symbols ≫= bars_of fetch agg_level))) as ->.
  { induction symbols as [|sym symbols IH]; [by apply Exists_nil in Hex|].
    rewrite bind_cons. cbn [foldl].
    destruct (fetch sym) as [o|] eqn:Ho.
    - rewrite add_symbol_first by (by rewrite Ho). apply foldl_basic.
    - rewrite add_symbol_failed by done.
      assert (bars_of fetch agg_level sym = []) as -> by (unfold bars_of; by rewrite Ho).
      apply IH. apply Exists_cons in Hex as [[? Hs]|?]; [congruence|done]. }
  simpl. by rewrite (bool_decide_eq_true_2 _ Hday).
Qed.

Lemma failed_symbols_are_skipped_witness :
  fetch_prepare_crypto_prices only_btc ["ETH/USD"; "BTC/USD"] by_day false
  = Some (Basic (basic_prep_ohlcv_df one_day "BTC/USD" by_day)).
Proof.
  rewrite (failed_symbols_are_skipped only_btc ["ETH/USD"; "BTC/USD"] by_day).
  - reflexivity.
  - by apply (bool_decide_unpack _).
  - apply Exists_cons_tl, Exists_cons_hd. by eexists.
Defined.

End FetchFacts.

(** ** Cluster numbers along the price order *)

Module ScanFacts.
Import Float Series Engineering JoinFacts LevelSpec ScanSpec.

Section Scan.
Context (thres : fl) (prices : list fl).
Let n := length prices.

Lemma scanned_S k :
  scanned thres prices (S k) = scan_step thres prices (scanned thres prices k) k.
Proof. unfold scanned. by rewrite seq_S, foldl_app. Qed.

Lemma scanned_length k : length (scanned thres prices k) = n.
Proof. unfold scanned. by rewrite scan_length, length_seq. Qed.

(** A step writes row [k + 1] only. *)
Lemma scan_step_other lv k j : j <> S k -> scan_step thres prices lv k !! j = lv !! j.
Proof.
  intros Hj. unfold scan_step. case_match; [|done]. by apply list_lookup_insert_ne.
Qed.

Lemma scanned_untouched k j :
  (k < j)%nat -> (j < n)%nat -> scanned thres prices k !! j = Some (S j).
Proof.
  induction k as [|k IH]; intros Hk Hj.
  - unfold scanned. simpl. by apply lookup_seq_lt.
  - rewrite scanned_S, scan_step_other by lia. apply IH; lia.
Qed.

Lemma scanned_settled k j :
  (j <= k)%nat -> scanned thres prices k !! j = scanned thres prices j !! j.
Proof.
  induction 1 as [|k Hk IH]; [done|].
  rewrite scanned_S, scan_step_other by lia. done.
Qed.

Lemma scanned_first k : (0 < n)%nat -> scanned thres prices k !! 0%nat = Some 1%nat.
Proof.
  intros Hn. rewrite scanned_settled by lia. unfold scanned. simpl. by apply lookup_seq_lt.
Qed.

Lemma scanned_step i :
  (S i < n)%nat ->
  scanned thres prices (S i) !! S i
  = if close_enough thres (cell prices i) (cell prices (S i))
    then scanned thres prices i !! i else Some (S (S i)).
Proof.
  intros Hi. rewrite scanned_S. unfold scan_step. case_match.
  - rewrite list_lookup_insert_eq by (rewrite scanned_length; lia).
    destruct (lookup_lt_is_Some_2 (scanned thres prices i) i) as [x Hx];
      [rewrite scanned_length; lia|].
    by rewrite Hx.
  - apply scanned_untouched; lia.
Qed.
End Scan.

Lemma cluster_ids_first (thres : fl) (prices : list fl) :
  (0 < length prices)%nat -> cluster_ids thres prices !! 0%nat = Some 1%nat.
Proof. intros Hn. by apply scanned_first. Qed.

Lemma cluster_ids_step (thres : fl) (prices : list fl) i :
  (S i < length prices)%nat ->
  cluster_ids thres prices !! S i
  = if close_enough thres (cell prices i) (cell prices (S i))
    then cluster_ids thres prices !! i else Some (S (S i)).
Proof.
  intros Hi. change (cluster_ids thres prices) with (scanned thres prices (length prices - 1)).
  rewrite (scanned_settled _ _ _ (S i)) by lia.
  rewrite (scanned_settled _ _ _ i) by lia.
  by apply scanned_step.
Qed.

(** X24: the scan gives the first row of the price order the cluster 1;
    every later row takes the cluster of the row before it when their
    relative gap is within the threshold, and otherwise opens the cluster
    numbered by its own position. *)
Theorem cluster_ids_chain (thres : fl) (prices : list fl) :
  length (cluster_ids thres prices) = length prices /\
  ((0 < length prices)%nat -> cluster_ids thres prices !! 0%nat = Some 1%nat) /\
  forall i, (S i < length prices)%nat ->
    cluster_ids thres prices !! S i
    = if close_enough thres (cell prices i) (cell prices (S i))
      then cluster_ids thres prices !! i else Some (S (S i)).
Proof.
  split; [apply cluster_ids_length|]. split.
  - apply cluster_ids_first.
  - intros i. apply cluster_ids_step.
Qed.

(** X25: along the price order the cluster numbers never decrease, they
    start at 1 and the number of a row is at most its position. *)
Theorem cluster_ids_monotone (thres : fl) (prices : list fl) (i a b : nat) :
  cluster_ids thres prices !! i = Some a ->
  cluster_ids thres prices !! S i = Some b ->
  (1 <= a <= b)%nat /\ (b <= S (S i))%nat.
Proof.
  pose proof (cluster_ids_length thres prices) as Hlen.
  assert (forall j x, cluster_ids thres prices !! j = Some x -> (1 <= x <= S j)%nat) as Hbound.
  { induction j as [|j IH]; intros x Hx.
    - rewrite cluster_ids_first in Hx by (apply lookup_lt_Some in Hx; lia).
      injection Hx as <-. lia.
    - pose proof (lookup_lt_Some _ _ _ Hx) as Hj. rewrite Hlen in Hj.
      rewrite cluster_ids_step in Hx by done. case_match.
      + specialize (IH x Hx). lia.
      + injection Hx as <-. lia. }
  intros Ha Hb. pose proof (Hbound _ _ Ha).
  pose proof (lookup_lt_Some _ _ _ Hb) as Hj. rewrite Hlen in Hj.
  rewrite cluster_ids_step in Hb by done. case_match.
  - rewrite Ha in Hb. injection Hb as <-. lia.
  - injection Hb as <-. lia.
Qed.

Lemma cluster_ids_monotone_witness : (1 <= 1 <= 3)%nat /\ (3 <= 3)%nat.
Proof.
  apply (cluster_ids_monotone thres [Fin 100; Fin 101; Fin 150] 1 1 3);
    vm_compute; reflexivity.
Defined.

End ScanFacts.

(** ** Local extrema are window extrema *)

Module PeakFacts.
Import Float Series Engineering FloatFacts FrameFacts SortFacts GroupFacts
  RollingFacts EdgeFacts FloatSpec EdgeSpec PeakSpec.

Lemma fleb_refl x : isnan x = false -> fleb x x = true.
Proof. destruct x; try done. intros _. simpl. apply Qle_bool_iff, Qle_refl. Qed.

Lemma fleb_trans x y z : fleb x y = true -> fleb y z = true -> fleb x z = true.
Proof.
  destruct x, y, z; try done. simpl. rewrite !Qle_bool_iff. apply Qle_trans.
Qed.

Lemma fleb_total x y :
  isnan x = false -> isnan y = false -> fleb x y = true \/ fleb y x = true.
Proof.
  destruct x as [p| | |], y as [q| | |]; try done; auto. intros _ _. simpl.
  rewrite !Qle_bool_iff. destruct (Qlt_le_dec q p); [right|left]; [by apply Qlt_le_weak|done].
Qed.

Lemma feqb_of_fleb x y : fleb x y = true -> fleb y x = true -> feqb x y = true.
Proof.
  destruct x, y; try done. simpl. rewrite !Qle_bool_iff, Qeq_bool_iff. apply Qle_antisym.
Qed.

Lemma feqb_fleb x y : feqb x y = true -> fleb x y = true /\ fleb y x = true.
Proof.
  destruct x, y; try done. simpl. rewrite !Qle_bool_iff, Qeq_bool_iff.
  intros ->. split; apply Qle_refl.
Qed.

Lemma flag_one x y : flag x y = Fin 1 <-> feqb x y = true.
Proof. unfold flag. by destruct (feqb x y). Qed.

Lemma flag_cases x y : flag x y = Fin 1 \/ flag x y = Fin 0.
Proof. unfold flag. destruct (feqb x y); auto. Qed.

Lemma filter_all {A} (P : A -> Prop) `{forall x, Decision (P x)} (l : list A) :
  length (filter P l) = length l -> Forall P l.
Proof.
  induction l as [|x l IH]; [constructor|].
  rewrite filter_cons. case_decide; simpl; intros Hl.
  - constructor; [done|]. apply IH. lia.
  - pose proof (length_filter P l). lia.
Qed.

Lemma window_short center w l i : (length (window center w l i) <= w)%nat.
Proof.
  rewrite window_length. unfold window_stop, window_start, clip. lia.
Qed.

Lemma centered_window_self w (l : list fl) i x :
  (1 <= w)%nat -> l !! i = Some x -> x ∈ window true w l i.
Proof.
  intros Hw Hx. pose proof (lookup_lt_Some _ _ _ Hx) as Hi.
  unfold window. set (a := window_start _ _ _ _). set (b := window_stop _ _ _ _).
  assert (a <= i < b)%nat as Hab.
  { subst a b. unfold window_start, window_stop, clip. rewrite centered_offset by done.
    assert ((w - 1) / 2 <= w - 1)%nat by (apply Nat.Div0.div_le_upper_bound; lia). lia. }
  apply list_elem_of_lookup. exists (i - a)%nat.
  rewrite lookup_take_lt by lia. rewrite lookup_drop.
  by replace (a + (i - a))%nat with i by lia.
Qed.

(** Maximum and minimum are both a choice between two cells that is
    above (below) both. *)
Section Extremum.
Context (le : fl -> fl -> bool) (sel : fl -> fl -> fl).
Hypothesis le_trans : forall x y z, le x y = true -> le y z = true -> le x z = true.
Hypothesis le_eq : forall x y, le x y = true -> le y x = true -> feqb x y = true.
Hypothesis eq_le : forall x y, feqb x y = true -> le y x = true.
Hypothesis sel_cases : forall x y, sel x y = x \/ sel x y = y.
Hypothesis sel_l : forall x y, isnan x = false -> isnan y = false -> le x (sel x y) = true.
Hypothesis sel_r : forall x y, isnan x = false -> isnan y = false -> le y (sel x y) = true.

Lemma foldl_sel x l :
  Forall (fun y => isnan y = false) (x :: l) ->
  foldl sel x l ∈ x :: l /\ Forall (fun y => le y (foldl sel x l) = true) (x :: l).
Proof.
  revert x. induction l as [|y l IH]; intros x Hn.
  - apply Forall_cons in Hn as [Hx _]. simpl. split; [by left|].
    constructor; [|constructor]. pose proof (sel_l x x Hx Hx) as H.
    by destruct (sel_cases x x) as [E|E]; rewrite E in H.
  - apply Forall_cons in Hn as [Hx Hn]. apply Forall_cons in Hn as [Hy Hn].
    simpl. destruct (IH (sel x y)) as [Hin Hall].
    { constructor; [|done]. by destruct (sel_cases x y) as [->| ->]. }
    apply Forall_cons in Hall as [Hs Hall]. split.
    + apply elem_of_cons in Hin as [E|Hin]; [|by do 2 right].
      rewrite E. destruct (sel_cases x y) as [->| ->]; [by left|by right; left].
    + repeat constructor; [..|done].
      * eapply le_trans; [|exact Hs]. by apply sel_l.
      * eapply le_trans; [|exact Hs]. by apply sel_r.
Qed.

Lemma extremum_spec l :
  l <> [] -> Forall (fun y => isnan y = false) l ->
  extremum sel l ∈ l /\ Forall (fun y => le y (extremum sel l) = true) l.
Proof. destruct l as [|x l]; [done|]. intros _. apply foldl_sel. Qed.

Lemma flag_extremum w (l : list fl) i x :
  l !! i = Some x ->
  flag x (cell (rolling true w w (extremum sel) l) i) = Fin 1
  <-> (1 <= w)%nat /\ length (window true w l i) = w /\
      Forall (fun y => is_fin y = true) (window true w l i) /\
      Forall (fun y => le y x = true) (window true w l i).
Proof.
  intros Hx. pose proof (lookup_lt_Some _ _ _ Hx) as Hi.
  rewrite flag_one, rolling_cell by done. cbv zeta.
  set (win := window true w l i).
  pose proof (window_short true w l i) as Hshort. fold win in Hshort.
  pose proof (observations_length win) as Hobs.
  split.
  - destruct (Nat.ltb_spec (length (observations win)) w) as [|Hfull]; [by destruct x|].
    intros Heq.
    assert (Forall (fun y => is_fin y = true) win) as Hfin
      by (apply observations_full; lia).
    assert (Forall (fun y => isnan y = false) win) as Hnn
      by (eapply Forall_impl; [exact Hfin|]; by intros []).
    rewrite observations_finite in Heq by done.
    assert (win <> []) as Hne by (intros E; rewrite E in Heq; by destruct x).
    destruct (extremum_spec win Hne Hnn) as [_ Hall].
    repeat split.
    + destruct win; [done|]. simpl in *. lia.
    + lia.
    + exact Hfin.
    + eapply Forall_impl; [exact Hall|]. intros y Hy. simpl in Hy.
      eapply le_trans; [exact Hy|]. by apply eq_le.
  - intros (Hw & Hlen & Hfin & Hall).
    assert (Forall (fun y => isnan y = false) win) as Hnn
      by (eapply Forall_impl; [exact Hfin|]; by intros []).
    rewrite observations_finite by done.
    destruct (Nat.ltb_spec (length win) w) as [|_]; [lia|].
    assert (win <> []) as Hne by (intros E; rewrite E in Hlen; simpl in Hlen; lia).
    destruct (extremum_spec win Hne Hnn) as [Hin Hmax].
    apply le_eq.
    + rewrite Forall_forall in Hmax. apply Hmax. by apply centered_window_self.
    + rewrite Forall_forall in Hall. by apply Hall.
Qed.
End Extremum.

Lemma flag_max w (l : list fl) i x :
  l !! i = Some x ->
  flag x (cell (rolling_max true w w l) i) = Fin 1 <-> is_peak w x (window true w l i).
Proof.
  intros Hx. apply (flag_extremum fleb fmax2); try done.
  - apply fleb_trans.
  - apply feqb_of_fleb.
  - intros a b H. by apply feqb_fleb in H as [? ?].
  - intros a b. unfold fmax2. destruct (fleb a b); auto.
  - intros a b Ha Hb. unfold fmax2. destruct (fleb a b) eqn:E; [done|by apply fleb_refl].
  - intros a b Ha Hb. unfold fmax2. destruct (fleb a b) eqn:E; [by apply fleb_refl|].
    destruct (fleb_total a b Ha Hb); congruence.
Qed.

Lemma flag_min w (l : list fl) i x :
  l !! i = Some x ->
  flag x (cell (rolling_min true w w l) i) = Fin 1 <-> is_trough w x (window true w l i).
Proof.
  intros Hx. apply (flag_extremum (fun a b => fleb b a) fmin2); try done.
  - intros a b c H1 H2. by eapply fleb_trans.
  - intros a b H1 H2. by apply feqb_of_fleb.
  - intros a b H. by apply feqb_fleb in H as [? ?].
  - intros a b. unfold fmin2. destruct (fleb a b); auto.
  - intros a b Ha Hb. unfold fmin2. destruct (fleb a b) eqn:E; [by apply fleb_refl|].
    destruct (fleb_total a b Ha Hb); congruence.
  - intros a b Ha Hb. unfold fmin2. destruct (fleb a b) eqn:E; [done|by apply fleb_refl].
Qed.

(** Writing a column leaves the groups and the other columns alone. *)
Lemma members_set_col c c' v (df : list row) r r' :
  c <> c' -> length v = length df -> coin r = coin r' ->
  map (get c') (Grouped.members same_coin r (set_col c v df))
  = map (get c') (Grouped.members same_coin r' df).
Proof.
  intros Hc Hlen Hr. unfold Grouped.members, set_col.
  revert v Hlen. induction df as [|x df IH]; intros [|y v] Hlen; simplify_eq/=; [done|].
  rewrite !filter_cons.
  assert (same_coin r (with_cells (insert c y) x) = same_coin r' x) as E
    by (unfold same_coin; simpl; by rewrite Hr).
  destruct (decide (same_coin r' x = true)) as [D|D].
  - rewrite decide_True by (by rewrite E). simpl. rewrite IH by done.
    f_equal. by apply get_insert_ne.
  - rewrite decide_False by (by rewrite E). by apply IH.
Qed.

Lemma nth_coin (df df' : list row) j r r' :
  coin <$> df = coin <$> df' -> df !! j = Some r -> df' !! j = Some r' -> coin r = coin r'.
Proof.
  intros C Hr Hr'. apply (f_equal (fun l => l !! j)) in C.
  rewrite !list_lookup_fmap, Hr, Hr' in C. by simplify_eq/=.
Qed.

(** X22: with price columns that are not the flag columns,
    [define_local_min_max2] returns the rows in timestamp order with both
    flags 0 or 1; local_max is 1 exactly when the centered window of the
    row within its coin is complete, all its highs are finite and none is
    above the row's own, and local_min is 1 exactly when it is complete,
    all its lows are finite and none is below.  A window with an infinite
    cell flags nothing: the rolling extremum counts it as missing. *)
Theorem local_flags_mark_window_extrema (df : list row) (col_price_min col_price_max : string)
    (w : nat) (suffix : string) (out : list row) :
  col_price_max <> "local_max" +:+ suffix ->
  col_price_min <> "local_max" +:+ suffix ->
  col_price_min <> "local_min" +:+ suffix ->
  define_local_min_max2 df col_price_min col_price_max w suffix = Some out ->
  length out = length df /\
  forall j r0, sort_values df !! j = Some r0 ->
    exists r, out !! j = Some r /\
      coin r = coin r0 /\ timestamp r = timestamp r0 /\
      is_flag (cells r !! ("local_max" +:+ suffix))
        (is_peak w (get col_price_max r0)
           (coin_window col_price_max w (sort_values df) j r0)) /\
      is_flag (cells r !! ("local_min" +:+ suffix))
        (is_trough w (get col_price_min r0)
           (coin_window col_price_min w (sort_values df) j r0)).
Proof.
  unfold define_local_min_max2.
  set (col_max := "local_max" +:+ suffix). set (col_min := "local_min" +:+ suffix).
  assert (col_max <> col_min) as Hne by apply local_names_ne.
  intros Hmax Hmin1 Hmin2.
  set (df0 := sort_values df). intros H.
  destruct (grouped col_price_max _ df0) as [m1|] eqn:E1; [|done]. simpl in H.
  set (df1 := set_col col_max m1 df0) in *.
  destruct (column col_price_max df1) as [x0|] eqn:Ex0; [|done]. simpl in H.
  destruct (column col_max df1) as [x1|] eqn:Ex1; [|done]. simpl in H.
  set (df2 := set_col col_max (zip_with flag x0 x1) df1) in *.
  destruct (grouped col_price_min _ df2) as [m2|] eqn:E2; [|done]. simpl in H.
  set (df3 := set_col col_min m2 df2) in *.
  destruct (column col_price_min df3) as [y0|] eqn:Ey0; [|done]. simpl in H.
  destruct (column col_min df3) as [y1|] eqn:Ey1; [|done]. simpl in H.
  injection H as <-.
  apply grouped_Some in E1, E2.
  assert (length df0 = length df) as L0 by apply sort_length.
  assert (length m1 = length df0) as Lm1 by (subst m1; apply transform_length).
  assert (length df1 = length df0) as L1 by (by apply set_col_length).
  pose proof (column_length _ _ _ Ex0) as Lx0.
  pose proof (column_length _ _ _ Ex1) as Lx1.
  assert (length (zip_with flag x0 x1) = length df1) as Lf1
    by (rewrite length_zip_with; lia).
  assert (length df2 = length df1) as L2 by (by apply set_col_length).
  assert (length m2 = length df2) as Lm2 by (subst m2; apply transform_length).
  assert (length df3 = length df2) as L3 by (by apply set_col_length).
  pose proof (column_length _ _ _ Ey0) as Ly0.
  pose proof (column_length _ _ _ Ey1) as Ly1.
  assert (length (zip_with flag y0 y1) = length df3) as Lf3
    by (rewrite length_zip_with; lia).
  assert (coin <$> df1 = coin <$> df0) as C1 by (by apply set_col_coins).
  assert (coin <$> df2 = coin <$> df0) as C2 by (by rewrite <- C1; apply set_col_coins).
  split; [rewrite set_col_length; lia|].
  intros j r0 Hr0.
  (* the maximum *)
  pose proof (transform_lookup same_coin (get col_price_max)
                (rolling_max true w w) df0 j r0 Hr0) as Hm1.
  rewrite <- E1 in Hm1.
  pose proof (set_col_lookup col_max _ _ _ _ _ Hr0 Hm1) as Hr1. fold df1 in Hr1.
  pose proof (column_cell _ _ _ _ _ Ex0 Hr1) as Hx0.
  pose proof (column_cell _ _ _ _ _ Ex1 Hr1) as Hx1.
  rewrite get_insert_eq in Hx1. rewrite get_insert_ne in Hx0 by done.
  set (f1 := flag (get col_price_max r0)
               (cell (rolling_max true w w (map (get col_price_max)
                  (Grouped.members same_coin r0 df0))) (Grouped.position same_coin j r0 df0))).
  assert (zip_with flag x0 x1 !! j = Some f1) as Hf1.
  { rewrite lookup_zip_with, Hx0. simpl. by rewrite Hx1. }
  pose proof (set_col_lookup col_max _ _ _ _ _ Hr1 Hf1) as Hr2. fold df2 in Hr2.
  set (r2 := with_cells _ (with_cells _ r0)) in Hr2.
  (* the minimum *)
  pose proof (transform_lookup same_coin (get col_price_min)
                (rolling_min true w w) df2 j r2 Hr2) as Hm2.
  rewrite <- E2 in Hm2.
  assert (map (get col_price_min) (Grouped.members same_coin r2 df2)
          = map (get col_price_min) (Grouped.members same_coin r0 df0)) as Emem.
  { unfold df2. rewrite (members_set_col _ _ _ _ r2 r0) by done.
    unfold df1. by rewrite (members_set_col _ _ _ _ r0 r0) by done. }
  rewrite Emem, (position_coins j r2 r0 df2 df0) in Hm2 by done.
  pose proof (set_col_lookup col_min _ _ _ _ _ Hr2 Hm2) as Hr3. fold df3 in Hr3.
  pose proof (column_cell _ _ _ _ _ Ey0 Hr3) as Hy0.
  pose proof (column_cell _ _ _ _ _ Ey1 Hr3) as Hy1.
  rewrite get_insert_eq in Hy1. unfold r2 in Hy0. rewrite !get_insert_ne in Hy0 by done.
  set (f2 := flag (get col_price_min r0)
               (cell (rolling_min true w w (map (get col_price_min)
                  (Grouped.members same_coin r0 df0))) (Grouped.position same_coin j r0 df0))).
  assert (zip_with flag y0 y1 !! j = Some f2) as Hf3.
  { rewrite lookup_zip_with, Hy0. simpl. by rewrite Hy1. }
  pose proof (set_col_lookup col_min _ _ _ _ _ Hr3 Hf3) as Hr4.
  eexists. split; [exact Hr4|]. simpl. split; [done|]. split; [done|].
  rewrite lookup_insert_eq, !lookup_insert_ne, lookup_insert_eq by done.
  assert (forall k x, Grouped.position same_coin j r0 df0 = k ->
            map (get x) (Grouped.members same_coin r0 df0) !! k = Some (get x r0)) as Hself.
  { intros k x <-. unfold Grouped.position, Grouped.members.
    change (map ?f ?l) with (f <$> l). rewrite list_lookup_fmap.
    rewrite <- (take_drop_middle df0 j r0 Hr0) at 2.
    rewrite filter_app, filter_cons.
    rewrite decide_True by (unfold same_coin; by apply bool_decide_eq_true_2).
    by rewrite lookup_app_r, Nat.sub_diag by done. }
  split.
  - split; [unfold f1; destruct (flag_cases (get col_price_max r0)
              (cell (rolling_max true w w (map (get col_price_max)
                 (Grouped.members same_coin r0 df0))) (Grouped.position same_coin j r0 df0)))
              as [-> | ->]; auto|].
    unfold coin_window. rewrite <- flag_max by (by apply Hself).
    fold f1. split; congruence.
  - split; [unfold f2; destruct (flag_cases (get col_price_min r0)
              (cell (rolling_min true w w (map (get col_price_min)
                 (Grouped.members same_coin r0 df0))) (Grouped.position same_coin j r0 df0)))
              as [-> | ->]; auto|].
    unfold coin_window. rewrite <- flag_min by (by apply Hself).
    fold f2. split; congruence.
Qed.

Lemma local_flags_mark_window_extrema_witness :
  exists out r,
    define_local_min_max2 five_hours "low" "high" 3 "" = Some out /\
    out !! 1%nat = Some r /\
    is_flag (cells r !! "local_max") (is_peak 3 (Fin 12) [Fin 10; Fin 12; Fin 11]).
Proof.
  eexists. eexists. split; [vm_compute; reflexivity|].
  split; [reflexivity|].
  edestruct (local_flags_mark_window_extrema five_hours "low" "high" 3 "") as [_ H];
    [by apply (bool_decide_unpack _)..|vm_compute; reflexivity|].
  destruct (H 1%nat _ eq_refl) as (r & Hr & _ & _ & Hmax & _).
  injection Hr as <-. exact Hmax.
Defined.

(** An infinite high is no local maximum: the rolling maximum of its
    window counts it as missing, the window is short of an observation,
    and the flag is 0 in all three rows. *)
Example infinite_high_is_not_flagged :
  (map (get "local_max") <$> define_local_min_max2 infinite_high "low" "high" 3 "")
  = Some [Fin 0; Fin 0; Fin 0].
Proof. vm_compute. reflexivity. Qed.

End PeakFacts.

(** ** Prices relative to BTC *)

Module RelativeFacts.
Import Float Series Engineering FloatFacts FrameFacts GroupFacts EdgeFacts FloatSpec RelativeSpec.

Lemma bind_ext_list {A B} (f g : A -> list B) (l : list A) :
  (forall x, x ∈ l -> f x = g x) -> l ≫= f = l ≫= g.
Proof.
  induction l as [|x l IH]; intros H; [done|].
  rewrite !bind_cons, H, IH; [done| |by left]. intros y Hy. apply H. by right.
Qed.

Lemma filter_btc (df : list row) (d : Z) :
  filter (fun x : Z * fl => fst x = d)
    (map (fun r => (day r, get "price" r)) (filter (fun r => coin r = "BTC/USD") df))
  = map (fun r => (day r, get "price" r))
      (filter (fun r => coin r = "BTC/USD" /\ day r = d) df).
Proof.
  induction df as [|x df IH]; [done|].
  rewrite !(filter_cons _ x).
  destruct (decide (coin x = "BTC/USD")) as [C|C].
  - simpl. rewrite filter_cons. simpl. destruct (decide (day x = d)) as [D|D].
    + rewrite decide_True by done. simpl. by rewrite IH.
    + rewrite decide_False by tauto. done.
  - rewrite decide_False by tauto. done.
Qed.

Lemma merge_btc_partners (df : list row) (r : row) :
  merge_btc (map (fun r => (day r, get "price" r)) (filter (fun r => coin r = "BTC/USD") df)) r
  = map (fun b => with_cells (insert "price_btc" b) r) (btc_partners df (day r)).
Proof.
  unfold merge_btc, btc_partners, btc_prices. rewrite filter_btc.
  destruct (filter _ df) as [|x l]; [done|]. simpl. f_equal.
  change (map ?f ?l) with (f <$> l). rewrite <- !list_fmap_compose. done.
Qed.

Lemma set_col_zip (f : fl -> fl -> fl) c c1 c2 (df : list row) p b :
  column c1 df = Some p -> column c2 df = Some b ->
  set_col c (zip_with f p b) df
  = map (fun r => with_cells (insert c (f (get c1 r) (get c2 r))) r) df.
Proof.
  unfold column, set_col. revert p b. induction df as [|r df IH]; intros p b Hp Hb.
  - by simplify_option_eq.
  - rewrite mapM_Some in Hp, Hb.
    apply Forall2_cons_inv_l in Hp as (x & p' & Hx & Hp & ->).
    apply Forall2_cons_inv_l in Hb as (y & b' & Hy & Hb & ->).
    rewrite <- mapM_Some in Hp, Hb. simpl. rewrite (IH _ _ Hp Hb).
    unfold get. by rewrite Hx, Hy.
Qed.

Lemma merged_columns (df : list row) :
  Forall (fun r => is_Some (cells r !! "price")) df ->
  let df' := df ≫= (fun r => map (fun b => with_cells (insert "price_btc" b) r)
                               (btc_partners df (day r))) in
  Forall (fun r => is_Some (cells r !! "price")) df' /\
  Forall (fun r => is_Some (cells r !! "price_btc")) df'.
Proof.
  intros Hp. cbv zeta. rewrite !Forall_forall.
  split; intros r' Hr'; apply list_elem_of_bind in Hr' as (r & Hr' & Hr);
    apply list_elem_of_fmap in Hr' as (b & -> & _); simpl.
  - rewrite lookup_insert_ne by done. rewrite Forall_forall in Hp. by apply Hp.
  - rewrite lookup_insert_eq. eauto.
Qed.

(** X16: on a frame with rows, [calculate_relative_price_to_btc]
    returns exactly when every row has a price and there is no price_btc
    column yet; otherwise a column lookup raises. *)
Theorem relative_price_defined (df : list row) :
  df <> [] ->
  is_Some (calculate_relative_price_to_btc df)
  <-> Forall (fun r => is_Some (cells r !! "price") /\ cells r !! "price_btc" = None) df.
Proof.
  intros _. unfold calculate_relative_price_to_btc. split.
  - intros [out H].
    destruct (column "price" df) as [p|] eqn:Ep; [|done]. simpl in H.
    case_guard as Hg; [|done].
    assert (is_Some (column "price" df)) as Hs by eauto.
    unfold column in Hs. rewrite mapM_is_Some in Hs.
    apply Forall_and. split; [exact Hs|exact Hg].
  - intros H. apply Forall_and in H as [Hp Hb].
    rewrite (column_is_Some _ _ Hp). simpl.
    case_guard; [|done]. simpl.
    rewrite (bind_ext_list _ _ df (fun r _ => merge_btc_partners df r)).
    destruct (merged_columns df Hp) as [Hp' Hb'].
    rewrite (column_is_Some _ _ Hp'), (column_is_Some _ _ Hb'). simpl. eauto.
Qed.

Lemma relative_price_defined_witness : is_Some (calculate_relative_price_to_btc two_days).
Proof.
  apply (relative_price_defined two_days); [discriminate|].
  repeat (constructor; [split; [by eexists|reflexivity]|]). constructor.
Defined.

Lemma merged_rows (df out : list row) :
  calculate_relative_price_to_btc df = Some out ->
  out = df ≫= (fun r => map (with_btc r) (btc_partners df (day r))).
Proof.
  unfold calculate_relative_price_to_btc. intros H.
  destruct (column "price" df) as [p0|] eqn:Ep0; [|done]. simpl in H.
  case_guard; [|done]. simpl in H.
  rewrite (bind_ext_list _ _ df (fun r _ => merge_btc_partners df r)) in H.
  destruct (column "price" (_ ≫= _)) as [p|] eqn:Ep; [|done]. simpl in H.
  destruct (column "price_btc" (_ ≫= _)) as [b|] eqn:Eb; [|done]. simpl in H.
  injection H as <-.
  rewrite (set_col_zip fdiv _ _ _ _ _ _ Ep Eb).
  change (map ?f ?l) with (f <$> l). rewrite fmap_bind_list.
  apply bind_ext_list. intros r _. rewrite <- list_fmap_compose.
  apply list_fmap_ext. intros _ x _. simpl. unfold with_btc.
  by rewrite get_insert_ne, get_insert_eq.
Qed.

Lemma btc_partners_length df d :
  length (btc_partners df d) = Nat.max 1 (length (btc_prices df d)).
Proof. unfold btc_partners. destruct (btc_prices df d) as [|? [|? ?]]; simpl; lia. Qed.

(** X17: the merge is on the day alone: every input row comes back, in
    order, once for each BTC/USD row of its day, or once with price_btc
    NaN when the day has none, and each copy carries that BTC price and
    the quotient of the two prices.  The row count grows accordingly. *)
Theorem relative_price_rows (df out : list row) :
  calculate_relative_price_to_btc df = Some out ->
  out = df ≫= (fun r => map (with_btc r) (btc_partners df (day r))) /\
  length out = sum_list (map (fun r => Nat.max 1 (length (btc_prices df (day r)))) df).
Proof.
  intros H. split; [by apply merged_rows|]. rewrite (merged_rows _ _ H).
  assert (forall l : list row,
            length (l ≫= (fun r => map (with_btc r) (btc_partners df (day r))))
            = sum_list (map (fun r => Nat.max 1 (length (btc_prices df (day r)))) l)) as Hl.
  { induction l as [|r l IH]; [done|].
    rewrite bind_cons, length_app, IH. simpl.
    change (map ?f ?l) with (f <$> l). by rewrite length_fmap, btc_partners_length. }
  apply Hl.
Qed.

Lemma relative_price_rows_witness :
  exists out,
    calculate_relative_price_to_btc hourly_btc = Some out /\
    length hourly_btc = 3%nat /\ length out = 6%nat.
Proof.
  destruct (calculate_relative_price_to_btc hourly_btc) as [out|] eqn:E;
    [|by vm_compute in E].
  destruct (relative_price_rows hourly_btc out E) as [_ Hlen].
  exists out. split; [reflexivity|]. split; [reflexivity|].
  rewrite Hlen. vm_compute. reflexivity.
Defined.

Lemma fdiv_self p : ~ (p == 0)%Q -> fdiv (Fin p) (Fin p) = Fin 1.
Proof.
  intros Hp. unfold fdiv. destruct (Qeq_bool p 0) eqn:E.
  - by apply Qeq_bool_iff in E.
  - change (Fin 1) with (fin 1). apply fin_eq. by field.
Qed.

(** X18: with at most one BTC/USD row a day the row count is kept; a
    row of a day without BTC/USD row gets the relative price NaN, and a
    BTC/USD row with a finite price that is not zero gets 1. *)
Theorem btc_is_one_to_itself (df out : list row) :
  NoDup (map day (filter (fun r => coin r = "BTC/USD") df)) ->
  calculate_relative_price_to_btc df = Some out ->
  length out = length df /\
  forall j r, df !! j = Some r ->
    exists r', out !! j = Some r' /\
      coin r' = coin r /\ timestamp r' = timestamp r /\ day r' = day r /\
      (btc_prices df (day r) = [] ->
       cells r' !! "price_relative_to_btc" = Some NaN) /\
      (forall p, coin r = "BTC/USD" -> cells r !! "price" = Some (Fin p) -> ~ (p == 0)%Q ->
       cells r' !! "price_relative_to_btc" = Some (Fin 1)).
Proof.
  intros Hnd H. rewrite (merged_rows _ _ H).
  assert (forall d, (length (btc_prices df d) <= 1)%nat) as Hone.
  { intros d. unfold btc_prices. rewrite length_map. clear H.
    induction df as [|x df IH]; [simpl; lia|].
    rewrite filter_cons in Hnd. rewrite filter_cons.
    destruct (decide (coin x = "BTC/USD")) as [C|C].
    - simpl in Hnd. apply NoDup_cons in Hnd as [Hx Hnd]. specialize (IH Hnd).
      destruct (decide (day x = d)) as [D|D].
      + rewrite decide_True by done. simpl.
        destruct (filter (fun r => coin r = "BTC/USD" /\ day r = d) df) as [|y l] eqn:E;
          [simpl; lia|].
        exfalso. apply Hx.
        assert (y ∈ filter (fun r => coin r = "BTC/USD" /\ day r = d) df) as Hy
          by (rewrite E; by left).
        apply list_elem_of_filter in Hy as [[Hc Hd] Hy].
        apply list_elem_of_fmap. exists y. split; [congruence|].
        by apply list_elem_of_filter.
      + rewrite decide_False by tauto. done.
    - rewrite decide_False by tauto. by apply IH. }
  assert (forall d, exists b, btc_partners df d = [b] /\
            (btc_prices df d = [] -> b = NaN) /\
            (forall x, x ∈ btc_prices df d -> b = x)) as Hsingle.
  { intros d. specialize (Hone d). unfold btc_partners.
    destruct (btc_prices df d) as [|b [|? ?]]; simpl in Hone; [| |lia].
    - exists NaN. split; [done|]. split; [done|]. intros x Hx. by apply elem_of_nil in Hx.
    - exists b. split; [done|]. split; [done|]. intros x Hx.
      apply elem_of_cons in Hx as [->|Hx]; [done|]. by apply elem_of_nil in Hx. }
  clear Hone H Hnd.
  assert (forall l : list row,
            l ≫= (fun r => map (with_btc r) (btc_partners df (day r)))
            = map (fun r => with_btc r (default NaN (head (btc_partners df (day r))))) l) as Hmap.
  { induction l as [|r l IH]; [done|].
    rewrite bind_cons, IH. destruct (Hsingle (day r)) as (b & Eb & _).
    rewrite Eb. simpl. by rewrite Eb. }
  rewrite Hmap. split; [by rewrite length_map|].
  intros j r Hr. eexists. split.
  { change (map ?f ?l) with (f <$> l). by rewrite list_lookup_fmap, Hr. }
  destruct (Hsingle (day r)) as (b & -> & Hnone & Hsome). simpl.
  repeat split.
  - intros E. rewrite lookup_insert_eq, (Hnone E). f_equal. unfold fdiv.
    by destruct (get "price" r).
  - intros p Hc Hp Hnz. rewrite lookup_insert_eq. f_equal.
    assert (b = Fin p) as ->.
    { apply Hsome. unfold btc_prices. apply list_elem_of_fmap. exists r.
      split; [unfold get; by rewrite Hp|].
      apply list_elem_of_filter. split; [done|]. by eapply list_elem_of_lookup_2. }
    unfold get. rewrite Hp. simpl. by apply fdiv_self.
Qed.

Lemma btc_is_one_to_itself_witness :
  exists out r0 r2,
    calculate_relative_price_to_btc two_days = Some out /\
    out !! 0%nat = Some r0 /\ out !! 2%nat = Some r2 /\
    cells r0 !! "price_relative_to_btc" = Some (Fin 1) /\
    cells r2 !! "price_relative_to_btc" = Some NaN.
Proof.
  destruct (calculate_relative_price_to_btc two_days) as [out|] eqn:E;
    [|by vm_compute in E].
  destruct (btc_is_one_to_itself two_days out) as [_ H].
  - apply (bool_decide_unpack _). vm_compute. exact I.
  - exact E.
  - destruct (H 0%nat _ eq_refl) as (r0 & Hr0 & _ & _ & _ & _ & Hone).
    destruct (H 2%nat _ eq_refl) as (r2 & Hr2 & _ & _ & _ & Hnan & _).
    exists out, r0, r2. split; [reflexivity|]. split; [exact Hr0|]. split; [exact Hr2|].
    split.
    + apply (Hone 100%Q); [reflexivity|reflexivity|]. vm_compute. discriminate.
    + apply Hnan. reflexivity.
Defined.

End RelativeFacts.

(** ** Looking up the next level *)

Module SearchFacts.
Import Float Series Engineering FloatFacts FrameFacts FloatSpec SearchSpec.

Lemma select_level_Some keep pick r df_levels col_find y :
  (forall l : list row, pick l ⊆ l) ->
  select_level keep pick r df_levels col_find = Some y ->
  exists l p, l ∈ df_levels /\ coin l = coin r /\ cells l !! col_find = Some y /\
    cells r !! "price" = Some p /\ keep (get "price_level" l) p = true.
Proof.
  intros Hpick. unfold select_level. intros H.
  destruct (column "price_level" df_levels) as [pl|]; [|done]. simpl in H.
  destruct (cells r !! "price") as [p|]; [|done]. simpl in H.
  set (sel := filter _ df_levels) in H.
  destruct (column col_find (pick sel)) as [values|] eqn:Ev; [|done]. simpl in H.
  destruct values as [|v values]; [done|]. simpl in H. injection H as ->.
  unfold column in Ev. rewrite mapM_Some in Ev.
  apply Forall2_cons_inv_r in Ev as (l & rest & Hl & _ & Epick).
  assert (l ∈ sel) as Hin by (apply Hpick; rewrite Epick; by left).
  apply list_elem_of_filter in Hin as [Hk Hin].
  apply andb_true_iff in Hk as [Hk Hc]. apply bool_decide_eq_true in Hc.
  by exists l, p.
Qed.

(** X28: for a row that has the column looked for, [find_level] never
    raises: an unknown direction returns None, and below or above return
    either the row's own value or the value of a level row of the same
    coin whose price_level lies on the asked side of the row's price. *)
Theorem find_level_never_raises (r : row) (df_levels : list row) (direction : string)
    (n : nat) (col_find : string) (x : fl) :
  cells r !! col_find = Some x ->
  match find_level r df_levels direction n col_find with
  | Found y =>
      direction ∈ ["below"; "above"] /\
      (y = x \/ candidate r df_levels direction col_find y)
  | ReturnsNone => direction ∉ ["below"; "above"]
  | RaisesKeyError => False
  end.
Proof.
  intros Hx. unfold find_level, row_value. rewrite Hx.
  destruct (decide (direction = "below")) as [->|Hb].
  - destruct (select_level _ _ _ _ _) as [y|] eqn:E.
    + split; [by left|]. right.
      apply select_level_Some in E; [|intros l; apply subseteq_drop].
      destruct E as (l & p & ? & ? & ? & ? & ?). exists l, p. unfold on_side.
      by rewrite decide_True.
    + split; [by left|by left].
  - destruct (decide (direction = "above")) as [->|Ha].
    + destruct (select_level _ _ _ _ _) as [y|] eqn:E.
      * split; [by right; left|]. right.
        apply select_level_Some in E; [|intros l; apply subseteq_take].
        destruct E as (l & p & ? & ? & ? & ? & ?). exists l, p. unfold on_side.
        by rewrite decide_False.
      * split; [by right; left|by left].
    + rewrite !not_elem_of_cons. repeat split; [done..|]. apply not_elem_of_nil.
Qed.

Lemma find_level_never_raises_witness :
  "below" ∈ ["below"; "above"] /\
  (Fin 90 = Fin 0 \/
   candidate (priced_row 100) three_levels "below" "price_level" (Fin 90)).
Proof.
  exact (find_level_never_raises (priced_row 100) three_levels "below" 1 "price_level"
           (Fin 0) eq_refl).
Defined.

Lemma column_head_take c n (sel : list row) :
  (1 <= n)%nat -> uniform c sel ->
  column c (take n sel) ≫= head = column c (take 1 sel) ≫= head.
Proof.
  intros Hn [Hall|Hnone].
  - rewrite !column_is_Some.
    + destruct sel as [|l sel]; [by rewrite !take_nil|].
      destruct n as [|n]; [lia|]. done.
    + by apply Forall_take.
    + by apply Forall_take.
  - destruct sel as [|l sel]; [by rewrite !take_nil|].
    destruct n as [|n]; [lia|]. apply Forall_cons in Hnone as [Hl _].
    unfold column. simpl. by rewrite Hl.
Qed.

Lemma uniform_filter c (P : row -> Prop) `{forall x, Decision (P x)} df :
  uniform c df -> uniform c (filter P df).
Proof.
  intros [H1|H1]; [left|right]; rewrite Forall_forall in *; intros l Hl;
    apply list_elem_of_filter in Hl as [_ Hl]; by apply H1.
Qed.

(** X29: upwards the parameter [n] has no effect: the first value of
    the first [n] rows is the first value whatever [n >= 1] is, so above
    always answers with the first level row on that side. *)
Theorem find_level_above_ignores_n (r : row) (df_levels : list row) (n : nat)
    (col_find : string) :
  (1 <= n)%nat -> uniform col_find df_levels ->
  find_level r df_levels "above" n col_find = find_level r df_levels "above" 1 col_find.
Proof.
  intros Hn Hu. unfold find_level. simpl.
  assert (select_level (fun l p => fleb p l) (take n) r df_levels col_find
          = select_level (fun l p => fleb p l) (take 1) r df_levels col_find) as ->; [|done].
  unfold select_level.
  destruct (column "price_level" df_levels); [|done]. simpl.
  destruct (cells r !! "price") as [p|]; [|done]. simpl.
  apply column_head_take; [done|]. by apply uniform_filter.
Qed.

Lemma find_level_above_ignores_n_witness :
  find_level (priced_row 100) three_levels "above" 2 "price_level"
  = find_level (priced_row 100) three_levels "above" 1 "price_level".
Proof.
  apply (find_level_above_ignores_n (priced_row 100) three_levels 2 "price_level"); [lia|].
  left. repeat constructor; by eexists.
Defined.

End SearchFacts.

(** ** The frame of the momentum score *)

Module ScoreFacts.
Import Float Series Engineering FloatFacts FrameFacts EdgeFacts WeightedFacts
  FloatSpec WeightedSpec MomentumSpec ScoreSpec.

Lemma same_but_weaken cs1 cs2 r r' :
  (forall c, c ∈ cs1 -> c ∈ cs2) -> same_but cs1 r r' -> same_but cs2 r r'.
Proof.
  intros Hsub (?&?&?&H). repeat split; try done. intros c Hc. apply H. auto.
Qed.

Lemma column_present c df :
  is_Some (column c df) <-> Forall (fun r => is_Some (cells r !! c)) df.
Proof. unfold column. apply mapM_is_Some. Qed.

Lemma pairwise_present c0 c1 df :
  is_Some (pairwise c0 c1 df)
  <-> Forall (fun r => is_Some (cells r !! c0)) df /\
      Forall (fun r => is_Some (cells r !! c1)) df.
Proof.
  rewrite <- !column_present. unfold pairwise.
  destruct (column c0 df), (column c1 df); simpl; split;
    intros H; try (by destruct H as [[? ?] [? ?]]); try (by destruct H); eauto.
Qed.

Lemma set_col_present_ne c c' v df :
  c <> c' -> length v = length df ->
  Forall (fun r => is_Some (cells r !! c')) (set_col c v df)
  <-> Forall (fun r => is_Some (cells r !! c')) df.
Proof.
  intros Hc Hlen. pose proof (set_col_same_but c v df Hlen) as H.
  split; intros HF.
  - eapply Forall2_Forall_l; [exact H|]. eapply Forall_impl; [exact HF|].
    intros r' Hr' r (_&_&_&Hs). rewrite <- Hs; [done|].
    rewrite not_elem_of_cons. split; [congruence|apply not_elem_of_nil].
  - eapply Forall2_Forall_r; [exact H|]. eapply Forall_impl; [exact HF|].
    intros r Hr r' (_&_&_&Hs). rewrite Hs; [done|].
    rewrite not_elem_of_cons. split; [congruence|apply not_elem_of_nil].
Qed.

Lemma set_col_present_any c c' v df :
  length v = length df ->
  Forall (fun r => is_Some (cells r !! c')) df ->
  Forall (fun r => is_Some (cells r !! c')) (set_col c v df).
Proof.
  intros Hlen H. destruct (decide (c = c')) as [->|Hne].
  - apply set_col_present.
  - by apply set_col_present_ne.
Qed.

(** X27: [calculate_momentum] returns the rows in their order, each
    with its key and every column other than the score and the three
    scratch columns as it was; the scratch columns are gone, also when the
    input had columns of these names, and the score is there unless it was
    given the name of a scratch column. *)
Theorem momentum_keeps_frame (df : list row)
    (col_new c1 c2 c3 c4 : string) (out : list row) :
  calculate_momentum df col_new c1 c2 c3 c4 = Some out ->
  Forall2 (scored col_new) df out.
Proof.
  unfold calculate_momentum. intros H.
  destruct (pairwise c1 c2 df) as [m1|] eqn:E1; [|done]. simpl in H.
  set (df1 := set_col "momentum_1_2" m1 df) in *.
  destruct (pairwise c2 c3 df1) as [m2|] eqn:E2; [|done]. simpl in H.
  set (df2 := set_col "momentum_2_3" m2 df1) in *.
  destruct (pairwise c3 c4 df2) as [m3|] eqn:E3; [|done]. simpl in H.
  set (df3 := set_col "momentum_3_4" m3 df2) in *.
  destruct (mapM _ df3) as [s|] eqn:E4; [|done]. simpl in H. injection H as <-.
  set (df4 := set_col col_new s df3).
  pose proof (pairwise_length _ _ _ _ E1) as L1.
  pose proof (pairwise_length _ _ _ _ E2) as L2.
  pose proof (pairwise_length _ _ _ _ E3) as L3.
  pose proof (eq_sym (length_mapM _ _ _ E4)) as L4.
  pose proof (set_col_same_but "momentum_1_2" m1 df L1) as R1. fold df1 in R1.
  pose proof (set_col_same_but "momentum_2_3" m2 df1 L2) as R2. fold df2 in R2.
  pose proof (set_col_same_but "momentum_3_4" m3 df2 L3) as R3. fold df3 in R3.
  pose proof (set_col_same_but col_new s df3 L4) as R4. fold df4 in R4.
  pose proof (Forall2_and_r _ _ _ _ R4 (set_col_present col_new s df3)) as R4'.
  pose proof (Forall2_and_r _ _ _ _ (drop_cols_same_but cols_momentum df4)
                (drop_cols_absent cols_momentum df4)) as R5.
  pose proof (Forall2_same_but_trans _ _ _ _ _ R1 R2) as R12.
  pose proof (Forall2_same_but_trans _ _ _ _ _ R12 R3) as R123.
  assert (Forall2 (fun x z => exists y,
            (same_but [col_new] x y /\ is_Some (cells y !! col_new)) /\
            (same_but cols_momentum y z /\ forall s, s ∈ cols_momentum -> cells z !! s = None))
            df3 (drop_cols cols_momentum df4)) as R45.
  { eapply Forall2_trans; [|exact R4'|exact R5]. intros x y z ? ?. by exists y. }
  eapply Forall2_trans; [|exact R123|exact R45].
  simpl. intros r r3 r' Hr3 (r4 & [Hr4 Hpres] & [Hr' Habs]).
  split; [|split; [exact Habs|]].
  - pose proof (same_but_trans _ _ _ _ _ (same_but_trans _ _ _ _ _ Hr3 Hr4) Hr') as Hall.
    eapply same_but_weaken; [|exact Hall].
    intros c. unfold cols_momentum. rewrite !elem_of_app, !elem_of_cons. tauto.
  - intros Hnew. destruct Hr' as (_&_&_&Hs). by rewrite Hs.
Qed.

Lemma momentum_keeps_frame_witness :
  exists out,
    calculate_momentum momentum_frame "momentum" "p1" "p2" "p3" "p4" = Some out /\
    Forall2 (scored "momentum") momentum_frame out.
Proof.
  eexists. split; [vm_compute; reflexivity|].
  apply (momentum_keeps_frame momentum_frame "momentum" "p1" "p2" "p3" "p4").
  vm_compute. reflexivity.
Defined.

(** X26: on a frame with rows, and with the third and fourth price
    column not named like a scratch column, [calculate_momentum] returns
    exactly when every row has the four price columns; otherwise a column
    lookup raises. *)
Theorem momentum_needs_columns (df : list row) (col_new c1 c2 c3 c4 : string) :
  df <> [] -> c3 ∉ cols_momentum -> c4 ∉ cols_momentum ->
  is_Some (calculate_momentum df col_new c1 c2 c3 c4)
  <-> Forall (has_columns [c1; c2; c3; c4]) df.
Proof.
  intros _ H3 H4. unfold cols_momentum in H3, H4.
  rewrite !not_elem_of_cons in H3. rewrite !not_elem_of_cons in H4.
  destruct H3 as (H31 & H32 & H33 & _), H4 as (H41 & H42 & H43 & _).
  assert (Forall (has_columns [c1; c2; c3; c4]) df
          <-> (Forall (fun r => is_Some (cells r !! c1)) df /\
               Forall (fun r => is_Some (cells r !! c2)) df) /\
              Forall (fun r => is_Some (cells r !! c3)) df /\
              Forall (fun r => is_Some (cells r !! c4)) df) as ->.
  { unfold has_columns. rewrite <- !Forall_and. apply Forall_proper; [|done].
    intros r. rewrite !Forall_cons, Forall_nil. tauto. }
  unfold calculate_momentum.
  destruct (pairwise c1 c2 df) as [m1|] eqn:E1; simpl.
  2:{ split; [by intros [? ?]|]. intros [H _].
      apply pairwise_present in H. rewrite E1 in H. by destruct H. }
  assert (is_Some (pairwise c1 c2 df)) as P1 by eauto.
  apply pairwise_present in P1. destruct P1 as [P1 P2].
  pose proof (pairwise_length _ _ _ _ E1) as L1.
  set (df1 := set_col "momentum_1_2" m1 df) in *.
  assert (length df1 = length df) as Ld1 by (by apply set_col_length).
  destruct (pairwise c2 c3 df1) as [m2|] eqn:E2; simpl.
  2:{ split; [by intros [? ?]|]. intros (_ & P3 & _).
      assert (is_Some (pairwise c2 c3 df1)) as H; [|rewrite E2 in H; by destruct H].
      apply pairwise_present. split.
      - by apply set_col_present_any.
      - by apply set_col_present_ne. }
  assert (is_Some (pairwise c2 c3 df1)) as P3 by eauto.
  apply pairwise_present in P3. destruct P3 as [_ P3].
  apply set_col_present_ne in P3; [|done..].
  pose proof (pairwise_length _ _ _ _ E2) as L2.
  set (df2 := set_col "momentum_2_3" m2 df1) in *.
  assert (length df2 = length df1) as Ld2 by (by apply set_col_length).
  destruct (pairwise c3 c4 df2) as [m3|] eqn:E3; simpl.
  2:{ split; [by intros [? ?]|]. intros (_ & _ & P4).
      assert (is_Some (pairwise c3 c4 df2)) as H; [|rewrite E3 in H; by destruct H].
      apply pairwise_present. split.
      - apply set_col_present_ne; [done..|]. by apply set_col_present_ne.
      - apply set_col_present_ne; [done..|]. by apply set_col_present_ne. }
  assert (is_Some (pairwise c3 c4 df2)) as P4 by eauto.
  apply pairwise_present in P4. destruct P4 as [_ P4].
  apply set_col_present_ne in P4; [|done..].
  apply set_col_present_ne in P4; [|done..].
  pose proof (pairwise_length _ _ _ _ E3) as L3.
  set (df3 := set_col "momentum_3_4" m3 df2) in *.
  assert (is_Some (mapM (row_sum cols_momentum) df3)) as [s Es].
  { apply mapM_is_Some.
    assert (Forall (fun r => is_Some (cells r !! "momentum_1_2")) df3) as Q1.
    { apply set_col_present_ne; [done..|]. apply set_col_present_ne; [done..|].
      apply set_col_present. }
    assert (Forall (fun r => is_Some (cells r !! "momentum_2_3")) df3) as Q2.
    { apply set_col_present_ne; [done..|]. apply set_col_present. }
    assert (Forall (fun r => is_Some (cells r !! "momentum_3_4")) df3) as Q3
      by apply set_col_present.
    rewrite Forall_forall in *. intros r Hr.
    destruct (Q1 r Hr) as [x1 X1], (Q2 r Hr) as [x2 X2], (Q3 r Hr) as [x3 X3].
    unfold row_sum, cols_momentum. simpl. rewrite X1, X2, X3. simpl. eauto. }
  rewrite Es. simpl. split; [done|eauto].
Qed.

Lemma momentum_needs_columns_witness :
  is_Some (calculate_momentum momentum_frame "momentum" "p1" "p2" "p3" "p4").
Proof.
  apply (momentum_needs_columns momentum_frame "momentum" "p1" "p2" "p3" "p4").
  - discriminate.
  - by apply (bool_decide_unpack _).
  - by apply (bool_decide_unpack _).
  - repeat constructor; by eexists.
Defined.

End ScoreFacts.

(** ** Bounds of the weighted average *)

Module AverageFacts.
Import Float Series Engineering FloatFacts FrameFacts SortFacts GroupFacts RollingFacts
  EdgeFacts NameFacts WeightedFacts BarFacts PeakFacts RelativeFacts ScoreFacts
  FloatSpec BarSpec WeightedSpec AverageSpec.

Lemma insert_sorted_map (g : row -> row) x (l : list row) :
  (forall r, timestamp (g r) = timestamp r) ->
  Sorting.insert_sorted (fun a b => timestamp a <=? timestamp b) (g x) (map g l)
  = map g (Sorting.insert_sorted (fun a b => timestamp a <=? timestamp b) x l).
Proof.
  intros Hg. induction l as [|y l IH]; [done|].
  simpl. rewrite !Hg. destruct (_ <=? _); simpl; [done|]. by rewrite IH.
Qed.

Lemma sort_values_map (g : row -> row) (df : list row) :
  (forall r, timestamp (g r) = timestamp r) ->
  sort_values (map g df) = map g (sort_values df).
Proof.
  intros Hg. unfold sort_values, Sorting.sort.
  induction df as [|x df IH]; [done|]. simpl. rewrite IH. by apply insert_sorted_map.
Qed.

Lemma members_map (g : row -> row) r r' (df : list row) :
  (forall x, coin (g x) = coin x) -> coin r = coin r' ->
  Grouped.members same_coin r (map g df) = map g (Grouped.members same_coin r' df).
Proof.
  intros Hg Hr. unfold Grouped.members. induction df as [|x df IH]; [done|].
  simpl. rewrite !filter_cons.
  assert (same_coin r (g x) = same_coin r' x) as E
    by (unfold same_coin; by rewrite Hg, Hr).
  destruct (decide (same_coin r' x = true)) as [D|D].
  - rewrite decide_True by (by rewrite E). simpl. by rewrite IH.
  - rewrite decide_False by (by rewrite E). done.
Qed.

Lemma members_position (df : list row) j r :
  df !! j = Some r ->
  Grouped.members same_coin r df !! Grouped.position same_coin j r df = Some r.
Proof.
  intros Hr. unfold Grouped.position, Grouped.members.
  rewrite <- (take_drop_middle df j r Hr) at 2.
  rewrite filter_app, filter_cons.
  rewrite decide_True by (unfold same_coin; by apply bool_decide_eq_true_2).
  by rewrite lookup_app_r, Nat.sub_diag by done.
Qed.

(** The backward window at row [k] of a mapped column. *)
Lemma window_map {A} (f : A -> fl) center w (l : list A) k :
  window center w (map f l) k = map f (window_rows center w l k).
Proof.
  unfold window, window_rows. rewrite length_map.
  change (map ?f ?l) with (f <$> l). by rewrite fmap_take, fmap_drop.
Qed.

Lemma backward_rows {A} w (l : list A) k :
  (1 <= w)%nat -> (k < length l)%nat ->
  window_rows false w l k <> [] /\ window_rows false w l k ⊆ l.
Proof.
  intros Hw Hk. unfold window_rows.
  set (a := window_start _ _ _ _). set (b := window_stop _ _ _ _). split.
  - assert (a <= k < b)%nat as Hab.
    { subst a b. unfold window_start, window_stop, clip, window_offset.
      destruct w; [lia|]. simpl. lia. }
    intros E. apply (f_equal length) in E. rewrite length_take, length_drop in E.
    simpl in E. lia.
  - etrans; [apply subseteq_take|apply subseteq_drop].
Qed.

Section Bounds.
Context (col_price : string) (lo hi : Q).
Let pf := fun r : row => fmul (get col_price r) (get "volume" r).
Let vf := fun r : row => get "volume" r.

Lemma quoted_fin r :
  quoted_within col_price lo hi r -> is_fin (pf r) = true /\ is_fin (vf r) = true.
Proof.
  intros (p & v & Hp & Hv & _). unfold pf, vf, get. by rewrite Hp, Hv.
Qed.

Lemma weighted_sums (W : list row) :
  Forall (quoted_within col_price lo hi) W ->
  let A := Qsum (map (fun r => qv (pf r)) W) in
  let B := Qsum (map (fun r => qv (vf r)) W) in
  (lo * B <= A)%Q /\ (A <= hi * B)%Q /\ (0 <= B)%Q /\ (W <> [] -> (0 < B)%Q).
Proof.
  induction 1 as [|r W (p & v & Hp & Hv & Hlo & Hhi & Hpos) _ IH]; cbv zeta.
  - simpl. repeat split; try lra. done.
  - cbv zeta in IH. destruct IH as (IH1 & IH2 & IH3 & _).
    set (A := Qsum (map (fun r => qv (pf r)) W)) in *.
    set (B := Qsum (map (fun r => qv (vf r)) W)) in *.
    change (Qsum (map (fun r => qv (pf r)) (r :: W))) with (qv (pf r) + A)%Q.
    change (Qsum (map (fun r => qv (vf r)) (r :: W))) with (qv (vf r) + B)%Q.
    unfold pf, vf, get. rewrite Hp, Hv. simpl. rewrite Qred_correct.
    repeat split; nra.
Qed.

Lemma weighted_cell w (M : list row) k :
  (1 <= w)%nat -> (k < length M)%nat ->
  Forall (quoted_within col_price lo hi) M ->
  exists q,
    fdiv (cell (rolling_sum false w 1 (map pf M)) k)
         (cell (rolling_sum false w 1 (map vf M)) k) = Fin q /\
    (lo <= q)%Q /\ (q <= hi)%Q.
Proof.
  intros Hw Hk HM. unfold rolling_sum.
  rewrite !rolling_cell by (by rewrite length_map). cbv zeta.
  rewrite !window_map.
  destruct (backward_rows w M k Hw Hk) as [Hne Hsub].
  set (W := window_rows false w M k) in *.
  assert (Forall (quoted_within col_price lo hi) W) as HW.
  { rewrite Forall_forall in *. intros r Hr. apply HM. by apply Hsub. }
  assert (Forall (fun r => is_fin (pf r) = true) W) as Fp.
  { eapply Forall_impl; [exact HW|]. intros r Hr. by destruct (quoted_fin r Hr). }
  assert (Forall (fun r => is_fin (vf r) = true) W) as Fv.
  { eapply Forall_impl; [exact HW|]. intros r Hr. by destruct (quoted_fin r Hr). }
  assert (forall f : row -> fl, Forall (fun r => is_fin (f r) = true) W ->
            observations (map f W) = map f W) as Hobs.
  { intros f Hf. apply observations_finite. apply Forall_forall. intros x Hx.
    apply list_elem_of_In, in_map_iff in Hx as (r & <- & Hr).
    apply list_elem_of_In in Hr. rewrite Forall_forall in Hf. by apply Hf. }
  assert (forall f : row -> fl, Forall (fun r => is_fin (f r) = true) W ->
            fsum (map f W) = nansum (map f W)) as Hsum.
  { intros f Hf. unfold nansum. rewrite dropna_notnan; [done|].
    apply Forall_forall. intros x Hx.
    apply list_elem_of_In, in_map_iff in Hx as (r & <- & Hr).
    apply list_elem_of_In in Hr. rewrite Forall_forall in Hf. specialize (Hf r Hr).
    by destruct (f r). }
  rewrite !Hobs by done. rewrite !length_map.
  destruct (Nat.ltb_spec (length W) 1) as [Hl|_].
  { destruct W; [done|simpl in Hl; lia]. }
  rewrite !Hsum by done.
  rewrite (nansum_is_fin pf W Fp), (nansum_is_fin vf W Fv).
  destruct (weighted_sums W HW) as (H1 & H2 & H3 & H4). specialize (H4 Hne).
  set (A := Qsum (map _ W)) in *. set (B := Qsum (map _ W)) in *.
  rewrite fdiv_fin by done. eexists. split; [reflexivity|].
  rewrite Qred_correct. split.
  - apply Qle_shift_div_l; [done|]. done.
  - apply Qle_shift_div_r; [done|]. done.
Qed.
End Bounds.

Lemma members_subseteq r (df : list row) : Grouped.members same_coin r df ⊆ df.
Proof. intros x Hx. by apply list_elem_of_filter in Hx as [_ ?]. Qed.

(** X20: when every row has a finite price between [lo] and [hi] and a
    finite positive volume, every value of the weighted average column
    is a number between [lo] and [hi] (in exact arithmetic). *)
Theorem weighted_average_within_prices (df : list row) (col_price colname_new : string)
    (window_length : nat) (out : list row) (lo hi : Q) :
  Forall (quoted_within col_price lo hi) df ->
  weighted_average df col_price colname_new window_length = Some out ->
  length out = length df /\
  Forall (fun r' => exists q,
            cells r' !! (colname_new +:+ pretty window_length) = Some (Fin q) /\
            (lo <= q)%Q /\ (q <= hi)%Q) out.
Proof.
  intros Hq. unfold weighted_average.
  set (colname := colname_new +:+ pretty window_length).
  pose proof (numbered_fresh colname_new window_length) as Hfresh. fold colname in Hfresh.
  intros H.
  destruct (column col_price df) as [p|] eqn:Ep; [|done]. simpl in H.
  destruct (column "volume" df) as [v|] eqn:Ev; [|done]. simpl in H.
  rewrite (set_col_zip fmul _ _ _ _ _ _ Ep Ev) in H.
  set (g := fun r => with_cells (insert "weighted_price"
                       (fmul (get col_price r) (get "volume" r))) r) in H.
  rewrite (sort_values_map g) in H by done.
  set (df0 := sort_values df) in *. set (dfb := map g df0) in *.
  case_guard as Hw; [|done]. simpl in H.
  destruct (grouped "weighted_price" _ dfb) as [nom|] eqn:En; [|done]. simpl in H.
  set (dfc := set_col "nominator" nom dfb) in *.
  destruct (grouped "volume" _ dfc) as [den|] eqn:Ed; [|done]. simpl in H.
  set (dfd := set_col "denominator" den dfc) in *.
  destruct (column "nominator" dfd) as [a|] eqn:Ea; [|done]. simpl in H.
  destruct (column "denominator" dfd) as [b|] eqn:Eb; [|done]. simpl in H.
  injection H as <-.
  apply grouped_Some in En, Ed.
  assert (length df0 = length df) as L0 by apply sort_length.
  assert (length dfb = length df0) as Lb by apply length_map.
  assert (length nom = length dfb) as Ln by (subst nom; apply transform_length).
  assert (length dfc = length dfb) as Lc by (by apply set_col_length).
  assert (length den = length dfc) as Ld by (subst den; apply transform_length).
  assert (length dfd = length dfc) as Ldd by (by apply set_col_length).
  pose proof (column_length _ _ _ Ea) as La.
  pose proof (column_length _ _ _ Eb) as Lbb.
  assert (length (zip_with fdiv a b) = length dfd) as Lz by (rewrite length_zip_with; lia).
  set (dfe := set_col colname (zip_with fdiv a b) dfd).
  assert (length dfe = length dfd) as Le by (by apply set_col_length).
  assert (length (drop_cols scratch dfe) = length dfe) as Lo
    by (unfold drop_cols; apply length_map).
  split; [lia|].
  assert (Forall (quoted_within col_price lo hi) df0) as Hq0.
  { unfold df0, sort_values. by rewrite sort_perm. }
  assert (coin <$> dfb = coin <$> df0) as Cb.
  { unfold dfb. change (map ?f ?l) with (f <$> l). by rewrite <- list_fmap_compose. }
  assert (coin <$> dfc = coin <$> df0) as Cc by (by rewrite <- Cb; apply set_col_coins).
  apply Forall_lookup. intros j r' Hr'.
  destruct (lookup_lt_is_Some_2 df0 j) as [r0 Hr0].
  { apply lookup_lt_Some in Hr'. lia. }
  assert (dfb !! j = Some (g r0)) as Hrb.
  { unfold dfb. change (map ?f ?l) with (f <$> l). by rewrite list_lookup_fmap, Hr0. }
  pose proof (transform_lookup same_coin (get "weighted_price")
                (rolling_sum false window_length 1) dfb j (g r0) Hrb) as Hn.
  rewrite <- En in Hn.
  pose proof (set_col_lookup "nominator" _ _ _ _ _ Hrb Hn) as Hrc. fold dfc in Hrc.
  set (rc := with_cells _ (g r0)) in Hrc.
  pose proof (transform_lookup same_coin (get "volume")
                (rolling_sum false window_length 1) dfc j rc Hrc) as Hd.
  rewrite <- Ed in Hd.
  pose proof (set_col_lookup "denominator" _ _ _ _ _ Hrc Hd) as Hrd. fold dfd in Hrd.
  pose proof (column_cell _ _ _ _ _ Ea Hrd) as Ha.
  pose proof (column_cell _ _ _ _ _ Eb Hrd) as Hb.
  rewrite get_insert_eq in Hb.
  rewrite get_insert_ne in Ha by done. unfold rc in Ha. rewrite get_insert_eq in Ha.
  set (M := Grouped.members same_coin r0 df0).
  set (k := Grouped.position same_coin j r0 df0).
  assert (map (get "weighted_price") (Grouped.members same_coin (g r0) dfb)
          = map (fun r => fmul (get col_price r) (get "volume" r)) M) as EN.
  { unfold dfb. rewrite (members_map g (g r0) r0) by done. fold M.
    change (map ?f ?l) with (f <$> l). rewrite <- list_fmap_compose.
    apply list_fmap_ext. intros _ x _. simpl. unfold g. by rewrite get_insert_eq. }
  assert (map (get "volume") (Grouped.members same_coin rc dfc)
          = map (fun r => get "volume" r) M) as ED.
  { unfold dfc. rewrite (members_set_col _ _ _ _ rc (g r0)) by done.
    unfold dfb. rewrite (members_map g (g r0) r0) by done. fold M.
    change (map ?f ?l) with (f <$> l). rewrite <- list_fmap_compose.
    apply list_fmap_ext. intros _ x _. simpl. unfold g. by rewrite get_insert_ne. }
  rewrite EN, (position_coins j (g r0) r0 dfb df0) in Ha by done.
  rewrite ED, (position_coins j rc r0 dfc df0) in Hb by done.
  fold k in Ha, Hb.
  destruct (weighted_cell col_price lo hi window_length M k) as (q & Eq & Hlo & Hhi).
  - done.
  - eapply lookup_lt_Some. by apply members_position.
  - rewrite Forall_forall in *. intros r Hr. apply Hq0. by apply (members_subseteq r0).
  - assert (zip_with fdiv a b !! j = Some (Fin q)) as Hz.
    { rewrite lookup_zip_with, Ha. simpl. rewrite Hb. simpl. by rewrite Eq. }
    pose proof (set_col_lookup colname _ _ _ _ _ Hrd Hz) as Hre. fold dfe in Hre.
    pose proof (drop_cols_lookup scratch _ _ _ Hre) as Hout.
    rewrite Hr' in Hout. injection Hout as ->.
    exists q. split; [|done]. simpl.
    unfold scratch in Hfresh. rewrite !not_elem_of_cons in Hfresh.
    destruct Hfresh as (?&?&?&?&_).
    rewrite !lookup_delete_ne by done. by rewrite lookup_insert_eq.
Qed.

Lemma weighted_average_within_prices_witness :
  exists out,
    weighted_average two_hours "price" "avg_price_" 5 = Some out /\
    Forall (fun r' => exists q,
              cells r' !! "avg_price_5" = Some (Fin q) /\ (10 <= q)%Q /\ (q <= 20)%Q) out.
Proof.
  eexists. split; [vm_compute; reflexivity|].
  apply (weighted_average_within_prices two_hours "price" "avg_price_" 5 _ 10%Q 20%Q).
  - repeat constructor.
    + exists 20%Q, 3%Q. repeat split; try reflexivity; vm_compute; discriminate.
    + exists 10%Q, 1%Q. repeat split; try reflexivity; vm_compute; discriminate.
  - vm_compute. reflexivity.
Defined.

Lemma grouped_present c f df :
  Forall (fun r => is_Some (cells r !! c)) df ->
  grouped c f df = Some (Grouped.transform same_coin (get c) f df).
Proof. intros H. unfold grouped. by rewrite (column_is_Some _ _ H). Qed.

(** X19: on a frame with rows, [weighted_average] returns exactly when
    the window has at least one period and every row has the price column
    and a volume; a window of no period is refused by the rolling sum, a
    missing column raises at its lookup. *)
Theorem weighted_average_defined (df : list row) (col_price colname_new : string)
    (window_length : nat) :
  df <> [] ->
  is_Some (weighted_average df col_price colname_new window_length)
  <-> (1 <= window_length)%nat /\ Forall (has_price_and_volume col_price) df.
Proof.
  intros _. unfold has_price_and_volume. rewrite Forall_and, <- !column_present.
  unfold weighted_average.
  destruct (column col_price df) as [p|] eqn:Ep; simpl;
    [|split; [by intros [? ?]|by intros (_ & [? ?] & _)]].
  destruct (column "volume" df) as [v|] eqn:Ev; simpl;
    [|split; [by intros [? ?]|by intros (_ & _ & [? ?])]].
  case_guard as Hw; simpl; [|split; [by intros [? ?]|by intros [? _]]].
  pose proof (column_length _ _ _ Ep) as Lp.
  pose proof (column_length _ _ _ Ev) as Lv.
  set (dfa := set_col "weighted_price" (zip_with fmul p v) df).
  set (dfb := sort_values dfa).
  assert (length dfa = length df) as La
    by (apply set_col_length; rewrite length_zip_with; lia).
  assert (dfb ≡ₚ dfa) as Pb by apply sort_perm.
  assert (Forall (fun r => is_Some (cells r !! "weighted_price")) dfb) as W1.
  { rewrite Pb. apply set_col_present. }
  assert (Forall (fun r => is_Some (cells r !! "volume")) dfb) as V1.
  { rewrite Pb. apply set_col_present_ne; [done|rewrite length_zip_with; lia|].
    apply column_present. eauto. }
  rewrite (grouped_present _ _ _ W1). simpl.
  set (nom := Grouped.transform _ _ _ dfb).
  assert (length nom = length dfb) as Ln by apply transform_length.
  set (dfc := set_col "nominator" nom dfb).
  assert (length dfc = length dfb) as Lc by (by apply set_col_length).
  assert (Forall (fun r => is_Some (cells r !! "volume")) dfc) as V2
    by (by apply set_col_present_ne).
  rewrite (grouped_present _ _ _ V2). simpl.
  set (den := Grouped.transform _ _ _ dfc).
  assert (length den = length dfc) as Ld by apply transform_length.
  set (dfd := set_col "denominator" den dfc).
  assert (Forall (fun r => is_Some (cells r !! "nominator")) dfd) as N3.
  { apply set_col_present_ne; [done..|]. apply set_col_present. }
  assert (Forall (fun r => is_Some (cells r !! "denominator")) dfd) as D3
    by apply set_col_present.
  rewrite (column_is_Some _ _ N3), (column_is_Some _ _ D3). simpl.
  split; [|eauto]. intros _. split; [done|]. split; eauto.
Qed.

Lemma weighted_average_defined_witness :
  is_Some (weighted_average two_hours "price" "avg_price_" 5).
Proof.
  apply (weighted_average_defined two_hours "price" "avg_price_" 5); [discriminate|].
  split; [lia|]. repeat constructor; by eexists.
Defined.

End AverageFacts.

(** ** What the feature functions need *)

Module GuardFacts.
Import Float Series Engineering FloatFacts FrameFacts SortFacts GroupFacts EdgeFacts
  JoinFacts ScoreFacts FloatSpec EdgeSpec LevelSpec JoinSpec ScoreSpec GuardSpec.

Lemma local_max_not_avg suffix : "local_max" +:+ suffix <> "avg_price_5".
Proof. intros [=]. Qed.

(** X21: [define_local_min_max] reads the column avg_price_5 whatever
    price column it is given: on a frame with a row that lacks it the
    call raises. *)
Theorem local_min_max_needs_avg_price_5 (df : list row) (col_price : string)
    (w : nat) (suffix : string) :
  Exists (fun r => cells r !! "avg_price_5" = None) df ->
  define_local_min_max df col_price w suffix = None.
Proof.
  intros Hex. unfold define_local_min_max.
  set (col_max := "local_max" +:+ suffix).
  assert (col_max <> "avg_price_5") as Hne by apply local_max_not_avg.
  set (df0 := sort_values df).
  destruct (grouped col_price _ df0) as [m1|] eqn:E1; [|done]. simpl.
  apply grouped_Some in E1.
  assert (length m1 = length df0) as Lm1 by (subst m1; apply transform_length).
  set (df1 := set_col col_max m1 df0).
  assert (length df1 = length df0) as L1 by (by apply set_col_length).
  destruct (column col_price df1) as [x0|] eqn:Ex0; [|done]. simpl.
  destruct (column col_max df1) as [x1|] eqn:Ex1; [|done]. simpl.
  pose proof (column_length _ _ _ Ex0) as Lx0.
  pose proof (column_length _ _ _ Ex1) as Lx1.
  set (df2 := set_col col_max (zip_with flag x0 x1) df1).
  destruct (grouped "avg_price_5" _ df2) as [m2|] eqn:E2; [|done]. exfalso.
  unfold grouped in E2.
  destruct (column "avg_price_5" df2) as [a|] eqn:Ea; [|done].
  assert (is_Some (column "avg_price_5" df2)) as Hs by eauto.
  apply column_present in Hs.
  apply set_col_present_ne in Hs; [|done|rewrite length_zip_with; lia].
  apply set_col_present_ne in Hs; [|done..].
  unfold df0, sort_values in Hs. rewrite sort_perm in Hs.
  apply Exists_exists in Hex as (r & Hr & Hnone).
  rewrite Forall_forall in Hs. specialize (Hs r Hr). rewrite Hnone in Hs. by destruct Hs.
Qed.

Lemma local_min_max_needs_avg_price_5_witness :
  define_local_min_max five_hours "high" 3 "" = None.
Proof.
  apply (local_min_max_needs_avg_price_5 five_hours "high" 3 "").
  apply Exists_cons_hd. reflexivity.
Defined.

Lemma filter_nil_not_Exists {A} (P : A -> Prop) `{forall x, Decision (P x)} (l : list A) :
  filter P l <> [] <-> Exists P l.
Proof.
  induction l as [|x l IH]; [rewrite Exists_nil; done|].
  rewrite filter_cons, Exists_cons. case_decide; [|tauto]. split; [auto|done].
Qed.

(** X23: with a price column that is neither flag column,
    [aggregate_support_levels] returns exactly when every row has the
    three columns and at least one row is flagged as extremum; with no
    flagged row the cluster frame has no columns and the merge raises. *)
Theorem support_levels_need_an_extremum (df : list row) (col_min col_max col_price : string)
    (thres : fl) :
  col_price <> col_min -> col_price <> col_max ->
  is_Some (aggregate_support_levels df col_min col_max col_price thres)
  <-> Forall (has_columns [col_min; col_max; col_price]) df /\
      Exists (flagged col_min col_max) df.
Proof.
  intros _ _.
  assert (Forall (has_columns [col_min; col_max; col_price]) df
          <-> is_Some (column col_min df) /\ is_Some (column col_max df) /\
              is_Some (column col_price df)) as ->.
  { rewrite !column_present, <- !Forall_and. unfold has_columns.
    apply Forall_proper; [|done]. intros r. rewrite !Forall_cons, Forall_nil. tauto. }
  unfold aggregate_support_levels.
  destruct (column col_min df); simpl; [|split; [by intros [? ?]|by intros [[[? ?] _] _]]].
  destruct (column col_max df); simpl;
    [|split; [by intros [? ?]|by intros [(_ & [? ?] & _) _]]].
  destruct (column col_price df); simpl;
    [|split; [by intros [? ?]|by intros [(_ & _ & [? ?]) _]]].
  case_guard as Hg; simpl.
  - split; [|eauto]. intros _. split; [eauto|].
    apply (filter_nil_not_Exists (flagged col_min col_max)). exact Hg.
  - split; [by intros [? ?]|]. intros [_ Hex]. exfalso.
    apply (filter_nil_not_Exists (flagged col_min col_max)) in Hex. apply Hex. exact Hg.
Qed.

Lemma support_levels_need_an_extremum_witness :
  is_Some (aggregate_support_levels far_apart "local_min" "local_max" "price" thres).
Proof.
  apply (support_levels_need_an_extremum far_apart "local_min" "local_max" "price" thres).
  - by apply (bool_decide_unpack _).
  - by apply (bool_decide_unpack _).
  - split; [repeat constructor; by eexists|].
    apply Exists_cons_hd. reflexivity.
Defined.

End GuardFacts.

(** ** Printing and preparing the news *)

Module FeedFacts.
Import Float Series News Grouped FloatFacts SortFacts GroupFacts NewsFacts
  FloatSpec NewsSpec GuardSpec.

(** X13: [print_news] cannot print what [fetch_news] returns: an
    article has no link, so the first article's title is printed and the
    lookup of the link raises; nothing else is printed. *)
Theorem print_news_stops_at_link (article : gmap string string)
    (news : list (gmap string string)) :
  fetched article ->
  exists t, article !! "title" = Some t /\
    print_news (article :: news) = (["Title: " +:+ t], Some "link").
Proof.
  intros Hf.
  destruct (proj2 (Hf "title")) as [t Ht].
  { unfold fetched_keys. rewrite !elem_of_cons. tauto. }
  assert (article !! "link" = None) as Hl.
  { destruct (article !! "link") eqn:E; [|done]. exfalso.
    assert ("link" ∈ fetched_keys) as Hin by (apply Hf; eauto).
    revert Hin. by apply (bool_decide_unpack _). }
  exists t. split; [done|]. simpl. by rewrite Ht, Hl.
Qed.

Lemma print_news_stops_at_link_witness :
  exists t, fetched_article !! "title" = Some t /\
    print_news [fetched_article; fetched_article] = (["Title: " +:+ t], Some "link").
Proof.
  apply (print_news_stops_at_link fetched_article [fetched_article]).
  intros k. unfold fetched_article, fetched_keys.
  rewrite !lookup_insert_is_Some', lookup_empty, !elem_of_cons, elem_of_nil.
  split.
  - intros [?|[?|[?|[?|[?|[? ?]]]]]]; auto 10; done.
  - intros [?|[?|[?|[?|[?|[]]]]]]; auto 10.
Defined.

Lemma drop_duplicates_nil {A} `{EqDecision A} (l : list A) :
  drop_duplicates l = [] <-> l = [].
Proof. by destruct l. Qed.

Lemma sort_nil {A} (leb : A -> A -> bool) (l : list A) : Sorting.sort leb l = [] <-> l = [].
Proof.
  split; [|by intros ->]. intros E. apply (f_equal length) in E.
  rewrite sort_length in E. by destruct l.
Qed.

Lemma aggregate_nil polarity df : aggregate polarity df = [] <-> df = [].
Proof.
  unfold aggregate. split; [|by intros ->]. intros E.
  apply map_eq_nil in E. apply (proj1 (sort_nil _ _)) in E.
  unfold unique in E. apply (proj1 (drop_duplicates_nil _)) in E.
  by apply map_eq_nil in E.
Qed.

(** X14: [prepare_crypto_news] returns exactly when at least one
    article has a parseable date; otherwise the date range of the grid
    has no bounds and the call raises. *)
Theorem news_need_a_dated_article (polarity : string -> fl) (all_news : list article) :
  is_Some (prepare_crypto_news polarity all_news)
  <-> Exists (fun a => -1 < a_hour a) all_news.
Proof.
  unfold prepare_crypto_news.
  set (df := aggregate polarity _).
  assert (df = [] <-> ~ Exists (fun a => -1 < a_hour a) all_news) as Hnil.
  { unfold df. rewrite aggregate_nil, drop_duplicates_nil.
    rewrite <- GuardFacts.filter_nil_not_Exists.
    split; [intros E H; apply H; exact E|]. intros H.
    destruct (filter (fun a => -1 < a_hour a) all_news) as [|x l] eqn:E'; [done|].
    exfalso. apply H. done. }
  unfold enlarge_dataframe. destruct df as [|r df'] eqn:E; simpl.
  - split; [by intros [? ?]|]. intros H. by apply Hnil in H.
  - split; [|eauto]. intros _.
    destruct (decide (Exists (fun a => -1 < a_hour a) all_news)) as [|Hn]; [done|].
    by apply Hnil in Hn.
Qed.

Lemma news_need_a_dated_article_witness :
  is_Some (prepare_crypto_news neutral three_days).
Proof.
  apply (news_need_a_dated_article neutral three_days).
  apply Exists_cons_hd. reflexivity.
Defined.

Lemma add_rolled_names name col (df : list news_row) names :
  length col = length df ->
  Forall (has_rolled names) df ->
  Forall (has_rolled (name :: names)) (add_rolled name col df).
Proof.
  unfold add_rolled. intros Hlen H. revert col Hlen.
  induction H as [|r df Hr _ IH]; intros [|v col] Hlen; simplify_eq/=; constructor.
  - intros c. simpl. rewrite lookup_insert_is_Some, elem_of_cons, (Hr c).
    destruct (decide (name = c)) as [->|]; intuition congruence.
  - by apply IH.
Qed.

Lemma rolling_count_sum_names (df : list news_row) w names :
  Forall (has_rolled names) df ->
  Forall (has_rolled (("news_sentiment_" +:+ pretty w) :: ("news_count_" +:+ pretty w) :: names))
    (rolling_count_sum df w).
Proof.
  intros H. unfold rolling_count_sum.
  set (df0 := Sorting.sort _ df).
  assert (Forall (has_rolled names) df0) as H0 by (unfold df0; by rewrite sort_perm).
  apply add_rolled_names.
  - by rewrite EdgeFacts.transform_length.
  - apply add_rolled_names; [|done]. by rewrite EdgeFacts.transform_length.
Qed.

(** X15: every row of the frame [prepare_crypto_news] returns has the
    eight rolling columns, count and sentiment over 3, 6, 12 and 24
    hours, and no other rolling column. *)
Theorem news_rows_have_rolling_columns (polarity : string -> fl) (all_news : list article)
    (out : list news_row) :
  prepare_crypto_news polarity all_news = Some out ->
  Forall (has_rolled rolled_names) out.
Proof.
  unfold prepare_crypto_news. set (df := aggregate polarity _).
  destruct (enlarge_dataframe df) as [g|] eqn:Eg; [|done]. simpl. intros [= <-].
  assert (Forall (has_rolled []) g) as H0.
  { unfold enlarge_dataframe in Eg. destruct (map published_day df); [done|].
    injection Eg as <-. apply Forall_forall. intros r Hr.
    apply list_elem_of_bind in Hr as (k & Hr & _).
    assert (rolled r = ∅) as Hempty.
    { unfold merge_cell in Hr. destruct (filter _ df) as [|x rest] eqn:E.
      - apply list_elem_of_singleton in Hr as ->. done.
      - rewrite <- E in Hr. apply list_elem_of_filter in Hr as [_ Hr].
        unfold df, aggregate in Hr. apply list_elem_of_In, in_map_iff in Hr as (? & <- & _).
        done. }
    intros c. rewrite Hempty, lookup_empty. split; [by intros [? ?]|].
    intros Hc. by apply elem_of_nil in Hc. }
  apply (rolling_count_sum_names _ 3) in H0.
  apply (rolling_count_sum_names _ 6) in H0.
  apply (rolling_count_sum_names _ 12) in H0.
  apply (rolling_count_sum_names _ 24) in H0.
  eapply Forall_impl; [exact H0|]. intros r Hr c. rewrite (Hr c).
  assert ("news_sentiment_" +:+ pretty 24%nat = "news_sentiment_24") as -> by (vm_compute; reflexivity).
  assert ("news_count_" +:+ pretty 24%nat = "news_count_24") as -> by (vm_compute; reflexivity).
  assert ("news_sentiment_" +:+ pretty 12%nat = "news_sentiment_12") as -> by (vm_compute; reflexivity).
  assert ("news_count_" +:+ pretty 12%nat = "news_count_12") as -> by (vm_compute; reflexivity).
  assert ("news_sentiment_" +:+ pretty 6%nat = "news_sentiment_6") as -> by (vm_compute; reflexivity).
  assert ("news_count_" +:+ pretty 6%nat = "news_count_6") as -> by (vm_compute; reflexivity).
  assert ("news_sentiment_" +:+ pretty 3%nat = "news_sentiment_3") as -> by (vm_compute; reflexivity).
  assert ("news_count_" +:+ pretty 3%nat = "news_count_3") as -> by (vm_compute; reflexivity).
  unfold rolled_names. rewrite !elem_of_cons. tauto.
Qed.

Lemma news_rows_have_rolling_columns_witness : has_rolled rolled_names hour_one.
Proof.
  assert (prepare_crypto_news neutral three_days = Some three_days_grid) as E.
  { apply default_Some. apply (bool_decide_unpack _). vm_compute. exact I. }
  pose proof (news_rows_have_rolling_columns neutral three_days three_days_grid E) as H.
  eapply (Forall_lookup_1 _ _ 1%nat); [exact H|].
  apply default_Some. apply (bool_decide_unpack _). vm_compute. exact I.
Defined.

End FeedFacts.

(** ** The examples of the specification, evaluated *)

Module SpecExamples.
Import Float Series SampleSpec.

(** Momentum of the prices (100, 90, 95, 100):
    (100-90)/90 + (90-95)/95 + (95-100)/100. *)
Example momentum_of_four_prices :
  option_map (map (Engineering.get "momentum"))
    (Engineering.calculate_momentum
       [Engineering.Row "BTC/USD" 0 0
          (<["p1" := Fin 100]> (<["p2" := Fin 90]>
             (<["p3" := Fin 95]> (<["p4" := Fin 100]> ∅))))]
       "momentum" "p1" "p2" "p3" "p4")
  = Some [fin (10 / 90 + (-5) / 95 + (-5) / 100)].
Proof. vm_compute. reflexivity. Qed.

(** A single spike in the middle of a window of three periods is the only
    local maximum. *)
Example single_spike :
  option_map (map (Engineering.get "local_max"))
    (Engineering.define_local_min_max2 spike "low" "high" 3 "")
  = Some [Fin 0; Fin 0; Fin 1; Fin 0; Fin 0].
Proof. vm_compute. reflexivity. Qed.

(** One article in each of 24 consecutive hours: the count over the last
    12 hours is 12 at hour 23. *)
Example count_over_twelve_hours :
  option_map (fun out : list News.news_row =>
                option_map (fun r => News.rolled r !! "news_count_12") (out !! 23%nat))
    (News.prepare_crypto_news (fun _ => Fin 0) every_hour)
  = Some (Some (Some (Fin 12))).
Proof. vm_compute. reflexivity. Qed.

(** The trailing change over [h] rows of a price series of constant slope
    [s] is [s * h / price[t - h] * 100]. *)
Example change_on_constant_slope :
  Prices.change_col 3 [Fin 10; Fin 12; Fin 14; Fin 16; Fin 18]
  = [NaN; NaN; NaN; fin (2 * 3 / 10 * 100); fin (2 * 3 / 12 * 100)].
Proof. vm_compute. reflexivity. Qed.

End SpecExamples.
